(** * LendFlow: the amortization calculator and the loan ledger

    A shallow embedding of the server of the LendFlow application: the
    helper [calculateMonthlyPayment], the Mongoose schemas of loans and
    payments, the handlers of loans, payments, the dashboard and the
    clearing of the database; and of the loan form and the progress bar of
    the browser side.

    Numbers.  A JavaScript Number is a rational, or one of the three special
    values NaN, +Infinity and -Infinity; the sign of zero is outside the
    model (the only zero divisors the calculator can meet, a term of 0 and
    [x - x], are positive zeros).  The arithmetic is read in two ways.

    - The exact reading: the four operations are exact on rationals.  It is
      the reading of the invariants of the ledger, which do not depend on
      the last bit of a quotient.

    - The binary64 reading: every operation is the exact one followed by
      the rounding to the closest binary64 value, ties to even, with
      subnormal numbers and overflow to an infinity.  It is the reading of
      the properties that fix a computed value to the cent: the definitions
      that end in [64] are the calculator, the loan details and the update
      of the balance as the code runs them. *)

From Stdlib Require Import ZArith QArith Qround Qpower Qabs.
From Stdlib Require Import List Permutation String Ascii Bool Lia Lqa.
Import ListNotations.

Local Open Scope string_scope.

(** ** Numbers *)

Inductive Number : Type :=
| Finite (q : Q)
| PosInf
| NegInf
| NaN.

Definition num (z : Z) : Number := Finite (inject_Z z).

Definition Qltb (x y : Q) : bool := negb (Qle_bool y x).

Definition isFinite (a : Number) : bool :=
  match a with Finite _ => true | _ => false end.

Definition isNaN (a : Number) : bool :=
  match a with NaN => true | _ => false end.

(** Unary minus. *)
Definition nneg (a : Number) : Number :=
  match a with
  | Finite x => Finite (- x)
  | PosInf => NegInf
  | NegInf => PosInf
  | NaN => NaN
  end.

(** [a + b]. *)
Definition nadd (a b : Number) : Number :=
  match a, b with
  | NaN, _ | _, NaN => NaN
  | Finite x, Finite y => Finite (x + y)
  | PosInf, NegInf | NegInf, PosInf => NaN
  | PosInf, _ | _, PosInf => PosInf
  | NegInf, _ | _, NegInf => NegInf
  end.

(** [a - b]. *)
Definition nsub (a b : Number) : Number := nadd a (nneg b).

(** The infinity carrying the sign of [x] times [+Infinity]; zero has the
    sign of a positive zero. *)
Definition signedInf (x : Q) : Number :=
  if Qltb x 0 then NegInf else PosInf.

(** [a * b]. *)
Definition nmul (a b : Number) : Number :=
  match a, b with
  | NaN, _ | _, NaN => NaN
  | Finite x, Finite y => Finite (x * y)
  | Finite x, PosInf | PosInf, Finite x =>
      if Qeq_bool x 0 then NaN else signedInf x
  | Finite x, NegInf | NegInf, Finite x =>
      if Qeq_bool x 0 then NaN else nneg (signedInf x)
  | PosInf, PosInf | NegInf, NegInf => PosInf
  | PosInf, NegInf | NegInf, PosInf => NegInf
  end.

(** [a / b]. *)
Definition ndiv (a b : Number) : Number :=
  match a, b with
  | NaN, _ | _, NaN => NaN
  | Finite x, Finite y =>
      if Qeq_bool y 0
      then if Qeq_bool x 0 then NaN else signedInf x
      else Finite (x / y)
  | Finite _, (PosInf | NegInf) => Finite 0
  | PosInf, Finite y => signedInf y
  | NegInf, Finite y => nneg (signedInf y)
  | (PosInf | NegInf), (PosInf | NegInf) => NaN
  end.

(** The relational operators: every comparison with NaN is false. *)
Definition nlt (a b : Number) : bool :=
  match a, b with
  | NaN, _ | _, NaN => false
  | Finite x, Finite y => Qltb x y
  | _, NegInf => false
  | NegInf, _ => true
  | PosInf, _ => false
  | Finite _, PosInf => true
  end.

Definition nle (a b : Number) : bool :=
  match a, b with
  | NaN, _ | _, NaN => false
  | Finite x, Finite y => Qle_bool x y
  | NegInf, _ => true
  | _, PosInf => true
  | _, NegInf => false
  | PosInf, Finite _ => false
  end.

Definition ngt (a b : Number) : bool := nlt b a.
Definition nge (a b : Number) : bool := nle b a.

(** [a === b] on Numbers. *)
Definition nstricteq (a b : Number) : bool :=
  match a, b with
  | Finite x, Finite y => Qeq_bool x y
  | PosInf, PosInf | NegInf, NegInf => true
  | _, _ => false
  end.

(** [Math.round]: the closest integer, ties towards +Infinity. *)
Definition Math_round (a : Number) : Number :=
  match a with
  | Finite x => Finite (inject_Z (Qfloor (x + (1 # 2))))
  | _ => a
  end.

(** Whole numbers and odd whole numbers among the rationals. *)
Definition isWhole (q : Q) : bool := Qeq_bool q (inject_Z (Qfloor q)).
Definition isOddWhole (q : Q) : bool := isWhole q && Z.odd (Qfloor q).

(** The value the Number tells about the same quantity: equal rationals, or
    the same special value. *)
Definition Neq (a b : Number) : Prop :=
  match a, b with
  | Finite x, Finite y => x == y
  | PosInf, PosInf | NegInf, NegInf | NaN, NaN => True
  | _, _ => False
  end.

Infix "=n=" := Neq (at level 70, no associativity).

(** ** Completions: a value returned or an error thrown *)

Inductive Completion (A : Type) : Type :=
| Return (a : A)
| Throw (msg : string).

Arguments Return {A} a.
Arguments Throw {A} msg.

Definition bind {A B} (c : Completion A) (k : A -> Completion B)
  : Completion B :=
  match c with
  | Return a => k a
  | Throw m => Throw m
  end.

(** [try { body } catch (error) { handler }]. *)
Definition tryCatch {A} (body : Completion A) (handler : string -> Completion A)
  : Completion A :=
  match body with
  | Return a => Return a
  | Throw m => handler m
  end.

(** ** Values of a JSON request body

    The scalars of JSON, and [undefined] for a field that is absent; arrays
    and objects are left out. *)

Inductive JsValue : Type :=
| JUndefined
| JNull
| JBool (b : bool)
| JNum (n : Number)
| JStr (s : string).

Definition nonEmpty (s : string) : bool := negb (String.eqb s "").

(** Truthiness: what [!v] negates. *)
Definition truthy (v : JsValue) : bool :=
  match v with
  | JUndefined | JNull => false
  | JBool b => b
  | JNum (Finite q) => negb (Qeq_bool q 0)
  | JNum NaN => false
  | JNum _ => true
  | JStr s => nonEmpty s
  end.

(** ** The documents of the three collections

    Of the dates only [paymentDate] is kept, the one the listing of the
    payments sorts by: a time value in milliseconds, as [Date.now] gives
    it.  The timestamps and [startDate] are left out; a field of a document
    keeps its name inside the module of its collection. *)

Inductive LoanStatus : Type := ACTIVE | PAID_OFF.

Inductive PaymentStatus : Type := pending | completed | failed.

Definition LoanStatus_eqb (a b : LoanStatus) : bool :=
  match a, b with
  | ACTIVE, ACTIVE | PAID_OFF, PAID_OFF => true
  | _, _ => false
  end.

Definition PaymentStatus_eqb (a b : PaymentStatus) : bool :=
  match a, b with
  | pending, pending | completed, completed | failed, failed => true
  | _, _ => false
  end.

Module Customer.
Record t : Type := mk {
  customerId : string;
  name : string;
  email : string;
  phone : string;
  address : string
}.
End Customer.

Module Loan.
Record t : Type := mk {
  loanId : string;
  customerId : string;
  amount : Number;
  interestRate : Number;
  term : Number;
  status : LoanStatus;
  monthlyPayment : Number;
  totalAmount : Number;
  remainingBalance : Number
}.
End Loan.

Module Payment.
Record t : Type := mk {
  paymentId : string;
  loanId : string;
  amount : Number;
  paymentDate : Z;
  paymentType : string;
  paymentMethod : string;
  status : PaymentStatus;
  reference : option string
}.
End Payment.

(** The database: each collection in insertion order. *)
Record Store : Type := mkStore {
  customers : list Customer.t;
  loans : list Loan.t;
  payments : list Payment.t
}.

(** The bodies of the two POST requests.  A field that is a string in the
    schema is a string here, empty when the request leaves it out; the
    numeric fields are arbitrary JSON scalars.  A payment request comes
    with the reading of the clock at which the handler serves it. *)
Module LoanBody.
Record t : Type := mk {
  customerId : string;
  amount : JsValue;
  interestRate : JsValue;
  term : JsValue
}.
End LoanBody.

Module PaymentRequest.
Record t : Type := mk {
  loanId : string;          (* req.params.loanId *)
  amount : JsValue;
  paymentType : string;
  paymentMethod : string;
  reference : option string;
  receivedAt : Z            (* Date.now() while the request is served *)
}.
End PaymentRequest.

(** A response: the HTTP status and the [message] of its JSON body, spelt
    in ASCII (the currency sign of two messages is left out). *)
Record Response : Type := Resp {
  code : nat;
  message : string
}.

(** The statistics of the dashboard. *)
Record Stats : Type := mkStats {
  totalCustomers : nat;
  totalLoans : nat;
  activeLoans : nat;
  paidOffLoans : nat;
  totalLoanAmount : Number;
  totalCollected : Number
}.

(** ** What the host provides

    The primitives of the JavaScript host that have no closed form over
    byte strings and rationals are kept abstract: the conversion of a
    String to a Number, the case mappings and [trim] of Unicode text, the
    length of a String in UTF-16 code units, and [Math.pow] of a positive
    base at an exponent that is not whole. *)

Class Host : Type := {
  StringToNumber : string -> Number;
  toUpperCase : string -> string;
  toLowerCase : string -> string;
  trim : string -> string;
  codeUnits : string -> nat;
  powFractional : Q -> Q -> Q
}.

Section Server.

Context {host : Host}.

(** [Math.pow base exponent], case by case as the language defines
    [Number::exponentiate]. *)
Definition Math_pow (base exponent : Number) : Number :=
  match exponent with
  | NaN => NaN
  | Finite e =>
      if Qeq_bool e 0 then Finite 1 else
      match base with
      | NaN => NaN
      | PosInf => if Qltb 0 e then PosInf else Finite 0
      | NegInf =>
          if Qltb 0 e
          then if isOddWhole e then NegInf else PosInf
          else Finite 0
      | Finite b =>
          if Qeq_bool b 0
          then if Qltb 0 e then Finite 0 else PosInf
          else if isWhole e then Finite (Qpower b (Qfloor e))
          else if Qltb b 0 then NaN
          else Finite (powFractional b e)
      end
  | PosInf =>
      match base with
      | NaN => NaN
      | PosInf => PosInf
      | NegInf => PosInf
      | Finite b =>
          if Qltb 1 (Qabs b) then PosInf
          else if Qeq_bool (Qabs b) 1 then NaN
          else Finite 0
      end
  | NegInf =>
      match base with
      | NaN => NaN
      | PosInf => Finite 0
      | NegInf => Finite 0
      | Finite b =>
          if Qltb 1 (Qabs b) then Finite 0
          else if Qeq_bool (Qabs b) 1 then NaN
          else PosInf
      end
  end.

(** ** The amortization calculator *)

(** [calculateMonthlyPayment(principal, annualRate, termMonths)].  The body
    of the [try] is arithmetic on Numbers, which never throws. *)
Definition calculateMonthlyPayment (principal annualRate termMonths : Number)
  : Completion Number :=
  tryCatch
    (let monthlyRate := ndiv (ndiv annualRate (num 100)) (num 12) in
     if nstricteq monthlyRate (num 0)
     then Return (ndiv (Math_round (nmul (ndiv principal termMonths) (num 100)))
                       (num 100))
     else
       let payment :=
         ndiv (nmul principal
                    (nmul monthlyRate
                          (Math_pow (nadd (num 1) monthlyRate) termMonths)))
              (nsub (Math_pow (nadd (num 1) monthlyRate) termMonths) (num 1)) in
       Return (ndiv (Math_round (nmul payment (num 100))) (num 100)))
    (fun _ => Throw "Failed to calculate monthly payment").

(** ** Coercions *)

(** [Number(v)]. *)
Definition ToNumber (v : JsValue) : Number :=
  match v with
  | JUndefined => NaN
  | JNull => num 0
  | JBool true => num 1
  | JBool false => num 0
  | JNum n => n
  | JStr s => StringToNumber s
  end.

(** The global [isNaN(v)]. *)
Definition global_isNaN (v : JsValue) : bool := isNaN (ToNumber v).

(** ** Schema validation *)

Definition inEnum (s : string) (values : list string) : bool :=
  existsb (String.eqb s) values.

(** [loanSchema]: required fields, [min] and [max]; a NaN fails the cast. *)
Definition Loan_validate (l : Loan.t) : bool :=
  nonEmpty (Loan.loanId l)
  && nonEmpty (Loan.customerId l)
  && nge (Loan.amount l) (num 1000)
  && nle (Loan.amount l) (num 100000000)
  && nge (Loan.interestRate l) (Finite (1 # 10))
  && nle (Loan.interestRate l) (num 50)
  && nge (Loan.term l) (num 1)
  && nle (Loan.term l) (num 360)
  && nge (Loan.monthlyPayment l) (num 1)
  && nge (Loan.totalAmount l) (num 1)
  && nge (Loan.remainingBalance l) (num 0).

(** [paymentSchema]. *)
Definition Payment_validate (p : Payment.t) : bool :=
  nonEmpty (Payment.paymentId p)
  && nonEmpty (Payment.loanId p)
  && nge (Payment.amount p) (num 1)
  && inEnum (Payment.paymentType p) ["EMI"; "LUMP_SUM"]
  && inEnum (Payment.paymentMethod p)
       ["cash"; "check"; "bank_transfer"; "credit_card"; "debit_card"]
  && match Payment.reference p with
     | None => true
     | Some r => Nat.leb (codeUnits r) 100
     end.

(** ** The collections *)

(** [Loan.findOne({ loanId })]. *)
Definition Loan_findOne (s : Store) (id : string) : option Loan.t :=
  find (fun l => String.eqb (Loan.loanId l) id) (loans s).

(** [Customer.findOne({ customerId })]. *)
Definition Customer_findOne (s : Store) (id : string) : option Customer.t :=
  find (fun c => String.eqb (Customer.customerId c) id) (customers s).

(** The document that [findOne] returned, written back. *)
Fixpoint replaceFirst (id : string) (l' : Loan.t) (ls : list Loan.t)
  : list Loan.t :=
  match ls with
  | [] => []
  | l :: rest =>
      if String.eqb (Loan.loanId l) id then l' :: rest
      else l :: replaceFirst id l' rest
  end.

(** [loan.save()] of a new document: validation, then the insertion, which
    the unique index on [loanId] refuses for an identifier already there. *)
Definition Loan_insert (s : Store) (l : Loan.t) : Completion Store :=
  if negb (Loan_validate l) then Throw "Loan validation failed"
  else if existsb (fun x => String.eqb (Loan.loanId x) (Loan.loanId l)) (loans s)
  then Throw "E11000 duplicate key error"
  else Return (mkStore (customers s) (loans s ++ [l]) (payments s)).

(** [loan.save()] of a document read by [findOne]. *)
Definition Loan_save (s : Store) (id : string) (l : Loan.t) : Completion Store :=
  if negb (Loan_validate l) then Throw "Loan validation failed"
  else Return (mkStore (customers s) (replaceFirst id l (loans s)) (payments s)).

(** [payment.save()]. *)
Definition Payment_save (s : Store) (p : Payment.t) : Completion Store :=
  if negb (Payment_validate p) then Throw "Payment validation failed"
  else if existsb (fun x => String.eqb (Payment.paymentId x) (Payment.paymentId p))
            (payments s)
  then Throw "E11000 duplicate key error"
  else Return (mkStore (customers s) (loans s) (payments s ++ [p])).

(** ** POST /api/v1/loans *)

(** The two lines that compute the loan details. *)
Definition loanDetails (amount interestRate term : Number)
  : Completion (Number * Number) :=
  bind (calculateMonthlyPayment amount interestRate term) (fun monthlyPayment =>
  let totalAmount :=
    ndiv (Math_round (nmul (nmul monthlyPayment term) (num 100))) (num 100) in
  Return (monthlyPayment, totalAmount)).

(** The handler; [newLoanId] is the identifier the schema default draws. *)
Definition createLoan (newLoanId : string) (s : Store) (body : LoanBody.t)
  : Response * Store :=
  let customerId := LoanBody.customerId body in
  let amount := LoanBody.amount body in
  let interestRate := LoanBody.interestRate body in
  let term := LoanBody.term body in
  if negb (nonEmpty customerId) || negb (truthy amount)
     || negb (truthy interestRate) || negb (truthy term)
  then (Resp 400 "All fields (customerId, amount, interestRate, term) are required", s)
  else if global_isNaN amount || global_isNaN interestRate || global_isNaN term
  then (Resp 400 "Amount, interest rate, and term must be valid numbers", s)
  else if nlt (ToNumber amount) (num 1000)
  then (Resp 400 "Minimum loan amount is 1,000", s)
  else
    match Customer_findOne s customerId with
    | None => (Resp 404 "Customer not found", s)
    | Some _ =>
        match
          bind (loanDetails (ToNumber amount) (ToNumber interestRate) (ToNumber term))
            (fun '(monthlyPayment, totalAmount) =>
               Loan_insert s
                 (Loan.mk newLoanId customerId (ToNumber amount)
                    (ToNumber interestRate) (ToNumber term) ACTIVE
                    monthlyPayment totalAmount totalAmount))
        with
        | Return s' => (Resp 201 "Loan created successfully", s')
        | Throw _ => (Resp 400 "Failed to create loan", s)
        end
    end.

(** ** POST /api/v1/loans/:loanId/payments *)

(** [new Payment({...})]: the schema trims [reference], and the default of
    [paymentDate] reads the clock, which shows [now]. *)
Definition newPayment (newPaymentId loanId : string) (amount : Number)
    (paymentType paymentMethod : string) (reference : option string)
    (now : Z) : Payment.t :=
  Payment.mk newPaymentId loanId amount now paymentType paymentMethod completed
    (option_map trim reference).

(** The update of the balance and of the status. *)
Definition applyPayment (loan : Loan.t) (amount : Number) : Loan.t :=
  let newBalance :=
    ndiv (Math_round (nmul (nsub (Loan.remainingBalance loan) amount) (num 100)))
         (num 100) in
  if nle newBalance (num 0)
  then Loan.mk (Loan.loanId loan) (Loan.customerId loan) (Loan.amount loan)
         (Loan.interestRate loan) (Loan.term loan) PAID_OFF
         (Loan.monthlyPayment loan) (Loan.totalAmount loan) (num 0)
  else Loan.mk (Loan.loanId loan) (Loan.customerId loan) (Loan.amount loan)
         (Loan.interestRate loan) (Loan.term loan) (Loan.status loan)
         (Loan.monthlyPayment loan) (Loan.totalAmount loan) newBalance.

(** The payment record the handler builds from the request. *)
Definition paymentOf (newPaymentId : string) (req : PaymentRequest.t)
  : Payment.t :=
  newPayment newPaymentId (PaymentRequest.loanId req)
    (ToNumber (PaymentRequest.amount req))
    (toUpperCase (PaymentRequest.paymentType req))
    (toLowerCase (PaymentRequest.paymentMethod req))
    (match PaymentRequest.reference req with
     | Some r => if nonEmpty r then Some (trim r) else None
     | None => None
     end)
    (PaymentRequest.receivedAt req).

(** The handler; [newPaymentId] is the identifier the schema default draws.
    The payment is saved before the loan is.  The message of an overpayment
    is given without the two amounts it quotes. *)
Definition postPayment (newPaymentId : string) (s : Store)
    (req : PaymentRequest.t) : Response * Store :=
  let loanId := PaymentRequest.loanId req in
  let amount := PaymentRequest.amount req in
  let paymentType := PaymentRequest.paymentType req in
  let paymentMethod := PaymentRequest.paymentMethod req in
  if negb (nonEmpty loanId) || negb (truthy amount)
     || negb (nonEmpty paymentType) || negb (nonEmpty paymentMethod)
  then (Resp 400 "Loan ID, amount, payment type, and payment method are required", s)
  else if global_isNaN amount || nle (ToNumber amount) (num 0)
  then (Resp 400 "Payment amount must be a positive number", s)
  else
    match Loan_findOne s loanId with
    | None => (Resp 404 "Loan not found", s)
    | Some loan =>
        if LoanStatus_eqb (Loan.status loan) PAID_OFF
        then (Resp 400 "Cannot add payment to a loan that is already paid off", s)
        else if ngt (ToNumber amount) (Loan.remainingBalance loan)
        then (Resp 400 "Payment amount exceeds remaining balance", s)
        else
          match Payment_save s (paymentOf newPaymentId req) with
          | Throw _ => (Resp 400 "Failed to record payment", s)
          | Return s1 =>
              match Loan_save s1 loanId (applyPayment loan (ToNumber amount)) with
              | Throw _ => (Resp 400 "Failed to record payment", s1)
              | Return s2 => (Resp 201 "Payment recorded successfully", s2)
              end
          end
    end.

(** ** GET /api/v1/dashboard *)

(** [{ $group: { _id: null, total: { $sum: ... } } }]: no group for an empty
    input, one group with the sum otherwise. *)
Definition groupSum (xs : list Number) : list Number :=
  match xs with
  | [] => []
  | _ => [fold_left nadd xs (num 0)]
  end.

(** [groups[0]?.total || 0]. *)
Definition totalOrZero (groups : list Number) : Number :=
  match groups with
  | [] => num 0
  | t :: _ => if truthy (JNum t) then t else num 0
  end.

Definition countDocuments {A} (p : A -> bool) (docs : list A) : nat :=
  List.length (filter p docs).

Definition dashboard (s : Store) : Stats :=
  mkStats
    (countDocuments (fun _ => true) (customers s))
    (countDocuments (fun _ => true) (loans s))
    (countDocuments (fun l => LoanStatus_eqb (Loan.status l) ACTIVE) (loans s))
    (countDocuments (fun l => LoanStatus_eqb (Loan.status l) PAID_OFF) (loans s))
    (totalOrZero (groupSum (map Loan.amount (loans s))))
    (totalOrZero
       (groupSum
          (map Payment.amount
             (filter (fun p => PaymentStatus_eqb (Payment.status p) completed)
                (payments s))))).

(** ** GET /api/v1/loans/:loanId *)

(** The loan and the customer document the response copies name, email,
    phone and address from ([null] when there is none).  A response of
    status 200 carries no message. *)
Definition getLoan (s : Store) (loanId : string)
  : Response * option (Loan.t * option Customer.t) :=
  if negb (nonEmpty loanId) then (Resp 400 "Loan ID is required", None)
  else
    match Loan_findOne s loanId with
    | None => (Resp 404 "Loan not found", None)
    | Some loan =>
        (Resp 200 "", Some (loan, Customer_findOne s (Loan.customerId loan)))
    end.

(** ** GET /api/v1/loans/:loanId/payments *)

(** [Payment.find({ loanId })], in insertion order. *)
Definition Payment_find (s : Store) (loanId : string) : list Payment.t :=
  filter (fun p => String.eqb (Payment.loanId p) loanId) (payments s).

(** [.sort({ paymentDate: -1 })]: the latest payment first.  Documents of
    the same date are left in the order they had, where the database
    promises no order at all. *)
Fixpoint insertByDate (p : Payment.t) (sorted : list Payment.t)
  : list Payment.t :=
  match sorted with
  | [] => [p]
  | q :: rest =>
      if (Payment.paymentDate p <? Payment.paymentDate q)%Z
      then q :: insertByDate p rest
      else p :: q :: rest
  end.

Definition sortByDateDescending (ps : list Payment.t) : list Payment.t :=
  fold_right insertByDate [] ps.

(** The handler answers with the payments of the loan, the latest first,
    and their count. *)
Definition getLoanPayments (s : Store) (loanId : string)
  : Response * list Payment.t * nat :=
  if negb (nonEmpty loanId) then (Resp 400 "Loan ID is required", [], 0%nat)
  else
    match Loan_findOne s loanId with
    | None => (Resp 404 "Loan not found", [], 0%nat)
    | Some _ =>
        let payments := sortByDateDescending (Payment_find s loanId) in
        (Resp 200 "", payments, List.length payments)
    end.

(** ** POST /api/v1/database/clear *)

(** The [collections] field of the body: an array, or anything else. *)
Inductive CollectionsField : Type :=
| NotAnArray (v : JsValue)
| AnArray (items : list JsValue).

(** [items.includes(name)] for a string [name]. *)
Definition includesString (items : list JsValue) (name : string) : bool :=
  existsb (fun v => match v with JStr t => String.eqb t name | _ => false end)
    items.

(** The [deletedCount] of each collection that was cleared. *)
Record ClearResults : Type := mkClearResults {
  customersDeleted : option nat;
  loansDeleted : option nat;
  paymentsDeleted : option nat
}.

Definition clearDatabase (collections : CollectionsField) (s : Store)
  : Response * ClearResults * Store :=
  match collections with
  | NotAnArray _ =>
      (Resp 400 "Please specify collections to clear",
       mkClearResults None None None, s)
  | AnArray items =>
      let clearC := includesString items "customers" in
      let clearL := includesString items "loans" in
      let clearP := includesString items "payments" in
      (Resp 200 "Collections cleared successfully",
       mkClearResults
         (if clearC then Some (List.length (customers s)) else None)
         (if clearL then Some (List.length (loans s)) else None)
         (if clearP then Some (List.length (payments s)) else None),
       mkStore (if clearC then [] else customers s)
               (if clearL then [] else loans s)
               (if clearP then [] else payments s))
  end.

(** ** POST /api/v1/database/seed: the sample loans *)

Definition sampleLoans (id0 id1 id2 c0 c1 c2 : string) : list Loan.t :=
  [ Loan.mk id0 c0 (num 500000) (Finite (85 # 10)) (num 60) ACTIVE
      (Finite (1025827 # 100)) (Finite (6154962 # 10)) (Finite (6154962 # 10));
    Loan.mk id1 c1 (num 1000000) (num 9) (num 84) ACTIVE
      (Finite (1520345 # 100)) (Finite (12770898 # 10)) (Finite (12770898 # 10));
    Loan.mk id2 c2 (num 250000) (Finite (75 # 10)) (num 36) ACTIVE
      (Finite (782832 # 100)) (Finite (28181952 # 100)) (Finite (28181952 # 100)) ].

(** ** The words of the specification, for comparison *)

(** A rational rounded to two decimals, half up. *)
Definition round2 (q : Q) : Q :=
  inject_Z (Qfloor (q * 100 + (1 # 2))) / 100.

(** The monthly rate of an annual rate in percent. *)
Definition monthlyRateOf (r : Q) : Q := r / 100 / 12.

(** The fixed payment of an annuity: P m (1+m)^n / ((1+m)^n - 1). *)
Definition annuity (P m : Q) (n : Z) : Q :=
  P * m * (1 + m) ^ n / ((1 + m) ^ n - 1).

(** A Number on the grid of two decimals: a whole number of hundredths. *)
Definition onGrid (a : Number) : Prop :=
  exists q z, a = Finite q /\ q * 100 == inject_Z z.

(** Plain sums, as the specification words the dashboard. *)
Definition sumOf (xs : list Number) : Number := fold_left nadd xs (num 0).

(** The invariant of the ledger of one loan, whose total amount is [total]:
    the document is valid, the total is the one fixed at creation, the
    balance does not exceed it, and the loan is paid off exactly when the
    balance is zero. *)
Definition ledgerInv (total : Number) (l : Loan.t) : Prop :=
  Loan_validate l = true
  /\ Loan.totalAmount l = total
  /\ nle (Loan.remainingBalance l) total = true
  /\ (Loan.status l = PAID_OFF <-> Loan.remainingBalance l =n= num 0).

(** The stores a sequence of payment requests leads to. *)
Inductive PaymentRun : Store -> Store -> Prop :=
| run_done (s : Store) : PaymentRun s s
| run_step (s s1 s2 : Store) (newPaymentId : string) (req : PaymentRequest.t)
    (resp : Response) :
    PaymentRun s s1 ->
    postPayment newPaymentId s1 req = (resp, s2) ->
    PaymentRun s s2.

(** The three ways the handler ends: rejected with the store as it was;
    accepted with the payment appended and the loan written back; or the
    payment appended and the save of the loan refused. *)
Inductive PaymentOutcome (pid : string) (s : Store) (req : PaymentRequest.t)
  : Response -> Store -> Prop :=
| rejected (resp : Response) :
    code resp <> 201%nat ->
    PaymentOutcome pid s req resp s
| accepted (loan : Loan.t) :
    Loan_findOne s (PaymentRequest.loanId req) = Some loan ->
    Loan.status loan = ACTIVE ->
    isNaN (ToNumber (PaymentRequest.amount req)) = false ->
    nle (ToNumber (PaymentRequest.amount req)) (num 0) = false ->
    ngt (ToNumber (PaymentRequest.amount req)) (Loan.remainingBalance loan) = false ->
    Payment_validate (paymentOf pid req) = true ->
    Loan_validate (applyPayment loan (ToNumber (PaymentRequest.amount req))) = true ->
    PaymentOutcome pid s req
      (Resp 201 "Payment recorded successfully")
      (mkStore (customers s)
         (replaceFirst (PaymentRequest.loanId req)
            (applyPayment loan (ToNumber (PaymentRequest.amount req))) (loans s))
         (payments s ++ [paymentOf pid req]))
| loanRefused (loan : Loan.t) :
    Loan_findOne s (PaymentRequest.loanId req) = Some loan ->
    Loan.status loan = ACTIVE ->
    ngt (ToNumber (PaymentRequest.amount req)) (Loan.remainingBalance loan) = false ->
    Payment_validate (paymentOf pid req) = true ->
    Loan_validate (applyPayment loan (ToNumber (PaymentRequest.amount req))) = false ->
    PaymentOutcome pid s req
      (Resp 400 "Failed to record payment")
      (mkStore (customers s) (loans s) (payments s ++ [paymentOf pid req])).

(** The monetary fields of a loan are on the grid of two decimals. *)
Definition loanOnGrid (l : Loan.t) : Prop :=
  onGrid (Loan.monthlyPayment l)
  /\ onGrid (Loan.totalAmount l)
  /\ onGrid (Loan.remainingBalance l).

(** A term that counts whole months; a term that is not a finite number
    never passes the schema. *)
Definition wholeMonths (term : Number) : bool :=
  match term with
  | Finite t => isWhole t
  | _ => true
  end.

(** The stores that loan creations with whole terms and payment requests
    lead to, from a store without loans. *)
Inductive LedgerHistory : Store -> Prop :=
| history_start (s : Store) :
    loans s = [] -> LedgerHistory s
| history_create (s s' : Store) (newLoanId : string) (body : LoanBody.t)
    (resp : Response) :
    LedgerHistory s ->
    wholeMonths (ToNumber (LoanBody.term body)) = true ->
    createLoan newLoanId s body = (resp, s') ->
    LedgerHistory s'
| history_pay (s s' : Store) (newPaymentId : string) (req : PaymentRequest.t)
    (resp : Response) :
    LedgerHistory s ->
    postPayment newPaymentId s req = (resp, s') ->
    LedgerHistory s'.

(** The total of the payments recorded for a loan. *)
Definition paidTo (s : Store) (loanId : string) : Number :=
  sumOf (map Payment.amount (Payment_find s loanId)).

(** The identifiers the unique indexes keep apart. *)
Definition uniqueIds (s : Store) : Prop :=
  NoDup (map Loan.loanId (loans s))
  /\ NoDup (map Payment.paymentId (payments s)).

(** A request whose amount, when it is a finite number, is a whole number
    of hundredths. *)
Definition centAmount (req : PaymentRequest.t) : Prop :=
  forall x, ToNumber (PaymentRequest.amount req) = Finite x ->
            exists w, x * 100 == inject_Z w.

(** The books of a loan balance: what remains and what was paid add up to
    the total amount. *)
Definition booksBalance (s : Store) (l : Loan.t) : Prop :=
  exists b paid T,
    Loan.remainingBalance l = Finite b
    /\ paidTo s (Loan.loanId l) = Finite paid
    /\ Loan.totalAmount l = Finite T
    /\ b + paid == T.

(** The stores reached from the empty database by loan creations with whole
    terms and by payment requests with amounts in whole hundredths. *)
Inductive CentHistory : Store -> Prop :=
| cents_start (s : Store) :
    loans s = [] -> payments s = [] -> CentHistory s
| cents_create (s s' : Store) (newLoanId : string) (body : LoanBody.t)
    (resp : Response) :
    CentHistory s ->
    wholeMonths (ToNumber (LoanBody.term body)) = true ->
    createLoan newLoanId s body = (resp, s') ->
    CentHistory s'
| cents_pay (s s' : Store) (newPaymentId : string) (req : PaymentRequest.t)
    (resp : Response) :
    CentHistory s ->
    centAmount req ->
    postPayment newPaymentId s req = (resp, s') ->
    CentHistory s'.

(** Every document of the store passed the validation of its schema. *)
Definition validStore (s : Store) : Prop :=
  Forall (fun l => Loan_validate l = true) (loans s)
  /\ Forall (fun p => Payment_validate p = true) (payments s).

(** What the books need of a store: valid documents, loans in whole
    hundredths, no payment without its loan, and balanced books. *)
Definition booksInv (s : Store) : Prop :=
  validStore s
  /\ Forall loanOnGrid (loans s)
  /\ (forall p, In p (payments s) -> Loan_findOne s (Payment.loanId p) <> None)
  /\ (forall id l, Loan_findOne s id = Some l -> booksBalance s l).

End Server.

(** ** The binary64 reading of the arithmetic *)

Definition pow2 (e : Z) : Q := 2 ^ e.

(** The exponent of a positive rational: the floor of its logarithm in
    base 2. *)
Definition ilog2 (q : Q) : Z :=
  let e := (Z.log2 (Qnum q) - Z.log2 (Zpos (Qden q)))%Z in
  if Qle_bool (pow2 e) q then e else (e - 1)%Z.

(** The closest integer, ties to the even one. *)
Definition roundHalfEven (q : Q) : Z :=
  let f := Qfloor q in
  match Qcompare (q - inject_Z f) (1 # 2) with
  | Lt => f
  | Gt => (f + 1)%Z
  | Eq => if Z.even f then f else (f + 1)%Z
  end.

(** The binary64 value closest to a rational, ties to the even significand:
    53 bits of significand above the exponent -1074 of the subnormal
    numbers, and an infinity from 2^1024 on. *)
Definition round64 (q : Q) : Number :=
  if Qeq_bool q 0 then Finite 0
  else
    let e := Z.max (ilog2 (Qabs q) - 52) (-1074) in
    let v := inject_Z (roundHalfEven (Qabs q / pow2 e)) * pow2 e in
    if Qle_bool (pow2 1024) v then signedInf q
    else Finite (Qred (if Qltb q 0 then - v else v)).

(** An operation of binary64 is the exact operation followed by the
    rounding of a finite result. *)
Definition fl (a : Number) : Number :=
  match a with
  | Finite q => round64 q
  | _ => a
  end.

Definition fadd (a b : Number) : Number := fl (nadd a b).
Definition fsub (a b : Number) : Number := fl (nsub a b).
Definition fmul (a b : Number) : Number := fl (nmul a b).
Definition fdiv (a b : Number) : Number := fl (ndiv a b).

(** What the host computes only approximately: [Math.pow] of a finite base
    other than zero at a finite exponent other than zero. *)
Class Approximations : Type := {
  approxPow : Q -> Q -> Number
}.

Section Binary64.

Context {host : Host} {approx : Approximations}.

(** [Math.pow] in binary64: the cases the language fixes are those of
    [Math_pow]; elsewhere the result is the approximation of the host. *)
Definition Math_pow64 (base exponent : Number) : Number :=
  match base, exponent with
  | Finite b, Finite e =>
      if Qeq_bool e 0 || Qeq_bool b 0 || (Qltb b 0 && negb (isWhole e))
      then Math_pow base exponent
      else approxPow b e
  | _, _ => Math_pow base exponent
  end.

(** [calculateMonthlyPayment] with every operation rounded. *)
Definition calculateMonthlyPayment64 (principal annualRate termMonths : Number)
  : Completion Number :=
  tryCatch
    (let monthlyRate := fdiv (fdiv annualRate (num 100)) (num 12) in
     if nstricteq monthlyRate (num 0)
     then Return (fdiv (Math_round (fmul (fdiv principal termMonths) (num 100)))
                       (num 100))
     else
       let payment :=
         fdiv (fmul principal
                    (fmul monthlyRate
                          (Math_pow64 (fadd (num 1) monthlyRate) termMonths)))
              (fsub (Math_pow64 (fadd (num 1) monthlyRate) termMonths) (num 1)) in
       Return (fdiv (Math_round (fmul payment (num 100))) (num 100)))
    (fun _ => Throw "Failed to calculate monthly payment").

(** The two lines of [POST /api/v1/loans] that compute the loan details. *)
Definition loanDetails64 (amount interestRate term : Number)
  : Completion (Number * Number) :=
  bind (calculateMonthlyPayment64 amount interestRate term) (fun monthlyPayment =>
  let totalAmount :=
    fdiv (Math_round (fmul (fmul monthlyPayment term) (num 100))) (num 100) in
  Return (monthlyPayment, totalAmount)).

(** The update of the balance and of the status. *)
Definition applyPayment64 (loan : Loan.t) (amount : Number) : Loan.t :=
  let newBalance :=
    fdiv (Math_round (fmul (fsub (Loan.remainingBalance loan) amount) (num 100)))
         (num 100) in
  if nle newBalance (num 0)
  then Loan.mk (Loan.loanId loan) (Loan.customerId loan) (Loan.amount loan)
         (Loan.interestRate loan) (Loan.term loan) PAID_OFF
         (Loan.monthlyPayment loan) (Loan.totalAmount loan) (num 0)
  else Loan.mk (Loan.loanId loan) (Loan.customerId loan) (Loan.amount loan)
         (Loan.interestRate loan) (Loan.term loan) (Loan.status loan)
         (Loan.monthlyPayment loan) (Loan.totalAmount loan) newBalance.

(** [POST /api/v1/loans/:loanId/payments] with the balance updated in
    binary64; the comparisons of the handler are exact in either reading. *)
Definition postPayment64 (newPaymentId : string) (s : Store)
    (req : PaymentRequest.t) : Response * Store :=
  let loanId := PaymentRequest.loanId req in
  let amount := PaymentRequest.amount req in
  let paymentType := PaymentRequest.paymentType req in
  let paymentMethod := PaymentRequest.paymentMethod req in
  if negb (nonEmpty loanId) || negb (truthy amount)
     || negb (nonEmpty paymentType) || negb (nonEmpty paymentMethod)
  then (Resp 400 "Loan ID, amount, payment type, and payment method are required", s)
  else if global_isNaN amount || nle (ToNumber amount) (num 0)
  then (Resp 400 "Payment amount must be a positive number", s)
  else
    match Loan_findOne s loanId with
    | None => (Resp 404 "Loan not found", s)
    | Some loan =>
        if LoanStatus_eqb (Loan.status loan) PAID_OFF
        then (Resp 400 "Cannot add payment to a loan that is already paid off", s)
        else if ngt (ToNumber amount) (Loan.remainingBalance loan)
        then (Resp 400 "Payment amount exceeds remaining balance", s)
        else
          match Payment_save s (paymentOf newPaymentId req) with
          | Throw _ => (Resp 400 "Failed to record payment", s)
          | Return s1 =>
              match Loan_save s1 loanId (applyPayment64 loan (ToNumber amount)) with
              | Throw _ => (Resp 400 "Failed to record payment", s1)
              | Return s2 => (Resp 201 "Payment recorded successfully", s2)
              end
          end
    end.

(** The accuracy asked of [Math.pow] where the calculator calls it: within
    one unit in the last place, a relative error of at most 2^-52. *)
Definition powAccurate : Prop :=
  forall (b : Q) (n : Z),
    1 <= b -> b <= 2 -> (1 <= n <= 360)%Z ->
    exists w, approxPow b (inject_Z n) = Finite w
              /\ Qabs (w - b ^ n) <= pow2 (-52) * b ^ n.

End Binary64.

(** [a] approximates the positive quantity [b] with a relative error of at
    most [e]. *)
Definition close (e a b : Q) : Prop :=
  (1 - e) * b <= a /\ a <= (1 + e) * b.

(** Half a unit in the last place of 1: the relative error of one rounding. *)
Definition u53 : Q := pow2 (-53).

(** ** The browser side

    [LoanForm] previews the payment, validates the form and submits it;
    [LoanDetails] shows the progress of a loan.  The two parsers of the
    browser are kept abstract like the primitives of the host. *)

Class Browser : Type := {
  parseFloat : string -> Number;
  parseInt : string -> Number
}.

Module LoanFormData.
Record t : Type := mk {
  customerId : string;
  amount : string;
  interestRate : string;
  term : string
}.
End LoanFormData.

Module Preview.
Record t : Type := mk {
  monthlyPayment : Number;
  totalAmount : Number;
  totalInterest : Number
}.
End Preview.

Section Client.

Context {host : Host} {browser : Browser}.

(** [calculatePayment] of [LoanForm]: the state it sets, [None] for null. *)
Definition calculatePayment (form : LoanFormData.t) : option Preview.t :=
  let principal := parseFloat (LoanFormData.amount form) in
  let annualRate := parseFloat (LoanFormData.interestRate form) in
  let termMonths := parseInt (LoanFormData.term form) in
  if isNaN principal || isNaN annualRate || isNaN termMonths then None
  else
    let monthlyRate := ndiv (ndiv annualRate (num 100)) (num 12) in
    let monthlyPayment :=
      if nstricteq monthlyRate (num 0) then ndiv principal termMonths
      else ndiv (nmul principal
                      (nmul monthlyRate
                            (Math_pow (nadd (num 1) monthlyRate) termMonths)))
                (nsub (Math_pow (nadd (num 1) monthlyRate) termMonths) (num 1)) in
    let totalAmount := nmul monthlyPayment termMonths in
    Some (Preview.mk
            (ndiv (Math_round (nmul monthlyPayment (num 100))) (num 100))
            (ndiv (Math_round (nmul totalAmount (num 100))) (num 100))
            (ndiv (Math_round (nmul (nsub totalAmount principal) (num 100)))
                  (num 100))).

(** The effect that keeps the preview: it is computed once the three fields
    are filled in. *)
Definition preview (form : LoanFormData.t) : option Preview.t :=
  if nonEmpty (LoanFormData.amount form)
     && nonEmpty (LoanFormData.interestRate form)
     && nonEmpty (LoanFormData.term form)
  then calculatePayment form
  else None.

(** The error [validateForm] records for each field, if any. *)
Definition customerError (form : LoanFormData.t) : option string :=
  if negb (nonEmpty (LoanFormData.customerId form))
  then Some "Please select a customer" else None.

Definition amountError (form : LoanFormData.t) : option string :=
  if negb (nonEmpty (LoanFormData.amount form))
  then Some "Loan amount is required"
  else
    let amount := parseFloat (LoanFormData.amount form) in
    if isNaN amount || nle amount (num 0)
    then Some "Amount must be a positive number"
    else if nlt amount (num 1000) then Some "Minimum loan amount is 1,000"
    else if ngt amount (num 100000000)
    then Some "Maximum loan amount is 10,00,00,000"
    else None.

Definition rateError (form : LoanFormData.t) : option string :=
  if negb (nonEmpty (LoanFormData.interestRate form))
  then Some "Interest rate is required"
  else
    let rate := parseFloat (LoanFormData.interestRate form) in
    if isNaN rate || nle rate (num 0)
    then Some "Interest rate must be a positive number"
    else if nlt rate (Finite (1 # 10)) then Some "Minimum interest rate is 0.1%"
    else if ngt rate (num 50) then Some "Maximum interest rate is 50%"
    else None.

Definition termError (form : LoanFormData.t) : option string :=
  if negb (nonEmpty (LoanFormData.term form))
  then Some "Loan term is required"
  else
    let term := parseInt (LoanFormData.term form) in
    if isNaN term || nle term (num 0)
    then Some "Term must be a positive number"
    else if nlt term (num 1) then Some "Minimum term is 1 month"
    else if ngt term (num 360) then Some "Maximum term is 360 months"
    else None.

Definition isNone {A} (o : option A) : bool :=
  match o with None => true | Some _ => false end.

(** [validateForm]: no error was recorded. *)
Definition validateForm (form : LoanFormData.t) : bool :=
  isNone (customerError form) && isNone (amountError form)
  && isNone (rateError form) && isNone (termError form).

(** A Number through [JSON.stringify] and the JSON parser of the server. *)
Definition jsonNumber (a : Number) : JsValue :=
  if isFinite a then JNum a else JNull.

(** [handleSubmit]: the body sent to [POST /api/v1/loans], if any. *)
Definition handleSubmit (form : LoanFormData.t) : option LoanBody.t :=
  if negb (validateForm form) then None
  else Some (LoanBody.mk (LoanFormData.customerId form)
               (jsonNumber (parseFloat (LoanFormData.amount form)))
               (jsonNumber (parseFloat (LoanFormData.interestRate form)))
               (jsonNumber (parseInt (LoanFormData.term form)))).

(** [calculateProgress] of [LoanDetails]: the percentage repaid. *)
Definition calculateProgress (loan : option Loan.t) : Number :=
  match loan with
  | None => num 0
  | Some l =>
      if negb (truthy (JNum (Loan.totalAmount l)))
         || nstricteq (Loan.totalAmount l) (num 0)
      then num 0
      else
        let paid := nsub (Loan.totalAmount l) (Loan.remainingBalance l) in
        Math_round (nmul (ndiv paid (Loan.totalAmount l)) (num 100))
  end.

End Client.

(** ** A host for the examples

    ASCII text only: the case mappings act on the 26 letters, [trim] removes
    spaces, a String made of decimal digits converts to its value (the empty
    String to 0) and every other String to NaN.  On such inputs it agrees
    with the JavaScript host; the examples use no others, and no fractional
    exponent. *)

Definition asciiUpper (c : ascii) : ascii :=
  let n := nat_of_ascii c in
  if (Nat.leb 97 n && Nat.leb n 122)%bool then ascii_of_nat (n - 32) else c.

Definition asciiLower (c : ascii) : ascii :=
  let n := nat_of_ascii c in
  if (Nat.leb 65 n && Nat.leb n 90)%bool then ascii_of_nat (n + 32) else c.

Fixpoint mapString (f : ascii -> ascii) (s : string) : string :=
  match s with
  | EmptyString => EmptyString
  | String c rest => String (f c) (mapString f rest)
  end.

Fixpoint trimLeft (s : string) : string :=
  match s with
  | String " "%char rest => trimLeft rest
  | _ => s
  end.

Fixpoint reverse (s acc : string) : string :=
  match s with
  | EmptyString => acc
  | String c rest => reverse rest (String c acc)
  end.

Definition asciiTrim (s : string) : string :=
  reverse (trimLeft (reverse (trimLeft s) EmptyString)) EmptyString.

Fixpoint digitsValue (s : string) (acc : Z) : option Z :=
  match s with
  | EmptyString => Some acc
  | String c rest =>
      let n := nat_of_ascii c in
      if (Nat.leb 48 n && Nat.leb n 57)%bool
      then digitsValue rest (10 * acc + Z.of_nat (n - 48))
      else None
  end.

Definition digitsToNumber (s : string) : Number :=
  match digitsValue s 0 with
  | Some z => num z
  | None => NaN
  end.

Definition asciiHost : Host := {|
  StringToNumber := digitsToNumber;
  toUpperCase := mapString asciiUpper;
  toLowerCase := mapString asciiLower;
  trim := asciiTrim;
  codeUnits := String.length;
  powFractional := fun b _ => b
|}.

(** The parsers of the browser on strings of decimal digits. *)
Definition asciiBrowser : Browser := {|
  parseFloat := digitsToNumber;
  parseInt := digitsToNumber
|}.

(** ** A concrete ledger for the examples *)

Definition demoCustomer : Customer.t :=
  Customer.mk "CUST-0001" "Raj Patel" "raj.patel@example.com" "+91-9876543210"
    "Andheri West, Mumbai".

(** One customer, no loan yet. *)
Definition store0 : Store := mkStore [demoCustomer] [] [].

(** The first sample loan of the seed data, requested through the API. *)
Definition demoLoanBody : LoanBody.t :=
  LoanBody.mk "CUST-0001" (JNum (num 500000)) (JNum (Finite (85 # 10)))
    (JNum (num 60)).

Definition demoLoan : Loan.t :=
  Loan.mk "LOAN-0001" "CUST-0001" (num 500000) (Finite (85 # 10)) (num 60) ACTIVE
    (Finite (1025827 # 100)) (Finite (61549620 # 100)) (Finite (61549620 # 100)).

(** The store after the creation of that loan. *)
Definition store1 : Store := mkStore [demoCustomer] [demoLoan] [].

(** A lump sum that leaves 0.20 to pay. *)
Definition demoLumpSum : PaymentRequest.t :=
  PaymentRequest.mk "LOAN-0001" (JNum (num 615496)) "lump_sum" "Bank_Transfer"
    (Some " closing ") 1700000000000.

(** The store after the lump sum. *)
Definition store2 : Store :=
  mkStore [demoCustomer]
    [Loan.mk "LOAN-0001" "CUST-0001" (num 500000) (Finite (85 # 10)) (num 60)
       ACTIVE (Finite (1025827 # 100)) (Finite (61549620 # 100))
       (Finite (20 # 100))]
    [Payment.mk "PAY-0001" "LOAN-0001" (num 615496) 1700000000000 "LUMP_SUM"
       "bank_transfer" completed (Some "closing")].

(** The request for the 0.20 that remain. *)
Definition demoRemainder : PaymentRequest.t :=
  PaymentRequest.mk "LOAN-0001" (JNum (Finite (20 # 100))) "EMI" "cash" None
    1700000060000.

(** A payment above the balance of the demo loan. *)
Definition demoOverpayment : PaymentRequest.t :=
  PaymentRequest.mk "LOAN-0001" (JNum (num 700000)) "EMI" "cash" None
    1700000000000.

(** Half a rupee. *)
Definition demoHalf : PaymentRequest.t :=
  PaymentRequest.mk "LOAN-0001" (JNum (Finite (1 # 2))) "EMI" "cash" None
    1700000000000.

(** The whole balance of the demo loan in one payment. *)
Definition demoPayoff : PaymentRequest.t :=
  PaymentRequest.mk "LOAN-0001" (JNum (Finite (61549620 # 100))) "EMI" "cash" None
    1700000000000.

(** A request for a loan with a negative principal. *)
Definition negativeLoanBody : LoanBody.t :=
  LoanBody.mk "CUST-0001" (JNum (num (-1000))) (JNum (num 12)) (JNum (num 12)).

(** The demo loan paid off in one payment, and the store after it. *)
Definition paidLoan : Loan.t :=
  Loan.mk "LOAN-0001" "CUST-0001" (num 500000) (Finite (85 # 10)) (num 60)
    PAID_OFF (Finite (1025827 # 100)) (Finite (61549620 # 100)) (num 0).

Definition storePaid : Store :=
  mkStore [demoCustomer] [paidLoan]
    [Payment.mk "PAY-0001" "LOAN-0001" (Finite (61549620 # 100)) 1700000000000
       "EMI" "cash" completed None].





(** The loan form filled in for a loan of 500000 at 9% over 60 months. *)
Definition demoForm : LoanFormData.t :=
  LoanFormData.mk "CUST-0001" "500000" "9" "60".

(** A body that clears the loans and nothing else. *)
Definition clearLoansOnly : list JsValue := [JStr "loans"].

(** ** The binary64 reading on examples *)

(** A [Math.pow] that rounds the exact power, for whole exponents. *)
Definition roundedPow : Approximations := {|
  approxPow := fun b e => if isWhole e then round64 (b ^ Qfloor e) else NaN
|}.

(** The binary64 value a decimal literal denotes. *)
Definition literal (q : Q) : Q :=
  match round64 q with
  | Finite v => v
  | _ => q
  end.

(** The loan of 500000 at 8.5% over 60 months as the server stores it, a
    payment of 1.005 against it, and the store after that payment. *)
Definition demoLoan64 : Loan.t :=
  Loan.mk "LOAN-0001" "CUST-0001" (num 500000) (Finite (85 # 10)) (num 60) ACTIVE
    (Finite (literal (1025827 # 100))) (Finite (literal (61549620 # 100)))
    (Finite (literal (61549620 # 100))).

Definition store64 : Store := mkStore [demoCustomer] [demoLoan64] [].

Definition demoOddPayment : PaymentRequest.t :=
  PaymentRequest.mk "LOAN-0001" (JNum (Finite (literal (1005 # 1000)))) "EMI"
    "cash" None 1700000000000.

Definition store64Paid : Store :=
  mkStore [demoCustomer]
    [Loan.mk "LOAN-0001" "CUST-0001" (num 500000) (Finite (85 # 10)) (num 60) ACTIVE
       (Finite (literal (1025827 # 100))) (Finite (literal (61549620 # 100)))
       (Finite (literal (61549519 # 100)))]
    [Payment.mk "PAY-0001" "LOAN-0001" (Finite (literal (1005 # 1000)))
       1700000000000 "EMI" "cash" completed None].

(** * Properties *)

Section Properties.

Context {host : Host}.

(** ** Comparisons of rationals and of Numbers *)

Lemma Qltb_lt (x y : Q) : Qltb x y = true <-> x < y.
Proof.
  unfold Qltb. rewrite negb_true_iff.
  split; intro H.
  - apply Qnot_le_lt. intro Hle. apply Qle_bool_iff in Hle. congruence.
  - destruct (Qle_bool y x) eqn:E; [|reflexivity].
    apply Qle_bool_iff in E. exfalso. apply (Qlt_not_le _ _ H E).
Qed.

Lemma Qltb_ge (x y : Q) : Qltb x y = false <-> y <= x.
Proof.
  unfold Qltb. rewrite negb_false_iff. apply Qle_bool_iff.
Qed.

Lemma Qle_bool_gt (x y : Q) : Qle_bool x y = false <-> y < x.
Proof.
  rewrite <- Qltb_lt. unfold Qltb.
  destruct (Qle_bool x y); simpl; split; congruence.
Qed.

Lemma Qeq_bool_false (x y : Q) : Qeq_bool x y = false <-> ~ x == y.
Proof.
  split.
  - intros H E. apply Qeq_bool_iff in E. congruence.
  - intro H. destruct (Qeq_bool x y) eqn:E; [|reflexivity].
    apply Qeq_bool_iff in E. contradiction.
Qed.

(** Boolean tests on rationals, read as propositions. *)
Ltac qprop :=
  repeat match goal with
  | H : Qltb _ _ = true |- _ => apply Qltb_lt in H
  | H : Qltb _ _ = false |- _ => apply Qltb_ge in H
  | H : Qle_bool _ _ = true |- _ => apply Qle_bool_iff in H
  | H : Qle_bool _ _ = false |- _ => apply Qle_bool_gt in H
  | H : Qeq_bool _ _ = true |- _ => apply Qeq_bool_iff in H
  | H : Qeq_bool _ _ = false |- _ => apply Qeq_bool_false in H
  | |- Qltb _ _ = true => apply Qltb_lt
  | |- Qltb _ _ = false => apply Qltb_ge
  | |- Qle_bool _ _ = true => apply Qle_bool_iff
  | |- Qle_bool _ _ = false => apply Qle_bool_gt
  | |- Qeq_bool _ _ = true => apply Qeq_bool_iff
  | |- Qeq_bool _ _ = false => apply Qeq_bool_false
  end.

(** ** Rounding to the cent *)

Lemma Qfloor_half_lower (x : Q) : x - (1 # 2) < inject_Z (Qfloor (x + (1 # 2))).
Proof.
  pose proof (Qlt_floor (x + (1 # 2))) as H.
  rewrite inject_Z_plus in H. change (inject_Z 1) with 1 in H. lra.
Qed.

Lemma Qfloor_half_upper (x : Q) : inject_Z (Qfloor (x + (1 # 2))) <= x + (1 # 2).
Proof. apply Qfloor_le. Qed.

Lemma Qfloor_half_whole (z : Z) : Qfloor (inject_Z z + (1 # 2)) = z.
Proof.
  pose proof (Qfloor_half_lower (inject_Z z)) as Hl.
  pose proof (Qfloor_half_upper (inject_Z z)) as Hu.
  set (k := Qfloor (inject_Z z + (1 # 2))) in *.
  assert (inject_Z z - 1 < inject_Z k) as H1 by lra.
  assert (inject_Z k < inject_Z z + 1) as H2 by lra.
  change 1 with (inject_Z 1) in H1, H2.
  unfold Qminus in H1. rewrite <- inject_Z_opp, <- inject_Z_plus in H1.
  rewrite <- inject_Z_plus in H2.
  rewrite <- Zlt_Qlt in H1, H2. lia.
Qed.

Lemma round2_lower (q : Q) : q - (1 # 200) < round2 q.
Proof.
  unfold round2. pose proof (Qfloor_half_lower (q * 100)) as H.
  set (k := inject_Z (Qfloor (q * 100 + (1 # 2)))) in *.
  apply Qlt_shift_div_l; lra.
Qed.

Lemma round2_upper (q : Q) : round2 q <= q + (1 # 200).
Proof.
  unfold round2. pose proof (Qfloor_half_upper (q * 100)) as H.
  set (k := inject_Z (Qfloor (q * 100 + (1 # 2)))) in *.
  apply Qle_shift_div_r; lra.
Qed.

Lemma round2_comp (p q : Q) : p == q -> round2 p = round2 q.
Proof.
  intro E. unfold round2.
  assert (Qfloor (p * 100 + (1 # 2)) = Qfloor (q * 100 + (1 # 2))) as ->; [|reflexivity].
  apply Qfloor_comp. rewrite E. reflexivity.
Qed.

Lemma round2_grid (q : Q) : round2 q * 100 == inject_Z (Qfloor (q * 100 + (1 # 2))).
Proof. unfold round2. field. Qed.

(** What the code computes for [Math.round(x * 100) / 100]. *)
Lemma round_cents (q : Q) :
  ndiv (Math_round (nmul (Finite q) (num 100))) (num 100) = Finite (round2 q).
Proof. reflexivity. Qed.

(** ** Powers of the growth factor *)

Lemma Qpower_succ (x : Q) (k : nat) :
  ~ x == 0 -> x ^ Z.of_nat (S k) == x * x ^ Z.of_nat k.
Proof.
  intro Hx. rewrite Nat2Z.inj_succ. unfold Z.succ.
  rewrite Qpower_plus by assumption. simpl (x ^ 1). ring.
Qed.

Lemma inject_Z_succ (k : nat) :
  inject_Z (Z.of_nat (S k)) == inject_Z (Z.of_nat k) + 1.
Proof.
  rewrite Nat2Z.inj_succ. unfold Z.succ. rewrite inject_Z_plus. reflexivity.
Qed.

Lemma inject_Z_nat_nonneg (k : nat) : 0 <= inject_Z (Z.of_nat k).
Proof.
  change 0 with (inject_Z 0). rewrite <- Zle_Qle. lia.
Qed.

(** Bernoulli: 1 + k m <= (1+m)^k. *)
Lemma bernoulli (m : Q) (k : nat) :
  0 <= m -> 1 + inject_Z (Z.of_nat k) * m <= (1 + m) ^ Z.of_nat k.
Proof.
  intro Hm. induction k as [|k IH].
  - change (Z.of_nat 0) with 0%Z. change (inject_Z 0) with 0.
    change ((1 + m) ^ 0) with 1. lra.
  - rewrite Qpower_succ by lra. rewrite inject_Z_succ.
    pose proof (inject_Z_nat_nonneg k) as Hk.
    set (n := inject_Z (Z.of_nat k)) in *.
    set (u := (1 + m) ^ Z.of_nat k) in *.
    assert (0 <= n * (m * m)) as Hnm.
    { apply Qmult_le_0_compat; [assumption|]. apply Qmult_le_0_compat; assumption. }
    assert ((1 + m) * (1 + n * m) <= (1 + m) * u) as Hmul.
    { apply Qmult_le_l; [lra | assumption]. }
    lra.
Qed.

(** The total of the [k+1] payments exceeds the principal by at least half
    the simple interest: n m x^n >= (x^n - 1) (1 + m (n+1) / 2). *)
Lemma annuity_factor (m : Q) (k : nat) :
  0 < m ->
  let n := inject_Z (Z.of_nat (S k)) in
  let u := (1 + m) ^ Z.of_nat (S k) in
  (u - 1) * (1 + m * (n + 1) / 2) <= n * m * u.
Proof.
  intro Hm. induction k as [|k IH]; cbv zeta in *.
  - change (Z.of_nat 1) with 1%Z. change ((1 + m) ^ 1) with (1 + m).
    change (inject_Z 1) with 1.
    assert ((1 + m - 1) * (1 + m * (1 + 1) / 2) == 1 * m * (1 + m)) as E by field.
    rewrite E. apply Qle_refl.
  - pose proof (bernoulli m (S (S k)) (Qlt_le_weak _ _ Hm)) as HB.
    rewrite (Qpower_succ _ (S k)) in * by lra.
    rewrite (inject_Z_succ (S k)) in *.
    set (n := inject_Z (Z.of_nat (S k))) in *.
    set (u := (1 + m) ^ Z.of_nat (S k)) in *.
    assert (0 <= (1 + m) * (n * m * u - (u - 1) * (1 + m * (n + 1) / 2))) as H1.
    { apply Qmult_le_0_compat; lra. }
    assert (0 <= ((1 # 2) * m) * ((1 + m) * u - 1 - (n + 1) * m)) as H2.
    { apply Qmult_le_0_compat; lra. }
    assert ((n + 1) * m * ((1 + m) * u)
            - ((1 + m) * u - 1) * (1 + m * (n + 1 + 1) / 2)
            == (1 + m) * (n * m * u - (u - 1) * (1 + m * (n + 1) / 2))
               + ((1 # 2) * m) * ((1 + m) * u - 1 - (n + 1) * m)) as E by field.
    lra.
Qed.

(** ** The calculator on finite inputs *)

Lemma ndiv_finite (x y : Q) : ~ y == 0 -> ndiv (Finite x) (Finite y) = Finite (x / y).
Proof.
  intro Hy. unfold ndiv. apply Qeq_bool_false in Hy. rewrite Hy. reflexivity.
Qed.

Lemma isWhole_inject_Z (n : Z) : isWhole (inject_Z n) = true.
Proof.
  unfold isWhole. rewrite Qfloor_Z. apply Qeq_bool_iff. reflexivity.
Qed.

Lemma inject_Z_nonzero (n : Z) : n <> 0%Z -> ~ inject_Z n == 0.
Proof.
  intros Hn E. apply Hn. change 0 with (inject_Z 0) in E.
  exact (proj1 (inject_Z_injective n 0) E).
Qed.

Lemma Math_pow_whole (b : Q) (n : Z) :
  ~ b == 0 -> n <> 0%Z -> Math_pow (Finite b) (num n) = Finite (b ^ n).
Proof.
  intros Hb Hn. unfold Math_pow, num.
  apply inject_Z_nonzero, Qeq_bool_false in Hn. rewrite Hn.
  apply Qeq_bool_false in Hb. rewrite Hb.
  rewrite isWhole_inject_Z, Qfloor_Z. reflexivity.
Qed.

Lemma monthlyRate_finite (r : Q) :
  ndiv (ndiv (Finite r) (num 100)) (num 12) = Finite (monthlyRateOf r).
Proof. reflexivity. Qed.

Lemma monthlyRateOf_pos (r : Q) : 0 < r -> 0 < monthlyRateOf r.
Proof.
  intro Hr. unfold monthlyRateOf.
  apply Qlt_shift_div_l; [lra|]. apply Qlt_shift_div_l; lra.
Qed.

Lemma growth_gt_1 (m : Q) (n : Z) : 0 < m -> (1 <= n)%Z -> 1 < (1 + m) ^ n.
Proof.
  intros Hm Hn. apply Qpower_1_lt; [lra | lia].
Qed.

(** With a positive rate and a whole term of at least one month the
    calculator returns the rounded annuity payment. *)
Lemma calculateMonthlyPayment_annuity (P r : Q) (n : Z) :
  0 < r -> (1 <= n)%Z ->
  calculateMonthlyPayment (Finite P) (Finite r) (num n)
  = Return (Finite (round2 (annuity P (monthlyRateOf r) n))).
Proof.
  intros Hr Hn. unfold calculateMonthlyPayment.
  rewrite monthlyRate_finite.
  pose proof (monthlyRateOf_pos r Hr) as Hm.
  pose proof (growth_gt_1 _ n Hm Hn) as Hu.
  set (m := monthlyRateOf r) in *.
  assert (nstricteq (Finite m) (num 0) = false) as ->.
  { unfold nstricteq, num. qprop. change (inject_Z 0) with 0. lra. }
  change (nadd (num 1) (Finite m)) with (Finite (1 + m)).
  rewrite Math_pow_whole by (try lra; lia).
  set (u := (1 + m) ^ n) in *.
  change (nsub (Finite u) (num 1)) with (Finite (u + - 1)).
  change (nmul (Finite P) (nmul (Finite m) (Finite u))) with (Finite (P * (m * u))).
  rewrite ndiv_finite by lra.
  rewrite round_cents. unfold tryCatch.
  f_equal. f_equal. apply round2_comp.
  unfold annuity. fold u. field. lra.
Qed.

(** With a rate of zero it returns the rounded quotient. *)
Lemma calculateMonthlyPayment_zero_rate (P r : Q) (n : Z) :
  r == 0 -> n <> 0%Z ->
  calculateMonthlyPayment (Finite P) (Finite r) (num n)
  = Return (Finite (round2 (P / inject_Z n))).
Proof.
  intros Hr Hn. unfold calculateMonthlyPayment.
  rewrite monthlyRate_finite.
  assert (nstricteq (Finite (monthlyRateOf r)) (num 0) = true) as ->.
  { unfold nstricteq, num, monthlyRateOf. qprop. rewrite Hr. reflexivity. }
  unfold num at 1. rewrite ndiv_finite by (apply inject_Z_nonzero; assumption).
  rewrite round_cents. reflexivity.
Qed.

(** A whole number of payments of whole cents is a whole number of cents. *)
Lemma round2_times_whole (q : Q) (n : Z) :
  round2 (round2 q * inject_Z n) == round2 q * inject_Z n.
Proof.
  set (z := Qfloor (q * 100 + (1 # 2))).
  assert (round2 q * inject_Z n * 100 == inject_Z (z * n)) as E.
  { rewrite inject_Z_mult. unfold round2. fold z. field. }
  unfold round2 at 1.
  assert (Qfloor (round2 q * inject_Z n * 100 + (1 # 2)) = (z * n)%Z) as ->.
  { rewrite <- (Qfloor_half_whole (z * n)). apply Qfloor_comp. rewrite E. reflexivity. }
  rewrite <- E. field.
Qed.

Lemma loanDetails_finite (P r : Q) (n : Z) (mp : Q) :
  calculateMonthlyPayment (Finite P) (Finite r) (num n) = Return (Finite mp) ->
  loanDetails (Finite P) (Finite r) (num n)
  = Return (Finite mp, Finite (round2 (mp * inject_Z n))).
Proof.
  intro E. unfold loanDetails. rewrite E. reflexivity.
Qed.

(** The exact payments of an annuity add up to the principal and at least
    half the simple interest on it. *)
Lemma annuity_total_lower (P m : Q) (n : Z) :
  0 < P -> 0 < m -> (1 <= n)%Z ->
  P * (1 + m * (inject_Z n + 1) / 2) <= annuity P m n * inject_Z n.
Proof.
  intros HP Hm Hn.
  pose proof (growth_gt_1 m n Hm Hn) as Hu.
  assert (exists k, n = Z.of_nat (S k)) as [k ->].
  { exists (Z.to_nat (n - 1)). lia. }
  pose proof (annuity_factor m k Hm) as HA. cbv zeta in HA.
  unfold annuity.
  set (N := inject_Z (Z.of_nat (S k))) in *.
  set (u := (1 + m) ^ Z.of_nat (S k)) in *.
  assert (P * m * u / (u - 1) * N == P * (N * m * u) / (u - 1)) as E
    by (field; lra).
  rewrite E. apply Qle_shift_div_l; [lra|].
  assert (P * ((u - 1) * (1 + m * (N + 1) / 2)) <= P * (N * m * u)) as H
    by (apply Qmult_le_l; assumption).
  assert (P * (1 + m * (N + 1) / 2) * (u - 1)
          == P * ((u - 1) * (1 + m * (N + 1) / 2))) as E2 by ring.
  rewrite E2. exact H.
Qed.

Lemma inject_Z_ge_1 (n : Z) : (1 <= n)%Z -> 1 <= inject_Z n.
Proof.
  intro H. change 1 with (inject_Z 1). rewrite <- Zle_Qle. exact H.
Qed.

(** ** The loan details of a valid request *)

Lemma loanDetails_valid (P r : Q) (n : Z) :
  1000 <= P -> (1 # 10) <= r -> (1 <= n)%Z ->
  exists mp total,
    loanDetails (Finite P) (Finite r) (num n) = Return (Finite mp, Finite total)
    /\ mp = round2 (annuity P (monthlyRateOf r) n)
    /\ total == mp * inject_Z n
    /\ 0 < mp /\ P < total.
Proof.
  intros HP Hr Hn.
  assert (0 < r) as Hr0 by lra.
  pose proof (calculateMonthlyPayment_annuity P r n Hr0 Hn) as Hc.
  pose proof (monthlyRateOf_pos r Hr0) as Hm.
  assert ((1 # 12000) <= monthlyRateOf r) as Hm'.
  { unfold monthlyRateOf.
    apply Qle_shift_div_l; [lra|]. apply Qle_shift_div_l; lra. }
  pose proof (annuity_total_lower P (monthlyRateOf r) n ltac:(lra) Hm Hn) as Ha.
  pose proof (inject_Z_ge_1 n Hn) as HN.
  set (m := monthlyRateOf r) in *.
  set (a := annuity P m n) in *.
  set (N := inject_Z n) in *.
  exists (round2 a), (round2 (round2 a * N)).
  pose proof (round2_times_whole a n) as Ht. fold N in Ht.
  pose proof (round2_lower a) as Hl.
  assert (P < round2 a * N) as Hgt.
  { assert ((a - (1 # 200)) * N < round2 a * N) as H1
      by (apply Qmult_lt_r; lra).
    assert (1000 * m <= P * m) as H2 by (apply Qmult_le_compat_r; lra).
    assert ((1 # 12) * (N + 1) <= P * m * (N + 1)) as H3
      by (apply Qmult_le_compat_r; lra).
    assert (P * (1 + m * (N + 1) / 2) == P + (1 # 2) * (P * m * (N + 1))) as E
      by field.
    rewrite E in Ha.
    assert ((a - (1 # 200)) * N == a * N - (1 # 200) * N) as E1 by ring.
    lra. }
  split; [apply loanDetails_finite; exact Hc|].
  split; [reflexivity|]. split; [exact Ht|].
  split.
  - destruct (Qlt_le_dec 0 (round2 a)) as [Hpos|Hneg]; [exact Hpos|].
    exfalso.
    assert (round2 a * N <= 0 * N) as H by (apply Qmult_le_compat_r; lra).
    lra.
  - rewrite Ht. exact Hgt.
Qed.

(** C6.  For a valid input with a positive rate (P >= 1000, 0.1 <= r <= 50,
    1 <= n <= 360 whole months) the monthly payment is positive and the total
    amount is at least P; it differs from P, equality being left to the
    zero-rate case. *)
Theorem valid_loan_repays_more_than_principal (P r : Q) (n : Z) :
  1000 <= P -> (1 # 10) <= r -> r <= 50 -> (1 <= n <= 360)%Z ->
  exists mp total,
    loanDetails (Finite P) (Finite r) (num n) = Return (Finite mp, Finite total)
    /\ 0 < mp /\ P <= total /\ ~ total == P.
Proof.
  intros HP Hr _ [Hn _].
  destruct (loanDetails_valid P r n HP Hr Hn) as (mp & total & Hd & _ & _ & Hmp & Ht).
  exists mp, total. repeat split; try assumption; lra.
Qed.

(** C7.  For P = 500000, r = 8.5 and n = 60 the calculator gives the monthly
    payment 10258.27 and the total amount 615496.20, the figures of the first
    sample loan of the seed data, hence within 0.01 of them. *)
Theorem amortization_reference_loan :
  exists mp total,
    loanDetails (num 500000) (Finite (85 # 10)) (num 60)
    = Return (Finite mp, Finite total)
    /\ mp == 1025827 # 100 /\ total == 61549620 # 100
    /\ Qabs (mp - (1025827 # 100)) <= 1 # 100
    /\ Qabs (total - (61549620 # 100)) <= 1 # 100
    /\ (forall id0 id1 id2 c0 c1 c2,
          match sampleLoans id0 id1 id2 c0 c1 c2 with
          | l :: _ => Loan.monthlyPayment l =n= Finite mp
                      /\ Loan.totalAmount l =n= Finite total
          | [] => False
          end).
Proof.
  eexists. eexists. split; [vm_compute; reflexivity|].
  repeat split; vm_compute; congruence.
Qed.

(** ** Order on Numbers *)

Lemma nle_refl (a : Number) : isNaN a = false -> nle a a = true.
Proof.
  destruct a; simpl; intro H; try reflexivity; try discriminate.
  qprop. apply Qle_refl.
Qed.

Lemma nle_trans (a b c : Number) :
  nle a b = true -> nle b c = true -> nle a c = true.
Proof.
  destruct a, b, c; simpl; intros H1 H2; try reflexivity; try discriminate.
  qprop. lra.
Qed.

Lemma nle_nlt_false (a b : Number) : nle a b = true -> nlt b a = false.
Proof.
  destruct a, b; simpl; intro H; try reflexivity; try discriminate.
  qprop. exact H.
Qed.

(** ** The balance update *)

Lemma newBalance_finite (b x : Q) :
  ndiv (Math_round (nmul (nsub (Finite b) (Finite x)) (num 100))) (num 100)
  = Finite (round2 (b - x)).
Proof. reflexivity. Qed.

Lemma newBalance_infinite (x : Q) :
  ndiv (Math_round (nmul (nsub PosInf (Finite x)) (num 100))) (num 100) = PosInf.
Proof. reflexivity. Qed.

Lemma applyPayment_fields (l : Loan.t) (a : Number) :
  Loan.loanId (applyPayment l a) = Loan.loanId l
  /\ Loan.customerId (applyPayment l a) = Loan.customerId l
  /\ Loan.amount (applyPayment l a) = Loan.amount l
  /\ Loan.interestRate (applyPayment l a) = Loan.interestRate l
  /\ Loan.term (applyPayment l a) = Loan.term l
  /\ Loan.monthlyPayment (applyPayment l a) = Loan.monthlyPayment l
  /\ Loan.totalAmount (applyPayment l a) = Loan.totalAmount l.
Proof.
  unfold applyPayment.
  destruct (nle _ (num 0)); simpl; repeat split; reflexivity.
Qed.

(** What an amount that passed the checks of the handler and of the payment
    schema does to a loan with a balance that is a number. *)
Lemma applyPayment_finite (l : Loan.t) (b x : Q) :
  Loan.remainingBalance l = Finite b -> 0 < x -> x <= b ->
  (round2 (b - x) <= 0
   /\ Loan.status (applyPayment l (Finite x)) = PAID_OFF
   /\ Loan.remainingBalance (applyPayment l (Finite x)) = num 0)
  \/ (0 < round2 (b - x)
      /\ Loan.status (applyPayment l (Finite x)) = Loan.status l
      /\ Loan.remainingBalance (applyPayment l (Finite x)) = Finite (round2 (b - x))).
Proof.
  intros Hb Hx Hxb. unfold applyPayment. rewrite Hb, newBalance_finite.
  destruct (nle (Finite (round2 (b - x))) (num 0)) eqn:E; simpl in E; qprop.
  - left. split; [exact E|]. split; reflexivity.
  - right. split; [exact E|]. split; reflexivity.
Qed.

Lemma round2_nonneg (q : Q) : 0 <= q -> 0 <= round2 q.
Proof.
  intro H. unfold round2. apply Qle_shift_div_l; [lra|].
  assert (0 <= Qfloor (q * 100 + (1 # 2)))%Z as Hz.
  { rewrite <- (Qfloor_Z 0). apply Qfloor_resp_le. change (inject_Z 0) with 0. lra. }
  rewrite Zle_Qle in Hz. change (inject_Z 0) with 0 in Hz. lra.
Qed.

(** The shape of every amount that reaches the balance update. *)
Lemma accepted_amount (rb a : Number) :
  nle (num 0) rb = true ->
  isNaN a = false -> nle a (num 0) = false -> ngt a rb = false ->
  (exists x, a = Finite x /\ 0 < x
             /\ (rb = PosInf \/ exists b, rb = Finite b /\ x <= b))
  \/ (a = PosInf /\ rb = PosInf).
Proof.
  intros Hrb Hnan Hpos Hgt. unfold ngt in Hgt.
  destruct a as [x| | |]; simpl in *; try discriminate.
  - left. exists x. qprop. change (inject_Z 0) with 0 in Hpos.
    split; [reflexivity|]. split; [exact Hpos|].
    destruct rb as [b| | |]; simpl in *; try discriminate.
    + right. exists b. qprop. split; [reflexivity | exact Hgt].
    + left. reflexivity.
  - right. destruct rb; simpl in *; try discriminate. split; reflexivity.
Qed.

Lemma applyPayment_infinite (l : Loan.t) (x : Q) :
  Loan.remainingBalance l = PosInf ->
  Loan.status (applyPayment l (Finite x)) = Loan.status l
  /\ Loan.remainingBalance (applyPayment l (Finite x)) = PosInf.
Proof.
  intro Hb. unfold applyPayment. rewrite Hb, newBalance_infinite.
  simpl. split; reflexivity.
Qed.

(** ** The payment handler, case by case *)

Lemma not_PAID_OFF (st : LoanStatus) :
  LoanStatus_eqb st PAID_OFF = false -> st = ACTIVE.
Proof. destruct st; simpl; congruence. Qed.

Lemma postPayment_outcome (pid : string) (s : Store) (req : PaymentRequest.t)
    (resp : Response) (s' : Store) :
  postPayment pid s req = (resp, s') -> PaymentOutcome pid s req resp s'.
Proof.
  unfold postPayment, global_isNaN.
  destruct (_ || _ || _ || _) eqn:E1.
  { intro H; inversion H; subst. apply rejected. simpl. lia. }
  destruct (isNaN _ || nle _ _) eqn:E2.
  { intro H; inversion H; subst. apply rejected. simpl. lia. }
  apply orb_false_iff in E2. destruct E2 as [Hnan Hpos].
  destruct (Loan_findOne s _) as [loan|] eqn:Ef.
  2:{ intro H; inversion H; subst. apply rejected. simpl. lia. }
  destruct (LoanStatus_eqb _ _) eqn:Es.
  { intro H; inversion H; subst. apply rejected. simpl. lia. }
  apply not_PAID_OFF in Es.
  destruct (ngt _ _) eqn:Eg.
  { intro H; inversion H; subst. apply rejected. simpl. lia. }
  unfold Payment_save.
  destruct (Payment_validate _) eqn:Ev; simpl.
  2:{ intro H; inversion H; subst. apply rejected. simpl. lia. }
  destruct (existsb _ (payments s)) eqn:Ed.
  { intro H; inversion H; subst. apply rejected. simpl. lia. }
  unfold Loan_save.
  destruct (Loan_validate _) eqn:El; simpl; intro H; inversion H; subst.
  - eapply accepted; eassumption.
  - eapply loanRefused; eassumption.
Qed.

(** ** Valid documents *)

Ltac split_andb :=
  repeat match goal with
  | H : _ && _ = true |- _ => apply andb_true_iff in H; destruct H
  end.

Lemma Loan_validate_balance (l : Loan.t) :
  Loan_validate l = true ->
  nle (num 0) (Loan.remainingBalance l) = true
  /\ nle (num 1) (Loan.totalAmount l) = true.
Proof.
  unfold Loan_validate, nge. intro H. split_andb. split; assumption.
Qed.

Lemma Loan_validate_amount (l : Loan.t) :
  Loan_validate l = true ->
  nle (num 1000) (Loan.amount l) = true
  /\ nle (Loan.amount l) (num 100000000) = true.
Proof.
  unfold Loan_validate, nge. intro H. split_andb. split; assumption.
Qed.

Lemma Payment_validate_amount (p : Payment.t) :
  Payment_validate p = true -> nle (num 1) (Payment.amount p) = true.
Proof.
  unfold Payment_validate, nge. intro H. split_andb. assumption.
Qed.

Lemma Loan_validate_NaN_balance (l : Loan.t) :
  Loan.remainingBalance l = NaN -> Loan_validate l = false.
Proof.
  intro H. unfold Loan_validate. rewrite H.
  change (nge NaN (num 0)) with false. apply andb_false_r.
Qed.

(** ** One payment preserves the invariant of the ledger *)

Lemma applyPayment_ledgerInv (total : Number) (l : Loan.t) (a : Number) :
  ledgerInv total l ->
  Loan.status l = ACTIVE ->
  isNaN a = false -> nle a (num 0) = false ->
  ngt a (Loan.remainingBalance l) = false ->
  nle (num 1) a = true ->
  Loan_validate (applyPayment l a) = true ->
  ledgerInv total (applyPayment l a)
  /\ nle (Loan.remainingBalance (applyPayment l a)) (Loan.remainingBalance l) = true.
Proof.
  intros (Hv & Htot & Hle & Hiff) Hact Hnan Hpos Hgt Hone Hv'.
  destruct (Loan_validate_balance l Hv) as [H0 _].
  destruct (applyPayment_fields l a) as (_ & _ & _ & _ & _ & _ & Ht).
  unfold ledgerInv. rewrite Ht.
  destruct (accepted_amount _ _ H0 Hnan Hpos Hgt)
    as [(x & -> & Hx & [Hinf | (b & Hb & Hxb)]) | [-> Hinf]].
  - destruct (applyPayment_infinite l x Hinf) as [Hs Hr].
    rewrite Hs, Hr, Hact. rewrite Hinf in Hle.
    repeat split; try assumption; try reflexivity.
    + intro H; discriminate.
    + intro H; contradiction.
    + rewrite Hinf. reflexivity.
  - simpl in Hone. qprop. change (inject_Z 1) with 1 in Hone.
    rewrite Hb in H0, Hle. simpl in H0. qprop. change (inject_Z 0) with 0 in H0.
    destruct (applyPayment_finite l b x Hb Hx Hxb) as [(Hr & Hs & Hn) | (Hr & Hs & Hn)];
      rewrite Hs, Hn, Hb.
    + repeat split; try assumption; try reflexivity.
      * apply (nle_trans _ (Finite b)); [simpl; qprop; exact H0 | exact Hle].
      * simpl. qprop. exact H0.
    + rewrite Hact. pose proof (round2_upper (b - x)) as Hu.
      assert (nle (Finite (round2 (b - x))) (Finite b) = true) as Hstep
        by (simpl; qprop; lra).
      repeat split; try assumption.
      * apply (nle_trans _ (Finite b)); assumption.
      * intro H; discriminate.
      * simpl. change (inject_Z 0) with 0. intro H. lra.
  - exfalso. rewrite Loan_validate_NaN_balance in Hv'; [discriminate|].
    unfold applyPayment. rewrite Hinf. reflexivity.
Qed.

(** ** Looking a loan up after a write *)

Lemma find_replaceFirst_same (id : string) (l l' : Loan.t) (ls : list Loan.t) :
  find (fun x => String.eqb (Loan.loanId x) id) ls = Some l ->
  Loan.loanId l' = id ->
  find (fun x => String.eqb (Loan.loanId x) id) (replaceFirst id l' ls) = Some l'.
Proof.
  intros Hf Hid. induction ls as [|y ls IH]; simpl in *; [discriminate|].
  destruct (String.eqb (Loan.loanId y) id) eqn:E; simpl.
  - rewrite Hid, String.eqb_refl. reflexivity.
  - rewrite E. apply IH. exact Hf.
Qed.

Lemma find_replaceFirst_other (id id' : string) (l' : Loan.t) (ls : list Loan.t) :
  id <> id' -> Loan.loanId l' = id' ->
  find (fun x => String.eqb (Loan.loanId x) id) (replaceFirst id' l' ls)
  = find (fun x => String.eqb (Loan.loanId x) id) ls.
Proof.
  intros Hne Hid. induction ls as [|y ls IH]; simpl; [reflexivity|].
  destruct (String.eqb (Loan.loanId y) id') eqn:E; simpl.
  - apply String.eqb_eq in E.
    assert (String.eqb (Loan.loanId l') id = false) as ->
      by (apply String.eqb_neq; congruence).
    assert (String.eqb (Loan.loanId y) id = false) as ->
      by (apply String.eqb_neq; congruence).
    reflexivity.
  - destruct (String.eqb (Loan.loanId y) id); [reflexivity | exact IH].
Qed.

Lemma find_loanId (id : string) (l : Loan.t) (ls : list Loan.t) :
  find (fun x => String.eqb (Loan.loanId x) id) ls = Some l -> Loan.loanId l = id.
Proof.
  intro H. apply find_some in H. destruct H as [_ H].
  apply String.eqb_eq. exact H.
Qed.

(** One request: the loan [id] is still there, it keeps the invariant of its
    ledger and its balance has not grown. *)
Lemma postPayment_ledger (total : Number) (id pid : string) (s s' : Store)
    (req : PaymentRequest.t) (resp : Response) (l : Loan.t) :
  Loan_findOne s id = Some l -> ledgerInv total l ->
  postPayment pid s req = (resp, s') ->
  exists l', Loan_findOne s' id = Some l' /\ ledgerInv total l'
             /\ nle (Loan.remainingBalance l') (Loan.remainingBalance l) = true.
Proof.
  intros Hf Hinv Hp.
  assert (nle (Loan.remainingBalance l) (Loan.remainingBalance l) = true) as Hrefl.
  { destruct Hinv as (Hv & _). apply Loan_validate_balance in Hv.
    destruct Hv as [Hv _]. apply nle_refl.
    destruct (Loan.remainingBalance l); simpl in *; congruence. }
  apply postPayment_outcome in Hp.
  destruct Hp as [resp Hc | loan Hfl Hact Hnan Hpos Hgt Hpv Hlv | loan Hfl Hact Hgt Hpv Hlv].
  - exists l. auto.
  - unfold Loan_findOne in *. simpl.
    destruct (string_dec id (PaymentRequest.loanId req)) as [E | Hne].
    + rewrite <- E in *. rewrite Hf in Hfl. inversion Hfl; subst loan.
      pose proof (find_loanId _ _ _ Hf) as Hid.
      destruct (applyPayment_fields l (ToNumber (PaymentRequest.amount req)))
        as (Hid' & _).
      eexists. split.
      * eapply find_replaceFirst_same; [exact Hf | congruence].
      * apply applyPayment_ledgerInv; try assumption.
        apply Payment_validate_amount in Hpv. exact Hpv.
    + exists l. split; [|auto].
      rewrite find_replaceFirst_other; [exact Hf | exact Hne |].
      destruct (applyPayment_fields loan (ToNumber (PaymentRequest.amount req)))
        as (Hid' & _).
      rewrite Hid'. eapply find_loanId. exact Hfl.
  - exists l. auto.
Qed.

(** ** The ledger along a sequence of requests *)

Lemma ledgerInv_initial (l0 : Loan.t) :
  Loan_validate l0 = true ->
  Loan.status l0 = ACTIVE ->
  Loan.remainingBalance l0 = Loan.totalAmount l0 ->
  ledgerInv (Loan.totalAmount l0) l0.
Proof.
  intros Hv Hact Hrb.
  destruct (Loan_validate_balance l0 Hv) as [_ H1].
  unfold ledgerInv. rewrite Hrb, Hact.
  repeat split; try assumption; try reflexivity.
  - apply nle_refl. destruct (Loan.totalAmount l0); simpl in *; congruence.
  - intro H; discriminate.
  - intro H. exfalso.
    destruct (Loan.totalAmount l0) as [q| | |]; simpl in *; try contradiction.
    qprop. change (inject_Z 1) with 1 in H1. change (inject_Z 0) with 0 in H. lra.
Qed.

Lemma PaymentRun_ledger (total : Number) (id : string) (s0 s1 : Store) (l0 : Loan.t) :
  Loan_findOne s0 id = Some l0 -> ledgerInv total l0 ->
  PaymentRun s0 s1 ->
  exists l1, Loan_findOne s1 id = Some l1 /\ ledgerInv total l1.
Proof.
  intros Hf Hinv Hrun. induction Hrun as [s | s s1 s2 pid req resp Hrun IH Hstep].
  - exists l0. auto.
  - destruct (IH Hf) as (l1 & Hf1 & Hinv1).
    destruct (postPayment_ledger total id pid s1 s2 req resp l1 Hf1 Hinv1 Hstep)
      as (l2 & Hf2 & Hinv2 & _).
    exists l2. auto.
Qed.

(** C1.  A loan starts ACTIVE with its remaining balance equal to its total
    amount.  After each payment request of any sequence, the loan satisfies
    0 <= remainingBalance <= totalAmount, its balance is not above the one
    before the request, and its status is PAID_OFF exactly when the balance
    is 0. *)
Theorem ledger_balance_invariant (s0 : Store) (id : string) (l0 : Loan.t) :
  Loan_findOne s0 id = Some l0 ->
  Loan_validate l0 = true ->
  Loan.status l0 = ACTIVE ->
  Loan.remainingBalance l0 = Loan.totalAmount l0 ->
  forall (s1 s2 : Store) (newPaymentId : string) (req : PaymentRequest.t)
         (resp : Response),
    PaymentRun s0 s1 ->
    postPayment newPaymentId s1 req = (resp, s2) ->
    exists l1 l2,
      Loan_findOne s1 id = Some l1 /\ Loan_findOne s2 id = Some l2
      /\ nle (num 0) (Loan.remainingBalance l2) = true
      /\ nle (Loan.remainingBalance l2) (Loan.totalAmount l0) = true
      /\ Loan.totalAmount l2 = Loan.totalAmount l0
      /\ nle (Loan.remainingBalance l2) (Loan.remainingBalance l1) = true
      /\ (Loan.status l2 = PAID_OFF <-> Loan.remainingBalance l2 =n= num 0).
Proof.
  intros Hf Hv Hact Hrb s1 s2 pid req resp Hrun Hstep.
  pose proof (ledgerInv_initial l0 Hv Hact Hrb) as Hinv0.
  destruct (PaymentRun_ledger _ id s0 s1 l0 Hf Hinv0 Hrun) as (l1 & Hf1 & Hinv1).
  destruct (postPayment_ledger _ id pid s1 s2 req resp l1 Hf1 Hinv1 Hstep)
    as (l2 & Hf2 & (Hv2 & Ht2 & Hle2 & Hiff2) & Hmono).
  exists l1, l2.
  destruct (Loan_validate_balance l2 Hv2) as [H0 _].
  repeat split; try assumption; apply Hiff2.
Qed.

(** ** Rejections *)

(** C3.  A payment attempt with an amount that is missing, not a number or
    not positive, or against a loan that does not exist, or that is PAID_OFF,
    or that is ACTIVE with a smaller remaining balance, fails with an error
    response and leaves the store as it was: the loan keeps its balance and
    status and no Payment record is created. *)
Theorem rejected_payment_leaves_store (newPaymentId : string) (s : Store)
    (req : PaymentRequest.t) :
  let a := PaymentRequest.amount req in
  truthy a = false \/ global_isNaN a = true \/ nle (ToNumber a) (num 0) = true
  \/ Loan_findOne s (PaymentRequest.loanId req) = None
  \/ (exists loan, Loan_findOne s (PaymentRequest.loanId req) = Some loan
                   /\ Loan.status loan = PAID_OFF)
  \/ (exists loan, Loan_findOne s (PaymentRequest.loanId req) = Some loan
                   /\ Loan.status loan = ACTIVE
                   /\ ngt (ToNumber a) (Loan.remainingBalance loan) = true) ->
  exists resp,
    postPayment newPaymentId s req = (resp, s)
    /\ (code resp = 400%nat \/ code resp = 404%nat).
Proof.
  intros a H. subst a. unfold postPayment.
  destruct (_ || _ || _ || _) eqn:E1.
  { eexists. split; [reflexivity | left; reflexivity]. }
  destruct (global_isNaN _ || nle _ _) eqn:E2.
  { eexists. split; [reflexivity | left; reflexivity]. }
  apply orb_false_iff in E2. destruct E2 as [Hnan Hpos].
  repeat (apply orb_false_iff in E1; destruct E1 as [E1 ?]).
  destruct H as [H | [H | [H | H]]];
    try (rewrite H in *; simpl in *; discriminate); try congruence.
  destruct (Loan_findOne s _) as [loan|] eqn:Ef.
  2:{ eexists. split; [reflexivity | right; reflexivity]. }
  destruct H as [H | [(l & Hl & Hs) | (l & Hl & Hs & Hgt)]];
    try discriminate; inversion Hl; subst l.
  - rewrite Hs. simpl. eexists. split; [reflexivity | left; reflexivity].
  - rewrite Hs, Hgt. simpl. eexists. split; [reflexivity | left; reflexivity].
Qed.

(** C10.  A payment request that carries the required fields and an amount
    strictly between 0 and 1, against an ACTIVE loan whose balance covers it,
    passes the positivity check and the balance check of the handler; the
    Payment record fails the schema, which wants an amount of at least 1, so
    the save throws and the request fails with the store as it was. *)
Theorem sub_unit_payment_fails_at_save (newPaymentId : string) (s : Store)
    (req : PaymentRequest.t) (loan : Loan.t) (x : Q) :
  nonEmpty (PaymentRequest.loanId req) = true ->
  nonEmpty (PaymentRequest.paymentType req) = true ->
  nonEmpty (PaymentRequest.paymentMethod req) = true ->
  PaymentRequest.amount req = JNum (Finite x) ->
  0 < x -> x < 1 ->
  Loan_findOne s (PaymentRequest.loanId req) = Some loan ->
  Loan.status loan = ACTIVE ->
  nle (Finite x) (Loan.remainingBalance loan) = true ->
  (global_isNaN (PaymentRequest.amount req)
   || nle (ToNumber (PaymentRequest.amount req)) (num 0)) = false
  /\ ngt (ToNumber (PaymentRequest.amount req)) (Loan.remainingBalance loan) = false
  /\ Payment_validate (paymentOf newPaymentId req) = false
  /\ Payment_save s (paymentOf newPaymentId req) = Throw "Payment validation failed"
  /\ postPayment newPaymentId s req = (Resp 400 "Failed to record payment", s).
Proof.
  intros Hid Hty Hme Ha Hx0 Hx1 Hf Hact Hbal.
  assert (nle (Finite x) (num 0) = false) as Hpos
    by (simpl; qprop; change (inject_Z 0) with 0; exact Hx0).
  assert (ngt (Finite x) (Loan.remainingBalance loan) = false) as Hgt
    by (apply nle_nlt_false; exact Hbal).
  assert (Payment_validate (paymentOf newPaymentId req) = false) as Hpv.
  { unfold Payment_validate.
    change (Payment.amount (paymentOf newPaymentId req))
      with (ToNumber (PaymentRequest.amount req)).
    rewrite Ha. change (ToNumber (JNum (Finite x))) with (Finite x).
    assert (nge (Finite x) (num 1) = false) as ->
      by (unfold nge; simpl; qprop; change (inject_Z 1) with 1; exact Hx1).
    rewrite andb_false_r. reflexivity. }
  assert (truthy (JNum (Finite x)) = true) as Htr
    by (simpl; apply negb_true_iff; qprop; lra).
  unfold postPayment, Payment_save, global_isNaN.
  rewrite Hpv, Ha, Hid, Hty, Hme, Htr, Hf, Hact. simpl ToNumber.
  rewrite Hpos, Hgt. simpl. repeat split; reflexivity.
Qed.

(** ** Paying a loan off *)

Lemma applyPayment_payoff (l : Loan.t) (b : Q) :
  Loan.remainingBalance l = Finite b ->
  applyPayment l (Finite b)
  = Loan.mk (Loan.loanId l) (Loan.customerId l) (Loan.amount l)
      (Loan.interestRate l) (Loan.term l) PAID_OFF
      (Loan.monthlyPayment l) (Loan.totalAmount l) (num 0).
Proof.
  intro Hb. unfold applyPayment. rewrite Hb, newBalance_finite.
  assert (round2 (b - b) = round2 0) as -> by (apply round2_comp; ring).
  reflexivity.
Qed.

Lemma Loan_validate_paid (l : Loan.t) :
  Loan_validate l = true ->
  Loan_validate
    (Loan.mk (Loan.loanId l) (Loan.customerId l) (Loan.amount l)
       (Loan.interestRate l) (Loan.term l) PAID_OFF
       (Loan.monthlyPayment l) (Loan.totalAmount l) (num 0)) = true.
Proof.
  unfold Loan_validate. cbn [Loan.loanId Loan.customerId Loan.amount
    Loan.interestRate Loan.term Loan.monthlyPayment Loan.totalAmount
    Loan.remainingBalance].
  intro H. split_andb.
  repeat (apply andb_true_iff; split); try assumption. reflexivity.
Qed.

(** Every request against a loan that is paid off is refused and changes
    nothing; once its fields and its amount pass the first two checks the
    refusal is the one of a loan already paid off. *)
Lemma postPayment_paid_off (pid : string) (s : Store) (req : PaymentRequest.t)
    (l : Loan.t) :
  Loan_findOne s (PaymentRequest.loanId req) = Some l ->
  Loan.status l = PAID_OFF ->
  exists resp,
    postPayment pid s req = (resp, s)
    /\ code resp = 400%nat
    /\ (nonEmpty (PaymentRequest.loanId req) = true ->
        truthy (PaymentRequest.amount req) = true ->
        nonEmpty (PaymentRequest.paymentType req) = true ->
        nonEmpty (PaymentRequest.paymentMethod req) = true ->
        global_isNaN (PaymentRequest.amount req) = false ->
        nle (ToNumber (PaymentRequest.amount req)) (num 0) = false ->
        message resp = "Cannot add payment to a loan that is already paid off").
Proof.
  intros Hf Hs. unfold postPayment. rewrite Hf, Hs.
  destruct (_ || _ || _ || _) eqn:E1.
  { eexists. split; [reflexivity|]. split; [reflexivity|].
    intros H1 H2 H3 H4. rewrite H1, H2, H3, H4 in E1. discriminate. }
  destruct (global_isNaN _ || nle _ _) eqn:E2.
  { eexists. split; [reflexivity|]. split; [reflexivity|].
    intros _ _ _ _ H5 H6. rewrite H5, H6 in E2. discriminate. }
  simpl. eexists. split; [reflexivity|]. split; reflexivity.
Qed.

(** C2, amended.  For a valid ACTIVE loan whose remaining balance is at least
    1, a payment of exactly that balance, with a record that passes the
    Payment schema under a fresh identifier, is accepted: it sets the balance
    to exactly 0 and the status to PAID_OFF.  After that every payment
    attempt against the loan fails and changes nothing, with the refusal of a
    loan already paid off once the attempt passes the checks of its fields
    and amount. *)
Theorem payoff_closes_loan (newPaymentId : string) (s : Store)
    (req : PaymentRequest.t) (loan : Loan.t) (b : Q) :
  nonEmpty (PaymentRequest.loanId req) = true ->
  nonEmpty (PaymentRequest.paymentType req) = true ->
  nonEmpty (PaymentRequest.paymentMethod req) = true ->
  PaymentRequest.amount req = JNum (Finite b) ->
  Loan_findOne s (PaymentRequest.loanId req) = Some loan ->
  Loan_validate loan = true ->
  Loan.status loan = ACTIVE ->
  Loan.remainingBalance loan = Finite b ->
  1 <= b ->
  Payment_validate (paymentOf newPaymentId req) = true ->
  existsb (fun p => String.eqb (Payment.paymentId p) newPaymentId) (payments s)
  = false ->
  exists s' loan',
    postPayment newPaymentId s req = (Resp 201 "Payment recorded successfully", s')
    /\ Loan_findOne s' (PaymentRequest.loanId req) = Some loan'
    /\ Loan.remainingBalance loan' = num 0
    /\ Loan.status loan' = PAID_OFF
    /\ payments s' = (payments s ++ [paymentOf newPaymentId req])%list
    /\ forall (nextId : string) (next : PaymentRequest.t),
         PaymentRequest.loanId next = PaymentRequest.loanId req ->
         exists resp,
           postPayment nextId s' next = (resp, s')
           /\ code resp = 400%nat
           /\ (nonEmpty (PaymentRequest.loanId next) = true ->
               truthy (PaymentRequest.amount next) = true ->
               nonEmpty (PaymentRequest.paymentType next) = true ->
               nonEmpty (PaymentRequest.paymentMethod next) = true ->
               global_isNaN (PaymentRequest.amount next) = false ->
               nle (ToNumber (PaymentRequest.amount next)) (num 0) = false ->
               message resp
               = "Cannot add payment to a loan that is already paid off").
Proof.
  intros Hid Hty Hme Ha Hf Hv Hact Hb H1 Hpv Hfresh.
  pose proof (applyPayment_payoff loan b Hb) as Hpay.
  pose proof (Loan_validate_paid loan Hv) as Hv'.
  pose proof (find_loanId _ _ _ Hf) as Hlid.
  set (loan' := Loan.mk (Loan.loanId loan) (Loan.customerId loan) (Loan.amount loan)
                  (Loan.interestRate loan) (Loan.term loan) PAID_OFF
                  (Loan.monthlyPayment loan) (Loan.totalAmount loan) (num 0)) in *.
  set (s' := mkStore (customers s)
               (replaceFirst (PaymentRequest.loanId req) loan' (loans s))
               (payments s ++ [paymentOf newPaymentId req])).
  assert (Loan_findOne s' (PaymentRequest.loanId req) = Some loan') as Hf'.
  { unfold Loan_findOne, s'. simpl.
    eapply find_replaceFirst_same; [exact Hf | exact Hlid]. }
  exists s', loan'. split; [|split; [exact Hf'|]].
  - assert (truthy (JNum (Finite b)) = true) as Htr
      by (simpl; apply negb_true_iff; qprop; lra).
    assert (nle (Finite b) (num 0) = false) as Hpos
      by (simpl; qprop; change (inject_Z 0) with 0; lra).
    assert (ngt (Finite b) (Finite b) = false) as Hgt
      by (unfold ngt; simpl; qprop; lra).
    unfold postPayment, Payment_save, Loan_save, global_isNaN.
    rewrite Hid, Hty, Hme, Ha, Htr, Hf, Hact, Hb. simpl ToNumber.
    rewrite Hpos, Hgt, Hpay, Hpv.
    change (Payment.paymentId (paymentOf newPaymentId req)) with newPaymentId.
    rewrite Hfresh, Hv'. reflexivity.
  - split; [reflexivity|]. split; [reflexivity|]. split; [reflexivity|].
    intros nextId next Hsame.
    apply postPayment_paid_off with (l := loan'); [|reflexivity].
    rewrite Hsame. exact Hf'.
Qed.

(** ** Loan creation *)

Lemma calculateMonthlyPayment_returns (P r n : Number) :
  exists v, calculateMonthlyPayment P r n = Return v.
Proof.
  unfold calculateMonthlyPayment.
  destruct (nstricteq _ _); eexists; reflexivity.
Qed.

Lemma loanDetails_returns (P r n : Number) :
  exists mp total,
    calculateMonthlyPayment P r n = Return mp
    /\ loanDetails P r n = Return (mp, total)
    /\ total = ndiv (Math_round (nmul (nmul mp n) (num 100))) (num 100).
Proof.
  destruct (calculateMonthlyPayment_returns P r n) as [mp E].
  exists mp. eexists. split; [exact E|]. unfold loanDetails. rewrite E.
  split; reflexivity.
Qed.

(** The loan the handler builds. *)
Lemma createLoan_outcome (id : string) (s s' : Store) (body : LoanBody.t)
    (resp : Response) :
  createLoan id s body = (resp, s') ->
  ((code resp = 400%nat \/ code resp = 404%nat) /\ s' = s)
  \/ (exists mp total,
        resp = Resp 201 "Loan created successfully"
        /\ loanDetails (ToNumber (LoanBody.amount body))
             (ToNumber (LoanBody.interestRate body))
             (ToNumber (LoanBody.term body)) = Return (mp, total)
        /\ Loan_validate
             (Loan.mk id (LoanBody.customerId body)
                (ToNumber (LoanBody.amount body))
                (ToNumber (LoanBody.interestRate body))
                (ToNumber (LoanBody.term body)) ACTIVE mp total total) = true
        /\ s' = mkStore (customers s)
                  (loans s ++ [Loan.mk id (LoanBody.customerId body)
                                 (ToNumber (LoanBody.amount body))
                                 (ToNumber (LoanBody.interestRate body))
                                 (ToNumber (LoanBody.term body)) ACTIVE
                                 mp total total])
                  (payments s)).
Proof.
  unfold createLoan.
  destruct (_ || _ || _ || _) eqn:E1.
  { intro H; inversion H; subst. left. split; [left; reflexivity | reflexivity]. }
  destruct (global_isNaN _ || _ || _) eqn:E2.
  { intro H; inversion H; subst. left. split; [left; reflexivity | reflexivity]. }
  destruct (nlt _ _) eqn:E3.
  { intro H; inversion H; subst. left. split; [left; reflexivity | reflexivity]. }
  destruct (Customer_findOne s _) as [c|] eqn:Ec.
  2:{ intro H; inversion H; subst. left. split; [right; reflexivity | reflexivity]. }
  destruct (loanDetails_returns (ToNumber (LoanBody.amount body))
              (ToNumber (LoanBody.interestRate body))
              (ToNumber (LoanBody.term body))) as (mp & total & _ & Hd & _).
  rewrite Hd. cbn [bind]. unfold Loan_insert.
  destruct (Loan_validate _) eqn:Ev; cbn [negb].
  2:{ intro H; inversion H; subst. left. split; [left; reflexivity | reflexivity]. }
  destruct (existsb _ (loans s)) eqn:Ed.
  { intro H; inversion H; subst. left. split; [left; reflexivity | reflexivity]. }
  intro H; inversion H; subst. right. exists mp, total.
  repeat split; try reflexivity. exact Ev.
Qed.

Lemma Loan_validate_ranges (l : Loan.t) :
  Loan_validate l = true ->
  nle (num 1000) (Loan.amount l) = true
  /\ nle (Loan.amount l) (num 100000000) = true
  /\ nle (Finite (1 # 10)) (Loan.interestRate l) = true
  /\ nle (Loan.interestRate l) (num 50) = true
  /\ nle (num 1) (Loan.term l) = true
  /\ nle (Loan.term l) (num 360) = true.
Proof.
  unfold Loan_validate, nge. intro H. split_andb. repeat split; assumption.
Qed.

Lemma between_finite (a : Number) (lo hi : Q) :
  nle (Finite lo) a = true -> nle a (Finite hi) = true ->
  exists q, a = Finite q /\ lo <= q /\ q <= hi.
Proof.
  destruct a as [q| | |]; simpl; intros H1 H2; try discriminate.
  qprop. exists q. auto.
Qed.

(** C5, amended.  The calculator validates nothing and signals no error: it
    returns a Number for every input.  A request whose term is <= 0, whose
    principal is <= 0, whose rate is < 0, or one of whose numeric inputs is
    not finite, is rejected by the loan-creation handler or by the Loan
    schema: the response is an error and no loan is stored. *)
Theorem invalid_inputs_rejected_at_creation (newLoanId : string) (s : Store)
    (body : LoanBody.t) :
  let P := ToNumber (LoanBody.amount body) in
  let r := ToNumber (LoanBody.interestRate body) in
  let n := ToNumber (LoanBody.term body) in
  nle n (num 0) = true \/ nle P (num 0) = true \/ nlt r (num 0) = true
  \/ isFinite P = false \/ isFinite r = false \/ isFinite n = false ->
  (exists v, calculateMonthlyPayment P r n = Return v)
  /\ exists resp,
       createLoan newLoanId s body = (resp, s)
       /\ (code resp = 400%nat \/ code resp = 404%nat).
Proof.
  intros P r n Hbad. split; [apply calculateMonthlyPayment_returns|].
  destruct (createLoan newLoanId s body) as [resp s'] eqn:E.
  apply createLoan_outcome in E.
  destruct E as [[Hc ->] | (mp & total & _ & _ & Hv & _)].
  - exists resp. split; [reflexivity | exact Hc].
  - exfalso. apply Loan_validate_ranges in Hv.
    cbn [Loan.amount Loan.interestRate Loan.term] in Hv.
    fold P r n in Hv. destruct Hv as (HP1 & HP2 & Hr1 & Hr2 & Hn1 & Hn2).
    destruct (between_finite _ _ _ HP1 HP2) as (p & Ep & Hp & _).
    destruct (between_finite _ _ _ Hr1 Hr2) as (q & Eq & Hq & _).
    destruct (between_finite _ _ _ Hn1 Hn2) as (t & Et & Ht & _).
    rewrite Ep, Eq, Et in Hbad. simpl in Hbad.
    change (inject_Z 1000) with 1000 in Hp. change (inject_Z 1) with 1 in Ht.
    destruct Hbad as [H | [H | [H | [H | [H | H]]]]];
      try discriminate; qprop; change (inject_Z 0) with 0 in H; lra.
Qed.

(** ** The dashboard *)

Lemma nadd_ge_1 (a b : Number) :
  nle (num 0) a = true -> nle (num 1) b = true -> nle (num 1) (nadd a b) = true.
Proof.
  destruct a as [x| | |], b as [y| | |]; simpl; intros Ha Hb;
    try discriminate; try reflexivity.
  qprop. change (inject_Z 0) with 0 in Ha. change (inject_Z 1) with 1 in *. lra.
Qed.

Lemma nle_0_of_1 (a : Number) : nle (num 1) a = true -> nle (num 0) a = true.
Proof.
  intro H. apply (nle_trans _ (num 1)); [reflexivity | exact H].
Qed.

Lemma fold_nadd_ge_1 (xs : list Number) (acc : Number) :
  Forall (fun a => nle (num 1) a = true) xs ->
  nle (num 1) acc = true ->
  nle (num 1) (fold_left nadd xs acc) = true.
Proof.
  intro Hxs. revert acc. induction Hxs as [|x xs Hx _ IH]; intros acc Hacc; simpl.
  - exact Hacc.
  - apply IH. apply nadd_ge_1; [apply nle_0_of_1; exact Hacc | exact Hx].
Qed.

Lemma truthy_ge_1 (t : Number) : nle (num 1) t = true -> truthy (JNum t) = true.
Proof.
  destruct t as [q| | |]; simpl; intro H; try discriminate; try reflexivity.
  apply negb_true_iff. qprop. change (inject_Z 1) with 1 in H. lra.
Qed.

(** On amounts of at least 1 the guarded total of the grouping stage is the
    plain sum. *)
Lemma totalOrZero_groupSum (xs : list Number) :
  Forall (fun a => nle (num 1) a = true) xs ->
  totalOrZero (groupSum xs) = sumOf xs.
Proof.
  intro Hxs. destruct Hxs as [|x xs Hx Hrest]; [reflexivity|].
  unfold groupSum, totalOrZero, sumOf.
  rewrite truthy_ge_1; [reflexivity|].
  cbn [fold_left]. apply fold_nadd_ge_1; [exact Hrest|].
  apply nadd_ge_1; [reflexivity | exact Hx].
Qed.

(** C8.  The statistics are aggregations of the store alone: the total loan
    amount is the sum of [amount] over all loans, the total collected is the
    sum of [amount] over the payments whose status is completed, and the two
    counts are the numbers of loans that are ACTIVE and PAID_OFF. *)
Theorem dashboard_aggregates (s : Store) :
  validStore s ->
  totalLoanAmount (dashboard s) = sumOf (map Loan.amount (loans s))
  /\ totalCollected (dashboard s)
     = sumOf (map Payment.amount
                (filter (fun p => PaymentStatus_eqb (Payment.status p) completed)
                   (payments s)))
  /\ activeLoans (dashboard s)
     = List.length (filter (fun l => LoanStatus_eqb (Loan.status l) ACTIVE) (loans s))
  /\ paidOffLoans (dashboard s)
     = List.length (filter (fun l => LoanStatus_eqb (Loan.status l) PAID_OFF) (loans s)).
Proof.
  intros [Hl Hp]. unfold dashboard. cbn [totalLoanAmount totalCollected
    activeLoans paidOffLoans].
  split; [|split; [|split; reflexivity]].
  - apply totalOrZero_groupSum. apply Forall_map.
    eapply Forall_impl; [|exact Hl]. intros l Hv. cbv beta in *.
    apply Loan_validate_amount in Hv. destruct Hv as [Hv _].
    apply (nle_trans _ (num 1000)); [reflexivity | exact Hv].
  - apply totalOrZero_groupSum. apply Forall_map.
    apply Forall_forall. intros p Hin. apply filter_In in Hin. destruct Hin as [Hin _].
    rewrite Forall_forall in Hp. apply Payment_validate_amount. apply Hp. exact Hin.
Qed.

(** ** The grid of two decimals *)

Lemma onGrid_round2 (q : Q) : onGrid (Finite (round2 q)).
Proof.
  exists (round2 q), (Qfloor (q * 100 + (1 # 2))).
  split; [reflexivity | apply round2_grid].
Qed.

Lemma onGrid_zero : onGrid (num 0).
Proof. exists 0, 0%Z. split; reflexivity. Qed.

Lemma onGrid_cents (a : Number) :
  isFinite a = true ->
  onGrid (ndiv (Math_round (nmul a (num 100))) (num 100)).
Proof.
  destruct a as [q| | |]; simpl; intro H; try discriminate.
  change (onGrid (Finite (round2 q))). apply onGrid_round2.
Qed.

Lemma Math_pow_whole_term (b t : Q) :
  ~ b == 0 -> ~ t == 0 -> isWhole t = true ->
  Math_pow (Finite b) (Finite t) = Finite (b ^ Qfloor t).
Proof.
  intros Hb Ht Hw. unfold Math_pow.
  apply Qeq_bool_false in Ht, Hb. rewrite Ht, Hb, Hw. reflexivity.
Qed.

Lemma whole_ge_1 (t : Q) : isWhole t = true -> 1 <= t -> (1 <= Qfloor t)%Z.
Proof.
  intros _ H. rewrite <- (Qfloor_Z 1). apply Qfloor_resp_le. exact H.
Qed.

(** A valid request with a whole term: the calculator returns a number of
    whole cents. *)
Lemma calculateMonthlyPayment_whole_term (P r t : Q) :
  0 < r -> isWhole t = true -> 1 <= t ->
  exists q, calculateMonthlyPayment (Finite P) (Finite r) (Finite t)
            = Return (Finite (round2 q)).
Proof.
  intros Hr Hw Ht. unfold calculateMonthlyPayment.
  rewrite monthlyRate_finite.
  pose proof (monthlyRateOf_pos r Hr) as Hm.
  pose proof (growth_gt_1 _ _ Hm (whole_ge_1 t Hw Ht)) as Hu.
  set (m := monthlyRateOf r) in *.
  assert (nstricteq (Finite m) (num 0) = false) as ->.
  { unfold nstricteq, num. qprop. change (inject_Z 0) with 0. lra. }
  change (nadd (num 1) (Finite m)) with (Finite (1 + m)).
  rewrite Math_pow_whole_term by (try assumption; lra).
  set (u := (1 + m) ^ Qfloor t) in *.
  change (nsub (Finite u) (num 1)) with (Finite (u + - 1)).
  change (nmul (Finite P) (nmul (Finite m) (Finite u))) with (Finite (P * (m * u))).
  rewrite ndiv_finite by lra.
  rewrite round_cents. eexists. reflexivity.
Qed.

Lemma createLoan_grid (id : string) (s s' : Store) (body : LoanBody.t)
    (resp : Response) :
  wholeMonths (ToNumber (LoanBody.term body)) = true ->
  createLoan id s body = (resp, s') ->
  s' = s
  \/ exists l, loans s' = (loans s ++ [l])%list
               /\ loanOnGrid l
               /\ Loan.status l = ACTIVE
               /\ Loan.remainingBalance l = Loan.totalAmount l.
Proof.
  intros Hw Hc. apply createLoan_outcome in Hc.
  destruct Hc as [[_ ->] | (mp & total & _ & Hd & Hv & ->)]; [left; reflexivity|].
  right. eexists. split; [reflexivity|].
  split; [|split; reflexivity].
  pose proof (Loan_validate_ranges _ Hv) as (HP1 & HP2 & Hr1 & Hr2 & Hn1 & Hn2).
  cbn [Loan.amount Loan.interestRate Loan.term] in *.
  destruct (between_finite _ _ _ HP1 HP2) as (p & Ep & _).
  destruct (between_finite _ _ _ Hr1 Hr2) as (q & Eq & Hq & _).
  destruct (between_finite _ _ _ Hn1 Hn2) as (t & Et & Ht & _).
  rewrite Ep, Eq, Et in *. cbn [wholeMonths] in Hw.
  change (inject_Z 1) with 1 in Ht.
  destruct (calculateMonthlyPayment_whole_term p q t ltac:(lra) Hw Ht) as [x Hx].
  unfold loanDetails in Hd. rewrite Hx in Hd. cbn [bind] in Hd.
  assert (mp = Finite (round2 x)) as Emp by congruence.
  assert (total = ndiv (Math_round (nmul (nmul (Finite (round2 x)) (Finite t))
                                      (num 100))) (num 100)) as Etot by congruence.
  clear Hd Hv. subst mp total.
  unfold loanOnGrid. cbn [Loan.monthlyPayment Loan.totalAmount Loan.remainingBalance].
  repeat split; try apply onGrid_round2; apply onGrid_cents; reflexivity.
Qed.

Lemma Forall_replaceFirst (Pr : Loan.t -> Prop) (id : string) (l' : Loan.t)
    (ls : list Loan.t) :
  Forall Pr ls -> Pr l' -> Forall Pr (replaceFirst id l' ls).
Proof.
  intros Hls Hl'. induction Hls as [|y ls Hy Hls IH]; simpl; [constructor|].
  destruct (String.eqb (Loan.loanId y) id); constructor; assumption.
Qed.

Lemma applyPayment_grid (l : Loan.t) (a : Number) :
  loanOnGrid l ->
  isNaN a = false -> nle a (num 0) = false ->
  ngt a (Loan.remainingBalance l) = false ->
  loanOnGrid (applyPayment l a).
Proof.
  intros (Hmp & Htot & Hrb) Hnan Hpos Hgt.
  destruct (applyPayment_fields l a) as (_ & _ & _ & _ & _ & Em & Et).
  unfold loanOnGrid. rewrite Em, Et. split; [exact Hmp|]. split; [exact Htot|].
  destruct Hrb as (b & z & Hb & _).
  unfold ngt in Hgt. rewrite Hb in Hgt.
  destruct a as [x| | |]; simpl in Hnan, Hpos, Hgt; try discriminate.
  unfold applyPayment. rewrite Hb, newBalance_finite.
  destruct (nle _ (num 0)); cbn [Loan.remainingBalance];
    [apply onGrid_zero | apply onGrid_round2].
Qed.

Lemma postPayment_grid (pid : string) (s s' : Store) (req : PaymentRequest.t)
    (resp : Response) :
  Forall loanOnGrid (loans s) ->
  postPayment pid s req = (resp, s') ->
  Forall loanOnGrid (loans s').
Proof.
  intros Hg Hp. apply postPayment_outcome in Hp.
  destruct Hp as [resp Hc | loan Hfl Hact Hnan Hpos Hgt Hpv Hlv | loan Hfl Hact Hgt Hpv Hlv];
    cbn [loans]; try exact Hg.
  apply Forall_replaceFirst; [exact Hg|].
  apply applyPayment_grid; try assumption.
  unfold Loan_findOne in Hfl. apply find_some in Hfl. destruct Hfl as [Hin _].
  rewrite Forall_forall in Hg. apply Hg. exact Hin.
Qed.

(** C9.  In every store reached from one without loans, by loan creations
    with whole terms and by payment requests, the monthly payment, the total
    amount and the remaining balance of every loan are whole numbers of
    hundredths. *)
Theorem monetary_fields_on_cent_grid (s : Store) :
  LedgerHistory s -> Forall loanOnGrid (loans s).
Proof.
  intro H. induction H as [s Hs | s s' id body resp Hh IH Hw Hc
                           | s s' pid req resp Hh IH Hp].
  - rewrite Hs. constructor.
  - destruct (createLoan_grid id s s' body resp Hw Hc) as [-> | (l & -> & Hl & _)];
      [exact IH|].
    apply Forall_app. split; [exact IH | constructor; [exact Hl | constructor]].
  - eapply postPayment_grid; eassumption.
Qed.

(** ** Valid stores stay valid *)

Lemma createLoan_valid (id : string) (s s' : Store) (body : LoanBody.t)
    (resp : Response) :
  validStore s -> createLoan id s body = (resp, s') -> validStore s'.
Proof.
  intros [Hl Hp] Hc. apply createLoan_outcome in Hc.
  destruct Hc as [[_ ->] | (mp & total & _ & _ & Hv & ->)]; [split; assumption|].
  split; cbn [loans payments]; [|exact Hp].
  apply Forall_app. split; [exact Hl | constructor; [exact Hv | constructor]].
Qed.

Lemma postPayment_valid (pid : string) (s s' : Store) (req : PaymentRequest.t)
    (resp : Response) :
  validStore s -> postPayment pid s req = (resp, s') -> validStore s'.
Proof.
  intros [Hl Hp] Hc. apply postPayment_outcome in Hc.
  destruct Hc as [resp Hc | loan Hfl Hact Hnan Hpos Hgt Hpv Hlv | loan Hfl Hact Hgt Hpv Hlv].
  - split; assumption.
  - split; cbn [loans payments].
    + apply Forall_replaceFirst; assumption.
    + apply Forall_app. split; [exact Hp | constructor; [exact Hpv | constructor]].
  - split; cbn [loans payments]; [exact Hl|].
    apply Forall_app. split; [exact Hp | constructor; [exact Hpv | constructor]].
Qed.

(** * Further properties of the server *)

(** ** Accepted loan requests *)

Lemma whole_term_value (t : Q) : isWhole t = true -> t == inject_Z (Qfloor t).
Proof. unfold isWhole. intro H. qprop. exact H. Qed.

(** A whole term may be written as any rational that equals it. *)
Lemma loanDetails_whole_term (P r t : Q) :
  0 < r -> isWhole t = true -> 1 <= t ->
  loanDetails (Finite P) (Finite r) (Finite t)
  = loanDetails (Finite P) (Finite r) (num (Qfloor t)).
Proof.
  intros Hr Hw Ht.
  pose proof (whole_ge_1 t Hw Ht) as Hn.
  pose proof (whole_term_value t Hw) as Et.
  assert (calculateMonthlyPayment (Finite P) (Finite r) (Finite t)
          = calculateMonthlyPayment (Finite P) (Finite r) (num (Qfloor t))) as Ec.
  { unfold calculateMonthlyPayment. rewrite monthlyRate_finite.
    pose proof (monthlyRateOf_pos r Hr) as Hm.
    assert (nstricteq (Finite (monthlyRateOf r)) (num 0) = false) as ->.
    { unfold nstricteq, num. qprop. change (inject_Z 0) with 0. lra. }
    change (nadd (num 1) (Finite (monthlyRateOf r)))
      with (Finite (1 + monthlyRateOf r)).
    rewrite Math_pow_whole_term by (try assumption; lra).
    rewrite Math_pow_whole by (try lra; lia).
    reflexivity. }
  unfold loanDetails. rewrite Ec.
  rewrite (calculateMonthlyPayment_annuity P r (Qfloor t) Hr Hn). cbn [bind].
  set (a := round2 (annuity P (monthlyRateOf r) (Qfloor t))).
  change (Return (Finite a, Finite (round2 (a * t)))
          = Return (Finite a, Finite (round2 (a * inject_Z (Qfloor t))))).
  rewrite (round2_comp (a * t) (a * inject_Z (Qfloor t))); [reflexivity|].
  apply Qmult_comp; [reflexivity | exact Et].
Qed.

Lemma nle_finite (x y : Q) : x <= y -> nle (Finite x) (Finite y) = true.
Proof. intro H. simpl. qprop. exact H. Qed.

(** The loan of a request in range passes the schema. *)
Lemma Loan_validate_in_range (id cust : string) (p r t mp total : Q) :
  nonEmpty id = true -> nonEmpty cust = true ->
  1000 <= p -> p <= 100000000 ->
  (1 # 10) <= r -> r <= 50 ->
  1 <= t -> t <= 360 ->
  1 <= mp -> 1 <= total ->
  Loan_validate
    (Loan.mk id cust (Finite p) (Finite r) (Finite t) ACTIVE
       (Finite mp) (Finite total) (Finite total)) = true.
Proof.
  intros Hid Hc Hp1 Hp2 Hr1 Hr2 Ht1 Ht2 Hmp Htot.
  unfold Loan_validate, nge, num.
  cbn [Loan.loanId Loan.customerId Loan.amount Loan.interestRate Loan.term
       Loan.monthlyPayment Loan.totalAmount Loan.remainingBalance].
  rewrite Hid, Hc.
  rewrite !nle_finite; try reflexivity; try assumption.
  change (inject_Z 0) with 0. lra.
Qed.

Lemma find_app_fresh (id : string) (l : Loan.t) (ls : list Loan.t) :
  existsb (fun x => String.eqb (Loan.loanId x) id) ls = false ->
  Loan.loanId l = id ->
  find (fun x => String.eqb (Loan.loanId x) id) (ls ++ [l]) = Some l.
Proof.
  intros Hf Hid. induction ls as [|y ls IH]; simpl in *.
  - rewrite Hid, String.eqb_refl. reflexivity.
  - apply orb_false_iff in Hf. destruct Hf as [Hy Hf]. rewrite Hy. exact (IH Hf).
Qed.

Lemma find_app_old (id : string) (l y : Loan.t) (ls : list Loan.t) :
  find (fun x => String.eqb (Loan.loanId x) id) ls = Some y ->
  find (fun x => String.eqb (Loan.loanId x) id) (ls ++ [l]) = Some y.
Proof.
  induction ls as [|z ls IH]; simpl; [discriminate|].
  destruct (String.eqb (Loan.loanId z) id); [trivial | exact IH].
Qed.

(** The figures of a loan in range. *)
Lemma loanDetails_in_range (p r t : Q) :
  1000 <= p -> (1 # 10) <= r -> isWhole t = true -> 1 <= t -> t <= 360 ->
  exists mp total,
    loanDetails (Finite p) (Finite r) (Finite t) = Return (Finite mp, Finite total)
    /\ mp = round2 (annuity p (monthlyRateOf r) (Qfloor t))
    /\ total == mp * t
    /\ 1 <= mp /\ p < total.
Proof.
  intros Hp Hr Hw Ht1 Ht2.
  pose proof (whole_ge_1 t Hw Ht1) as Hn.
  pose proof (whole_term_value t Hw) as Et.
  rewrite loanDetails_whole_term by (try assumption; lra).
  destruct (loanDetails_valid p r (Qfloor t) Hp Hr Hn)
    as (mp & total & Hd & Emp & Etot & Hmp & Hgt).
  exists mp, total. split; [exact Hd|]. split; [exact Emp|].
  assert (total == mp * t) as Etot'.
  { rewrite Etot. apply Qmult_comp; [reflexivity | symmetry; exact Et]. }
  split; [exact Etot'|]. split; [|exact Hgt].
  (* 360 payments of less than 1 would not repay 1000 *)
  destruct (Qlt_le_dec mp 1) as [Hlt|Hge]; [|exact Hge].
  exfalso.
  assert (mp * t <= 1 * t) as H by (apply Qmult_le_compat_r; lra).
  lra.
Qed.

(** A request in range, for a customer who exists and under a fresh
    identifier, is accepted. *)
Lemma createLoan_in_range (newLoanId : string) (s : Store)
    (body : LoanBody.t) (c : Customer.t) (p r t : Q) :
  nonEmpty newLoanId = true ->
  nonEmpty (LoanBody.customerId body) = true ->
  Customer_findOne s (LoanBody.customerId body) = Some c ->
  existsb (fun x => String.eqb (Loan.loanId x) newLoanId) (loans s) = false ->
  LoanBody.amount body = JNum (Finite p) ->
  LoanBody.interestRate body = JNum (Finite r) ->
  LoanBody.term body = JNum (Finite t) ->
  1000 <= p -> p <= 100000000 ->
  (1 # 10) <= r -> r <= 50 ->
  isWhole t = true -> 1 <= t -> t <= 360 ->
  exists mp total,
    createLoan newLoanId s body
    = (Resp 201 "Loan created successfully",
       mkStore (customers s)
         (loans s ++ [Loan.mk newLoanId (LoanBody.customerId body) (Finite p)
                        (Finite r) (Finite t) ACTIVE (Finite mp) (Finite total)
                        (Finite total)])
         (payments s))
    /\ 1 <= mp /\ p < total /\ total == mp * t.
Proof.
  intros Hid Hcid Hc Hfresh Ea Er Et Hp1 Hp2 Hr1 Hr2 Hw Ht1 Ht2.
  destruct (loanDetails_in_range p r t Hp1 Hr1 Hw Ht1 Ht2)
    as (mp & total & Hd & _ & Etot & Hmp & Hgt).
  exists mp, total.
  assert (truthy (JNum (Finite p)) = true) as Tp
    by (simpl; apply negb_true_iff; qprop; lra).
  assert (truthy (JNum (Finite r)) = true) as Tr
    by (simpl; apply negb_true_iff; qprop; lra).
  assert (truthy (JNum (Finite t)) = true) as Tt
    by (simpl; apply negb_true_iff; qprop; lra).
  assert (nlt (Finite p) (num 1000) = false) as Hmin
    by (simpl; qprop; change (inject_Z 1000) with 1000; lra).
  split; [|split; [exact Hmp|split; [exact Hgt|exact Etot]]].
  unfold createLoan, global_isNaN, Loan_insert.
  rewrite Ea, Er, Et, Hcid, Tp, Tr, Tt. cbn [ToNumber isNaN negb orb].
  rewrite Hmin, Hc, Hd. cbn [bind].
  rewrite Loan_validate_in_range by (try assumption; lra).
  cbn [negb Loan.loanId]. rewrite Hfresh. reflexivity.
Qed.

(** X1.  A request to create a loan that is in the ranges of the schema
    (principal 1000 to 100000000, rate 0.1 to 50, a whole term of 1 to 360
    months), for a customer who exists and under a fresh identifier, is
    accepted.  The loan is appended and nothing else changes; it is ACTIVE,
    owes its whole total, which is above the principal, and
    [GET /api/v1/loans/:loanId] then returns it together with its customer. *)
Theorem createLoan_accepts_request_in_range (newLoanId : string) (s : Store)
    (body : LoanBody.t) (c : Customer.t) (p r t : Q) :
  nonEmpty newLoanId = true ->
  nonEmpty (LoanBody.customerId body) = true ->
  Customer_findOne s (LoanBody.customerId body) = Some c ->
  existsb (fun x => String.eqb (Loan.loanId x) newLoanId) (loans s) = false ->
  LoanBody.amount body = JNum (Finite p) ->
  LoanBody.interestRate body = JNum (Finite r) ->
  LoanBody.term body = JNum (Finite t) ->
  1000 <= p -> p <= 100000000 ->
  (1 # 10) <= r -> r <= 50 ->
  isWhole t = true -> 1 <= t -> t <= 360 ->
  exists mp total,
    let loan := Loan.mk newLoanId (LoanBody.customerId body) (Finite p)
                  (Finite r) (Finite t) ACTIVE (Finite mp) (Finite total)
                  (Finite total) in
    let s' := mkStore (customers s) (loans s ++ [loan]) (payments s) in
    createLoan newLoanId s body = (Resp 201 "Loan created successfully", s')
    /\ 1 <= mp /\ p < total /\ total == mp * t
    /\ getLoan s' newLoanId = (Resp 200 "", Some (loan, Some c)).
Proof.
  intros Hid Hcid Hc Hfresh Ea Er Et Hp1 Hp2 Hr1 Hr2 Hw Ht1 Ht2.
  destruct (createLoan_in_range newLoanId s body c p r t Hid Hcid Hc Hfresh
              Ea Er Et Hp1 Hp2 Hr1 Hr2 Hw Ht1 Ht2)
    as (mp & total & Hcreate & Hmp & Hgt & Etot).
  exists mp, total. cbv zeta.
  split; [exact Hcreate|]. split; [exact Hmp|]. split; [exact Hgt|].
  split; [exact Etot|].
  unfold getLoan, Loan_findOne. rewrite Hid. cbn [negb loans customers].
  rewrite find_app_fresh by (try assumption; reflexivity).
  cbn [Loan.customerId]. unfold Customer_findOne in *. cbn [customers].
  rewrite Hc. reflexivity.
Qed.

(** ** What a payment request can and cannot change *)

Lemma Loan_validate_applyPayment (l : Loan.t) (a : Number) :
  Loan_validate l = true ->
  nle (num 0) (Loan.remainingBalance (applyPayment l a)) = true ->
  Loan_validate (applyPayment l a) = true.
Proof.
  intros Hv H0.
  destruct (applyPayment_fields l a) as (E1 & E2 & E3 & E4 & E5 & E6 & E7).
  unfold Loan_validate, nge in *. rewrite E1, E2, E3, E4, E5, E6, E7, H0.
  split_andb. repeat (apply andb_true_iff; split); try assumption. reflexivity.
Qed.

(** On a valid loan with a finite balance an amount that passed the checks
    of the handler and of the payment schema leaves a valid loan. *)
Lemma applyPayment_valid (l : Loan.t) (a : Number) (b : Q) :
  Loan_validate l = true ->
  Loan.remainingBalance l = Finite b ->
  ngt a (Finite b) = false ->
  nle (num 1) a = true ->
  exists x, a = Finite x /\ 1 <= x /\ x <= b
            /\ Loan_validate (applyPayment l a) = true
            /\ Loan.remainingBalance (applyPayment l a) =n= Finite (round2 (b - x)).
Proof.
  intros Hv Hb Hgt H1. unfold ngt in Hgt.
  destruct a as [x| | |]; simpl in Hgt, H1; try discriminate.
  qprop. change (inject_Z 1) with 1 in H1.
  exists x. split; [reflexivity|]. split; [exact H1|]. split; [exact Hgt|].
  assert (0 <= round2 (b - x)) as Hr by (apply round2_nonneg; lra).
  destruct (applyPayment_finite l b x Hb ltac:(lra) Hgt)
    as [(Hle & Hs & Hn) | (Hpos & Hs & Hn)].
  - split.
    + apply Loan_validate_applyPayment; [exact Hv|]. rewrite Hn. reflexivity.
    + rewrite Hn. simpl. change (inject_Z 0) with 0. lra.
  - split.
    + apply Loan_validate_applyPayment; [exact Hv|]. rewrite Hn.
      apply nle_finite. change (inject_Z 0) with 0. lra.
    + rewrite Hn. simpl. reflexivity.
Qed.

Lemma paymentOf_fields (pid : string) (req : PaymentRequest.t) :
  Payment.paymentId (paymentOf pid req) = pid
  /\ Payment.loanId (paymentOf pid req) = PaymentRequest.loanId req
  /\ Payment.amount (paymentOf pid req) = ToNumber (PaymentRequest.amount req)
  /\ Payment.status (paymentOf pid req) = completed.
Proof. repeat split; reflexivity. Qed.

(** The payments after a request: as before, or with the record of the
    request appended under an identifier that was not there. *)
Lemma postPayment_payments (pid : string) (s s' : Store)
    (req : PaymentRequest.t) (resp : Response) :
  postPayment pid s req = (resp, s') ->
  customers s' = customers s
  /\ (s' = s
      \/ (payments s' = (payments s ++ [paymentOf pid req])%list
          /\ existsb (fun p => String.eqb (Payment.paymentId p) pid) (payments s)
             = false
          /\ Payment_validate (paymentOf pid req) = true)).
Proof.
  unfold postPayment.
  destruct (_ || _ || _ || _); [intro H; inversion H; auto|].
  destruct (_ || _); [intro H; inversion H; auto|].
  destruct (Loan_findOne s _) as [loan|]; [|intro H; inversion H; auto].
  destruct (LoanStatus_eqb _ _); [intro H; inversion H; auto|].
  destruct (ngt _ _); [intro H; inversion H; auto|].
  unfold Payment_save.
  destruct (Payment_validate _) eqn:Ev; cbn [negb]; [|intro H; inversion H; auto].
  change (Payment.paymentId (paymentOf pid req)) with pid.
  destruct (existsb _ (payments s)); [intro H; inversion H; auto|].
  unfold Loan_save.
  destruct (Loan_validate _); cbn [negb]; intro H; inversion H; subst; cbn;
    (split; [reflexivity | right; auto]).
Qed.

Lemma createLoan_fresh (id : string) (s s' : Store) (body : LoanBody.t)
    (resp : Response) :
  createLoan id s body = (resp, s') ->
  s' = s
  \/ exists l, Loan.loanId l = id
               /\ existsb (fun x => String.eqb (Loan.loanId x) id) (loans s) = false
               /\ s' = mkStore (customers s) (loans s ++ [l]) (payments s).
Proof.
  unfold createLoan.
  destruct (_ || _ || _ || _); [intro H; inversion H; auto|].
  destruct (_ || _ || _); [intro H; inversion H; auto|].
  destruct (nlt _ _); [intro H; inversion H; auto|].
  destruct (Customer_findOne s _); [|intro H; inversion H; auto].
  destruct (loanDetails_returns (ToNumber (LoanBody.amount body))
              (ToNumber (LoanBody.interestRate body))
              (ToNumber (LoanBody.term body))) as (mp & total & _ & Hd & _).
  rewrite Hd. cbn [bind]. unfold Loan_insert.
  destruct (Loan_validate _); cbn [negb]; [|intro H; inversion H; auto].
  cbn [Loan.loanId].
  destruct (existsb _ (loans s)) eqn:Ed; intro H; inversion H; subst; auto.
  right.
  exists (Loan.mk id (LoanBody.customerId body) (ToNumber (LoanBody.amount body))
            (ToNumber (LoanBody.interestRate body))
            (ToNumber (LoanBody.term body)) ACTIVE mp total total).
  split; [reflexivity|]. split; reflexivity.
Qed.

Lemma map_replaceFirst {B} (f : Loan.t -> B) (id : string) (l l' : Loan.t)
    (ls : list Loan.t) :
  find (fun x => String.eqb (Loan.loanId x) id) ls = Some l ->
  f l' = f l ->
  map f (replaceFirst id l' ls) = map f ls.
Proof.
  intros Hf Hl. induction ls as [|y ls IH]; simpl in *; [reflexivity|].
  destruct (String.eqb (Loan.loanId y) id); simpl.
  - inversion Hf; subst y. rewrite Hl. reflexivity.
  - rewrite (IH Hf). reflexivity.
Qed.

Lemma existsb_not_In (id : string) (ls : list Loan.t) :
  existsb (fun x => String.eqb (Loan.loanId x) id) ls = false ->
  ~ In id (map Loan.loanId ls).
Proof.
  intros H Hin. apply in_map_iff in Hin. destruct Hin as (x & Hx & Hin).
  assert (existsb (fun x => String.eqb (Loan.loanId x) id) ls = true) as E.
  { apply existsb_exists. exists x. split; [exact Hin|]. apply String.eqb_eq. exact Hx. }
  congruence.
Qed.

Lemma existsb_payment_not_In (id : string) (ps : list Payment.t) :
  existsb (fun x => String.eqb (Payment.paymentId x) id) ps = false ->
  ~ In id (map Payment.paymentId ps).
Proof.
  intros H Hin. apply in_map_iff in Hin. destruct Hin as (x & Hx & Hin).
  assert (existsb (fun x => String.eqb (Payment.paymentId x) id) ps = true) as E.
  { apply existsb_exists. exists x. split; [exact Hin|]. apply String.eqb_eq. exact Hx. }
  congruence.
Qed.

Lemma NoDup_snoc {A} (x : A) (xs : list A) :
  NoDup xs -> ~ In x xs -> NoDup (xs ++ [x]).
Proof.
  intros Hnd Hx. induction Hnd as [|y ys Hy Hnd IH]; simpl.
  - constructor; [intros []|constructor].
  - constructor.
    + intro Hin. apply in_app_or in Hin. destruct Hin as [Hin | [E | []]].
      * contradiction.
      * apply Hx. left. symmetry. exact E.
    + apply IH. intro Hin. apply Hx. right. exact Hin.
Qed.

(** The loans after a payment request: the same identifiers in the same
    order. *)
Lemma postPayment_loanIds (pid : string) (s s' : Store) (req : PaymentRequest.t)
    (resp : Response) :
  postPayment pid s req = (resp, s') ->
  map Loan.loanId (loans s') = map Loan.loanId (loans s).
Proof.
  intro Hp. apply postPayment_outcome in Hp.
  destruct Hp as [resp Hc | loan Hfl Hact Hnan Hpos Hgt Hpv Hlv
                 | loan Hfl Hact Hgt Hpv Hlv]; cbn [loans]; try reflexivity.
  apply (map_replaceFirst Loan.loanId _ loan); [exact Hfl|].
  apply applyPayment_fields.
Qed.

(** X2.  The two POST handlers keep the identifiers unique: in a store where
    no two loans share a [loanId] and no two payments a [paymentId], neither
    a loan creation nor a payment request, whatever its outcome, produces a
    duplicate. *)
Theorem handlers_keep_ids_unique (s : Store) :
  uniqueIds s ->
  (forall newLoanId body resp s',
      createLoan newLoanId s body = (resp, s') -> uniqueIds s')
  /\ (forall newPaymentId req resp s',
        postPayment newPaymentId s req = (resp, s') -> uniqueIds s').
Proof.
  intros [Hl Hp]. split.
  - intros id body resp s' Hc. apply createLoan_fresh in Hc.
    destruct Hc as [-> | (l & Hid & Hf & ->)]; [split; assumption|].
    split; cbn [loans payments]; [|exact Hp].
    rewrite map_app. cbn [map]. rewrite Hid.
    apply NoDup_snoc; [exact Hl | apply existsb_not_In; exact Hf].
  - intros pid req resp s' Hq. split.
    + rewrite (postPayment_loanIds pid s s' req resp Hq). exact Hl.
    + apply postPayment_payments in Hq.
      destruct Hq as [_ [-> | (E & Hf & _)]]; [exact Hp|].
      rewrite E, map_app. cbn [map].
      change (Payment.paymentId (paymentOf pid req)) with pid.
      apply NoDup_snoc; [exact Hp | apply existsb_payment_not_In; exact Hf].
Qed.

(** X3.  The two POST handlers keep the documents valid: in a store where
    every loan and every payment passes its schema, the same holds after a
    loan creation and after a payment request, whatever its outcome. *)
Theorem handlers_keep_documents_valid (s : Store) :
  validStore s ->
  (forall newLoanId body resp s',
      createLoan newLoanId s body = (resp, s') -> validStore s')
  /\ (forall newPaymentId req resp s',
        postPayment newPaymentId s req = (resp, s') -> validStore s').
Proof.
  intro Hv. split.
  - intros id body resp s' Hc. exact (createLoan_valid id s s' body resp Hv Hc).
  - intros pid req resp s' Hp. exact (postPayment_valid pid s s' req resp Hv Hp).
Qed.

(** One request and some loan: the loan is still there, and everything but
    its balance and status is as before. *)
Lemma postPayment_keeps_loan (id pid : string) (s s' : Store)
    (req : PaymentRequest.t) (resp : Response) (l : Loan.t) :
  Loan_findOne s id = Some l ->
  postPayment pid s req = (resp, s') ->
  exists l',
    Loan_findOne s' id = Some l'
    /\ (l' = l
        \/ (id = PaymentRequest.loanId req /\ Loan.status l = ACTIVE
            /\ code resp = 201%nat
            /\ l' = applyPayment l (ToNumber (PaymentRequest.amount req)))).
Proof.
  intros Hf Hp. apply postPayment_outcome in Hp.
  destruct Hp as [resp Hc | loan Hfl Hact Hnan Hpos Hgt Hpv Hlv
                 | loan Hfl Hact Hgt Hpv Hlv].
  - exists l. auto.
  - unfold Loan_findOne in *. cbn [loans].
    destruct (string_dec id (PaymentRequest.loanId req)) as [E | Hne].
    + rewrite <- E in *. rewrite Hf in Hfl. inversion Hfl; subst loan.
      eexists. split.
      * eapply find_replaceFirst_same; [exact Hf|].
        destruct (applyPayment_fields l (ToNumber (PaymentRequest.amount req)))
          as (Hid & _).
        rewrite Hid. eapply find_loanId. exact Hf.
      * right. auto.
    + exists l. split; [|left; reflexivity].
      rewrite find_replaceFirst_other; [exact Hf | exact Hne |].
      destruct (applyPayment_fields loan (ToNumber (PaymentRequest.amount req)))
        as (Hid & _).
      rewrite Hid. eapply find_loanId. exact Hfl.
  - exists l. auto.
Qed.

(** X4.  PAID_OFF is terminal: once a loan is paid off, no sequence of
    payment requests, against this loan or any other, changes any field of
    it. *)
Theorem paid_off_loan_never_changes (s s' : Store) (id : string) (l : Loan.t) :
  Loan_findOne s id = Some l ->
  Loan.status l = PAID_OFF ->
  PaymentRun s s' ->
  Loan_findOne s' id = Some l.
Proof.
  intros Hf Hs Hrun. induction Hrun as [s | s s1 s2 pid req resp Hrun IH Hstep].
  - exact Hf.
  - destruct (postPayment_keeps_loan id pid s1 s2 req resp l (IH Hf) Hstep)
      as (l' & Hf' & [-> | (_ & Hact & _)]); [exact Hf'|].
    rewrite Hs in Hact. discriminate.
Qed.

(** X5.  Payments touch nothing but the balance and the status: after any
    sequence of payment requests a loan is still found under its
    identifier with the same customer, principal, rate, term, monthly
    payment and total amount, and the customers and the number of loans are
    as before. *)
Theorem payments_change_only_balance_and_status (s s' : Store) (id : string)
    (l : Loan.t) :
  Loan_findOne s id = Some l ->
  PaymentRun s s' ->
  customers s' = customers s
  /\ List.length (loans s') = List.length (loans s)
  /\ exists l',
       Loan_findOne s' id = Some l'
       /\ Loan.loanId l' = Loan.loanId l
       /\ Loan.customerId l' = Loan.customerId l
       /\ Loan.amount l' = Loan.amount l
       /\ Loan.interestRate l' = Loan.interestRate l
       /\ Loan.term l' = Loan.term l
       /\ Loan.monthlyPayment l' = Loan.monthlyPayment l
       /\ Loan.totalAmount l' = Loan.totalAmount l.
Proof.
  intros Hf Hrun. induction Hrun as [s | s s1 s2 pid req resp Hrun IH Hstep].
  - split; [reflexivity|]. split; [reflexivity|]. exists l. repeat split. exact Hf.
  - destruct (IH Hf) as (Hc & Hlen & l1 & Hf1 & E1 & E2 & E3 & E4 & E5 & E6 & E7).
    split; [|split].
    + destruct (postPayment_payments pid s1 s2 req resp Hstep) as [Hc' _]. congruence.
    + pose proof (postPayment_loanIds pid s1 s2 req resp Hstep) as Hids.
      apply (f_equal (@List.length string)) in Hids.
      rewrite !length_map in Hids. congruence.
    + destruct (postPayment_keeps_loan id pid s1 s2 req resp l1 Hf1 Hstep)
        as (l2 & Hf2 & [-> | (_ & _ & _ & ->)]).
      * exists l1. repeat split; assumption.
      * destruct (applyPayment_fields l1 (ToNumber (PaymentRequest.amount req)))
          as (F1 & F2 & F3 & F4 & F5 & F6 & F7).
        eexists. split; [exact Hf2|]. repeat split; congruence.
Qed.

(** X6.  No partial update: when the loan a request names is valid and its
    balance is a finite number, a request that is not accepted leaves the
    whole store as it was; the payment record is never saved without the
    balance being updated. *)
Theorem refused_payment_is_atomic (newPaymentId : string) (s s' : Store)
    (req : PaymentRequest.t) (resp : Response) :
  (forall loan, Loan_findOne s (PaymentRequest.loanId req) = Some loan ->
                Loan_validate loan = true
                /\ isFinite (Loan.remainingBalance loan) = true) ->
  postPayment newPaymentId s req = (resp, s') ->
  code resp <> 201%nat ->
  s' = s.
Proof.
  intros Hwf Hp Hcode. apply postPayment_outcome in Hp.
  destruct Hp as [resp Hc | loan Hfl Hact Hnan Hpos Hgt Hpv Hlv
                 | loan Hfl Hact Hgt Hpv Hlv].
  - reflexivity.
  - exfalso. apply Hcode. reflexivity.
  - exfalso. destruct (Hwf loan Hfl) as [Hv Hfin].
    destruct (Loan.remainingBalance loan) as [b| | |] eqn:Hb; try discriminate.
    apply Payment_validate_amount in Hpv.
    change (Payment.amount (paymentOf newPaymentId req))
      with (ToNumber (PaymentRequest.amount req)) in Hpv.
    destruct (applyPayment_valid loan _ b Hv Hb Hgt Hpv) as (x & _ & _ & _ & Hv' & _).
    congruence.
Qed.

(** ** The books of a loan *)

Lemma round2_of_cents (q : Q) (z : Z) : q * 100 == inject_Z z -> round2 q == q.
Proof.
  intro H. unfold round2.
  assert (Qfloor (q * 100 + (1 # 2)) = z) as ->.
  { rewrite <- (Qfloor_half_whole z). apply Qfloor_comp. rewrite H. reflexivity. }
  rewrite <- H. field.
Qed.

Lemma cents_minus (b x : Q) (z w : Z) :
  b * 100 == inject_Z z -> x * 100 == inject_Z w ->
  (b - x) * 100 == inject_Z (z - w).
Proof.
  intros Hb Hx. unfold Z.sub. rewrite inject_Z_plus, inject_Z_opp, <- Hb, <- Hx. ring.
Qed.

(** X8.  A payment in whole hundredths against a balance in whole
    hundredths lowers the balance by exactly its amount, without rounding,
    and the loan becomes PAID_OFF exactly when the amount is the whole
    balance. *)
Theorem payment_in_cents_lowers_balance_exactly (l : Loan.t) (b x : Q) (z w : Z) :
  Loan.status l = ACTIVE ->
  Loan.remainingBalance l = Finite b ->
  b * 100 == inject_Z z ->
  x * 100 == inject_Z w ->
  0 < x -> x <= b ->
  Loan.remainingBalance (applyPayment l (Finite x)) =n= Finite (b - x)
  /\ (Loan.status (applyPayment l (Finite x)) = PAID_OFF <-> x == b).
Proof.
  intros Hact Hb Hz Hw Hx Hxb.
  pose proof (round2_of_cents (b - x) (z - w) (cents_minus b x z w Hz Hw)) as Hr.
  destruct (applyPayment_finite l b x Hb Hx Hxb)
    as [(Hle & Hs & Hn) | (Hpos & Hs & Hn)]; rewrite Hs, Hn.
  - split.
    + simpl. change (inject_Z 0) with 0. lra.
    + split; intro; [lra | reflexivity].
  - split.
    + simpl. exact Hr.
    + rewrite Hact. split; intro H; [discriminate | lra].
Qed.

Lemma sumOf_snoc (xs : list Number) (a : Number) :
  sumOf (xs ++ [a]) = nadd (sumOf xs) a.
Proof. unfold sumOf. rewrite fold_left_app. reflexivity. Qed.

Lemma Payment_find_snoc (s : Store) (cs : list Customer.t) (ls : list Loan.t)
    (p : Payment.t) (id : string) :
  Payment_find (mkStore cs ls (payments s ++ [p])) id
  = if String.eqb (Payment.loanId p) id
    then (Payment_find s id ++ [p])%list
    else Payment_find s id.
Proof.
  unfold Payment_find. cbn [payments]. rewrite filter_app. cbn [filter].
  destruct (String.eqb (Payment.loanId p) id); [reflexivity | apply app_nil_r].
Qed.

Lemma paidTo_snoc (s : Store) (cs : list Customer.t) (ls : list Loan.t)
    (p : Payment.t) (id : string) :
  paidTo (mkStore cs ls (payments s ++ [p])) id
  = if String.eqb (Payment.loanId p) id
    then nadd (paidTo s id) (Payment.amount p)
    else paidTo s id.
Proof.
  unfold paidTo. rewrite Payment_find_snoc.
  destruct (String.eqb (Payment.loanId p) id); [|reflexivity].
  rewrite map_app. cbn [map]. apply sumOf_snoc.
Qed.

Lemma find_app_none (id : string) (l : Loan.t) (ls : list Loan.t) :
  find (fun x => String.eqb (Loan.loanId x) id) ls = None ->
  find (fun x => String.eqb (Loan.loanId x) id) (ls ++ [l])
  = if String.eqb (Loan.loanId l) id then Some l else None.
Proof.
  induction ls as [|y ls IH]; simpl; [reflexivity|].
  destruct (String.eqb (Loan.loanId y) id); [discriminate | exact IH].
Qed.

Lemma filter_none {A} (f : A -> bool) (xs : list A) :
  (forall x, In x xs -> f x = false) -> filter f xs = [].
Proof.
  induction xs as [|x xs IH]; intro H; simpl; [reflexivity|].
  rewrite (H x (or_introl eq_refl)). apply IH. intros y Hy. apply H. right. exact Hy.
Qed.

Lemma booksInv_createLoan (id : string) (s s' : Store) (body : LoanBody.t)
    (resp : Response) :
  booksInv s ->
  wholeMonths (ToNumber (LoanBody.term body)) = true ->
  createLoan id s body = (resp, s') ->
  booksInv s'.
Proof.
  intros (Hv & Hg & Horph & Hbooks) Hw Hc.
  pose proof (createLoan_valid id s s' body resp Hv Hc) as Hv'.
  pose proof (createLoan_grid id s s' body resp Hw Hc) as Hgrid.
  apply createLoan_fresh in Hc.
  destruct Hc as [-> | (l & Hid & Hfresh & ->)];
    [exact (conj Hv (conj Hg (conj Horph Hbooks)))|].
  destruct Hgrid as [E | (l2 & El & Hgl & _ & Hrb)].
  { exfalso. apply (f_equal (fun st => List.length (loans st))) in E.
    cbn [loans] in E. rewrite length_app in E. simpl in E. lia. }
  cbn [loans] in El. apply app_inv_head in El. inversion El; subst l2.
  split; [exact Hv'|]. split; [|split].
  - cbn [loans]. apply Forall_app. split; [exact Hg | constructor; [exact Hgl | constructor]].
  - intros p Hin. cbn [payments] in Hin. specialize (Horph p Hin).
    unfold Loan_findOne in *. cbn [loans].
    destruct (find _ (loans s)) as [y|] eqn:Ey; [|contradiction].
    rewrite (find_app_old _ l y _ Ey). discriminate.
  - intros id0 l0 Hf0. unfold Loan_findOne in Hf0. cbn [loans] in Hf0.
    destruct (find (fun x => String.eqb (Loan.loanId x) id0) (loans s)) as [y|] eqn:Ey.
    + rewrite (find_app_old _ l y _ Ey) in Hf0. inversion Hf0; subst y.
      exact (Hbooks id0 l0 Ey).
    + rewrite (find_app_none _ l _ Ey) in Hf0.
      destruct (String.eqb (Loan.loanId l) id0) eqn:E0; [|discriminate].
      inversion Hf0; subst l0. apply String.eqb_eq in E0.
      destruct Hgl as (_ & (T & zT & HT & _) & _).
      exists T, 0, T. rewrite Hrb. split; [exact HT|]. split; [|split; [exact HT | ring]].
      unfold paidTo, Payment_find. cbn [payments]. rewrite filter_none; [reflexivity|].
      intros p Hin. apply String.eqb_neq. intro Ep.
      apply (Horph p Hin). unfold Loan_findOne. rewrite Ep, E0. exact Ey.
Qed.

Lemma booksInv_postPayment (pid : string) (s s' : Store) (req : PaymentRequest.t)
    (resp : Response) :
  booksInv s ->
  centAmount req ->
  postPayment pid s req = (resp, s') ->
  booksInv s'.
Proof.
  intros (Hv & Hg & Horph & Hbooks) Hcent Hp.
  pose proof (postPayment_valid pid s s' req resp Hv Hp) as Hv'.
  pose proof (postPayment_grid pid s s' req resp Hg Hp) as Hg'.
  assert (forall id l, Loan_findOne s id = Some l ->
                       Loan_findOne s' id <> None) as Hkeep.
  { intros id l Hf.
    destruct (postPayment_keeps_loan id pid s s' req resp l Hf Hp) as (l' & Hf' & _).
    rewrite Hf'. discriminate. }
  apply postPayment_outcome in Hp.
  destruct Hp as [resp Hc | loan Hfl Hact Hnan Hpos Hgt Hpv Hlv
                 | loan Hfl Hact Hgt Hpv Hlv].
  - exact (conj Hv (conj Hg (conj Horph Hbooks))).
  - (* accepted *)
    set (id0 := PaymentRequest.loanId req) in *.
    set (a := ToNumber (PaymentRequest.amount req)) in *.
    pose proof (find_loanId _ _ _ Hfl) as Hlid.
    assert (In loan (loans s)) as Hin by (apply (find_some _ _ Hfl)).
    destruct Hv as [Hvl _]. rewrite Forall_forall in Hvl, Hg.
    pose proof (Hvl loan Hin) as Hvloan.
    destruct (Hg loan Hin) as (_ & _ & (b & z & Hb & Hz)).
    rewrite Hb in Hgt.
    destruct (applyPayment_valid loan a b Hvloan Hb Hgt (Payment_validate_amount _ Hpv))
      as (x & Ea & Hx1 & Hxb & _ & Hrb').
    destruct (Hcent x Ea) as [w Hw].
    pose proof (round2_of_cents (b - x) (z - w) (cents_minus b x z w Hz Hw)) as Hr.
    destruct (applyPayment_fields loan a) as (F1 & _ & _ & _ & _ & _ & F7).
    split; [exact Hv'|]. split; [exact Hg'|]. split.
    + intros p Hinp. cbn [payments] in Hinp. apply in_app_or in Hinp.
      destruct Hinp as [Hold | [<- | []]].
      * specialize (Horph p Hold).
        destruct (Loan_findOne s (Payment.loanId p)) as [y|] eqn:Ey; [|contradiction].
        exact (Hkeep _ y Ey).
      * exact (Hkeep _ loan Hfl).
    + intros id l0 Hf0. unfold Loan_findOne in Hf0. cbn [loans] in Hf0.
      unfold booksBalance. rewrite paidTo_snoc.
      change (Payment.loanId (paymentOf pid req)) with id0.
      change (Payment.amount (paymentOf pid req)) with a.
      destruct (string_dec id id0) as [E | Hne].
      * subst id.
        rewrite (find_replaceFirst_same id0 loan (applyPayment loan a) (loans s) Hfl)
          in Hf0 by congruence.
        inversion Hf0; subst l0. rewrite F1, F7, Hlid, String.eqb_refl.
        destruct (Hbooks id0 loan Hfl) as (b0 & paid & T & Hb0 & Hpaid & HT & Hsum).
        rewrite Hlid in Hpaid. rewrite Hb in Hb0. inversion Hb0; subst b0.
        destruct (Loan.remainingBalance (applyPayment loan a)) as [b'| | |];
          simpl in Hrb'; try contradiction.
        exists b', (paid + x), T. split; [reflexivity|].
        split; [rewrite Hpaid, Ea; reflexivity|]. split; [exact HT|]. lra.
      * rewrite find_replaceFirst_other in Hf0 by congruence.
        pose proof (find_loanId _ _ _ Hf0) as Hl0.
        rewrite Hl0.
        assert (String.eqb id0 id = false) as -> by (apply String.eqb_neq; congruence).
        pose proof (Hbooks id l0 Hf0) as Hold. unfold booksBalance in Hold.
        rewrite Hl0 in Hold. exact Hold.
  - (* the save of the loan cannot be refused here *)
    exfalso.
    assert (In loan (loans s)) as Hin by (apply (find_some _ _ Hfl)).
    destruct Hv as [Hvl _]. rewrite Forall_forall in Hvl, Hg.
    destruct (Hg loan Hin) as (_ & _ & (b & z & Hb & Hz)).
    rewrite Hb in Hgt.
    destruct (applyPayment_valid loan _ b (Hvl loan Hin) Hb Hgt
                (Payment_validate_amount _ Hpv)) as (x & _ & _ & _ & Hok & _).
    congruence.
Qed.

Lemma CentHistory_booksInv (s : Store) : CentHistory s -> booksInv s.
Proof.
  intro H. induction H as [s Hl Hp | s s' id body resp Hh IH Hw Hc
                           | s s' pid req resp Hh IH Hcent Hq].
  - unfold booksInv, validStore, Loan_findOne. rewrite Hl, Hp.
    repeat split; try constructor.
    + intros p [].
    + intros id l Hf. discriminate.
  - eapply booksInv_createLoan; eassumption.
  - eapply booksInv_postPayment; eassumption.
Qed.

(** X9.  The books balance.  In every store reached from the empty database
    by loan creations with whole terms and by payment requests with amounts
    in whole hundredths, for every loan the remaining balance plus the
    amounts of the payments recorded for it equals its total amount, and
    every recorded payment belongs to a loan that exists. *)
Theorem books_balance (s : Store) :
  CentHistory s ->
  (forall id l, Loan_findOne s id = Some l -> booksBalance s l)
  /\ (forall p, In p (payments s) -> Loan_findOne s (Payment.loanId p) <> None).
Proof.
  intro H. apply CentHistory_booksInv in H.
  destruct H as (_ & _ & Horph & Hbooks). split; assumption.
Qed.

(** ** Listing the payments of a loan *)







(** ** The dashboard *)

Lemma count_by_status (ls : list Loan.t) :
  (List.length (filter (fun l => LoanStatus_eqb (Loan.status l) ACTIVE) ls)
   + List.length (filter (fun l => LoanStatus_eqb (Loan.status l) PAID_OFF) ls))%nat
  = List.length ls.
Proof.
  induction ls as [|l ls IH]; [reflexivity|].
  cbn [filter]. destruct (Loan.status l); cbn [LoanStatus_eqb List.length]; lia.
Qed.

(** X11.  On the dashboard every loan is counted once by status: the number
    of ACTIVE loans and the number of PAID_OFF loans add up to the number of
    loans. *)
Theorem dashboard_counts_partition (s : Store) :
  (activeLoans (dashboard s) + paidOffLoans (dashboard s))%nat
  = totalLoans (dashboard s).
Proof.
  unfold dashboard, countDocuments. cbn [activeLoans paidOffLoans totalLoans].
  rewrite count_by_status.
  induction (loans s) as [|l ls IH]; [reflexivity|]. cbn [filter List.length].
  rewrite IH. reflexivity.
Qed.

Lemma filter_true_length {A} (xs : list A) :
  List.length (filter (fun _ => true) xs) = List.length xs.
Proof. induction xs as [|x xs IH]; [reflexivity|]. cbn. rewrite IH. reflexivity. Qed.

(** X12.  What an accepted payment does to the dashboard: in a store of valid
    documents, after a payment request answered with 201 the total collected
    has grown by the amount of the request, while the total loan amount and
    the numbers of loans and of customers are as before. *)
Theorem accepted_payment_on_dashboard (newPaymentId : string) (s s' : Store)
    (req : PaymentRequest.t) (resp : Response) :
  validStore s ->
  postPayment newPaymentId s req = (resp, s') ->
  code resp = 201%nat ->
  totalCollected (dashboard s')
  = nadd (totalCollected (dashboard s)) (ToNumber (PaymentRequest.amount req))
  /\ totalLoanAmount (dashboard s') = totalLoanAmount (dashboard s)
  /\ totalLoans (dashboard s') = totalLoans (dashboard s)
  /\ totalCustomers (dashboard s') = totalCustomers (dashboard s).
Proof.
  intros Hv Hp H201.
  pose proof (postPayment_valid _ _ _ _ _ Hv Hp) as Hv'.
  pose proof (postPayment_loanIds _ _ _ _ _ Hp) as Hids.
  assert (forall st, validStore st ->
            totalCollected (dashboard st)
            = sumOf (map Payment.amount
                       (filter (fun p => PaymentStatus_eqb (Payment.status p) completed)
                          (payments st)))) as Hcol.
  { intros st [_ Hps]. apply totalOrZero_groupSum. apply Forall_map.
    apply Forall_forall. intros p Hin. apply filter_In in Hin. destruct Hin as [Hin _].
    rewrite Forall_forall in Hps. apply Payment_validate_amount. apply Hps. exact Hin. }
  rewrite (Hcol s Hv), (Hcol s' Hv'). clear Hcol.
  apply postPayment_outcome in Hp.
  destruct Hp as [resp Hc | loan Hfl Hact Hnan Hpos Hgt Hpv Hlv
                 | loan Hfl Hact Hgt Hpv Hlv]; try (simpl in H201; congruence).
  split; [|split; [|split]].
  - cbn [payments]. rewrite filter_app. cbn [filter].
    change (Payment.status (paymentOf newPaymentId req)) with completed.
    cbn [PaymentStatus_eqb]. rewrite map_app. cbn [map]. apply sumOf_snoc.
  - unfold dashboard. cbn [totalLoanAmount loans].
    rewrite (map_replaceFirst Loan.amount _ loan); [reflexivity | exact Hfl |].
    apply applyPayment_fields.
  - unfold dashboard, countDocuments. cbn [totalLoans].
    rewrite !filter_true_length.
    apply (f_equal (@List.length string)) in Hids. rewrite !length_map in Hids.
    exact Hids.
  - reflexivity.
Qed.

(** ** Clearing the database *)

(** X13.  [POST /api/v1/database/clear] empties exactly the collections its
    array names and reports how many documents each held; a collection not
    named keeps its documents, and clearing again with the same array
    changes nothing and reports zero for each. *)
Theorem clearDatabase_clears_what_is_named (items : list JsValue) (s : Store) :
  exists r s',
    clearDatabase (AnArray items) s
    = (Resp 200 "Collections cleared successfully", r, s')
    /\ (if includesString items "customers"
        then customers s' = [] /\ customersDeleted r = Some (List.length (customers s))
        else customers s' = customers s /\ customersDeleted r = None)
    /\ (if includesString items "loans"
        then loans s' = [] /\ loansDeleted r = Some (List.length (loans s))
        else loans s' = loans s /\ loansDeleted r = None)
    /\ (if includesString items "payments"
        then payments s' = [] /\ paymentsDeleted r = Some (List.length (payments s))
        else payments s' = payments s /\ paymentsDeleted r = None)
    /\ exists r',
         clearDatabase (AnArray items) s'
         = (Resp 200 "Collections cleared successfully", r', s')
         /\ (customersDeleted r' = None \/ customersDeleted r' = Some 0%nat)
         /\ (loansDeleted r' = None \/ loansDeleted r' = Some 0%nat)
         /\ (paymentsDeleted r' = None \/ paymentsDeleted r' = Some 0%nat).
Proof.
  eexists. eexists. split; [reflexivity|]. cbn [clearDatabase].
  destruct (includesString items "customers"),
           (includesString items "loans"),
           (includesString items "payments"); cbn;
    repeat split; try reflexivity;
    (eexists; split; [destruct s; reflexivity|]; cbn; auto).
Qed.

(** X14.  Clearing the loans does not clear their payments.  After a clear
    whose array names "loans" and not "payments", the payments are all still
    stored, but no [GET /api/v1/loans/:loanId/payments] returns any of them
    (each answers 400 or 404), and no payment request is accepted. *)
Theorem clearing_loans_orphans_payments (items : list JsValue) (s : Store) :
  includesString items "loans" = true ->
  includesString items "payments" = false ->
  exists r s',
    clearDatabase (AnArray items) s
    = (Resp 200 "Collections cleared successfully", r, s')
    /\ payments s' = payments s
    /\ (forall id, exists resp,
           getLoanPayments s' id = (resp, [], 0%nat)
           /\ (code resp = 400%nat \/ code resp = 404%nat))
    /\ (forall pid req, exists resp,
           postPayment pid s' req = (resp, s')
           /\ (code resp = 400%nat \/ code resp = 404%nat)).
Proof.
  intros Hl Hp. eexists. eexists. split; [reflexivity|].
  rewrite Hl, Hp. cbn [payments]. split; [reflexivity|]. split.
  - intro id. unfold getLoanPayments, Loan_findOne. cbn [loans find].
    destruct (nonEmpty id); cbn [negb]; eexists; (split; [reflexivity|]); cbn; auto.
  - intros pid req. unfold postPayment, Loan_findOne. cbn [loans find].
    destruct (_ || _ || _ || _); [eexists; split; [reflexivity | cbn; auto]|].
    destruct (_ || _); eexists; (split; [reflexivity | cbn; auto]).
Qed.

(** ** The calculator at the edges *)

(** X15.  A term of zero months raises nothing: for a positive principal and
    a rate that is not negative the calculator divides by zero and returns
    +Infinity, with and without interest. *)
Theorem calculator_at_term_zero (P r : Q) :
  0 < P -> 0 <= r ->
  calculateMonthlyPayment (Finite P) (Finite r) (num 0) = Return PosInf.
Proof.
  intros HP Hr. unfold calculateMonthlyPayment. rewrite monthlyRate_finite.
  assert (Qltb P 0 = false) as HsP by (qprop; lra).
  assert (Qeq_bool P 0 = false) as HzP by (qprop; lra).
  destruct (Qlt_le_dec 0 r) as [Hpos | Hzero].
  - pose proof (monthlyRateOf_pos r Hpos) as Hm.
    set (m := monthlyRateOf r) in *.
    assert (nstricteq (Finite m) (num 0) = false) as ->.
    { unfold nstricteq, num. qprop. change (inject_Z 0) with 0. lra. }
    change (Math_pow (nadd (num 1) (Finite m)) (num 0)) with (Finite 1).
    change (nmul (Finite P) (nmul (Finite m) (Finite 1))) with (Finite (P * (m * 1))).
    change (nsub (Finite 1) (num 1)) with (Finite (1 + - inject_Z 1)).
    unfold ndiv at 2.
    assert (Qeq_bool (1 + - inject_Z 1) 0 = true) as -> by reflexivity.
    assert (0 < P * (m * 1)) as Hnum.
    { apply Qmult_lt_0_compat; [exact HP|]. lra. }
    assert (Qeq_bool (P * (m * 1)) 0 = false) as -> by (qprop; lra).
    unfold signedInf.
    assert (Qltb (P * (m * 1)) 0 = false) as -> by (qprop; lra).
    reflexivity.
  - assert (nstricteq (Finite (monthlyRateOf r)) (num 0) = true) as ->.
    { unfold nstricteq, num, monthlyRateOf. qprop.
      assert (r == 0) as -> by lra. reflexivity. }
    unfold ndiv at 2, num.
    assert (Qeq_bool (inject_Z 0) 0 = true) as -> by reflexivity.
    rewrite HzP. unfold signedInf. rewrite HsP. reflexivity.
Qed.

Lemma annuity_total_upper (P m : Q) (n : Z) :
  0 < P -> 0 < m -> (1 <= n)%Z ->
  annuity P m n * inject_Z n <= P * (1 + inject_Z n * m).
Proof.
  intros HP Hm Hn.
  pose proof (growth_gt_1 m n Hm Hn) as Hu.
  assert (exists k, n = Z.of_nat k) as [k ->] by (exists (Z.to_nat n); lia).
  pose proof (bernoulli m k (Qlt_le_weak _ _ Hm)) as HB.
  unfold annuity.
  set (N := inject_Z (Z.of_nat k)) in *.
  set (u := (1 + m) ^ Z.of_nat k) in *.
  assert (P * m * u / (u - 1) * N == P * (N * m * u) / (u - 1)) as E
    by (field; lra).
  rewrite E. apply Qle_shift_div_r; [lra|].
  assert (0 <= P * (u - 1 - N * m)) as H
    by (apply Qmult_le_0_compat; lra).
  assert (P * (1 + N * m) * (u - 1) - P * (N * m * u) == P * (u - 1 - N * m)) as E2
    by ring.
  lra.
Qed.

(** * The binary64 reading

    The properties above read the arithmetic over exact rationals.  The
    ones below read it as the code runs it, every operation rounded to
    binary64, and bound the distance between the two readings. *)

Context {approx : Approximations}.

(** ** Rounding to binary64 *)

Lemma pow2_pos (e : Z) : 0 < pow2 e.
Proof. apply Qpower_0_lt. reflexivity. Qed.

Lemma pow2_add (a b : Z) : pow2 (a + b) == pow2 a * pow2 b.
Proof. apply Qpower_plus. discriminate. Qed.

Lemma pow2_le (a b : Z) : (a <= b)%Z -> pow2 a <= pow2 b.
Proof. intro H. apply Qpower_le_compat_l; [exact H | discriminate]. Qed.

Lemma pow2_lt_inv (a b : Z) : pow2 a < pow2 b -> (a < b)%Z.
Proof. intro H. apply (Qpower_lt_compat_l_inv 2); [exact H | reflexivity]. Qed.

Lemma pow2_half (e : Z) : pow2 (e - 1) == (1 # 2) * pow2 e.
Proof.
  unfold Z.sub. rewrite pow2_add.
  assert (pow2 (-1) == 1 # 2) as -> by reflexivity. ring.
Qed.

Lemma pow2_double (e : Z) : pow2 (e + 1) == 2 * pow2 e.
Proof.
  rewrite pow2_add. assert (pow2 1 == 2) as -> by reflexivity. ring.
Qed.

Lemma pow2_Z (n : Z) : (0 <= n)%Z -> pow2 n == inject_Z (2 ^ n).
Proof. intro H. unfold pow2. rewrite Zpower_Qpower by exact H. reflexivity. Qed.

(** The bounds of a positive integer between two powers of 2. *)
Lemma log2_bounds (a : positive) :
  pow2 (Z.log2 (Zpos a)) <= inject_Z (Zpos a)
  /\ inject_Z (Zpos a) < pow2 (Z.log2 (Zpos a) + 1).
Proof.
  pose proof (Z.log2_spec (Zpos a) ltac:(lia)) as [Hl Hu].
  pose proof (Z.log2_nonneg (Zpos a)) as H0.
  split.
  - rewrite pow2_Z by exact H0. rewrite <- Zle_Qle. exact Hl.
  - rewrite pow2_Z by lia. rewrite <- Zlt_Qlt.
    replace (Z.log2 (Z.pos a) + 1)%Z with (Z.succ (Z.log2 (Z.pos a))) by lia.
    exact Hu.
Qed.

Lemma ilog2_spec (q : Q) :
  0 < q -> pow2 (ilog2 q) <= q /\ q < pow2 (ilog2 q + 1).
Proof.
  intro Hq. destruct q as [a d].
  assert (0 < a)%Z as Ha by (unfold Qlt in Hq; simpl in Hq; lia).
  destruct a as [|a|a]; try lia.
  unfold ilog2. cbn [Qnum Qden].
  destruct (log2_bounds a) as [Al Au]. destruct (log2_bounds d) as [Dl Du].
  set (la := Z.log2 (Zpos a)) in *. set (ld := Z.log2 (Zpos d)) in *.
  assert (Zpos a # d == inject_Z (Zpos a) / inject_Z (Zpos d)) as Eq
    by apply Qmake_Qdiv.
  assert (0 < inject_Z (Zpos d)) as Hd by reflexivity.
  assert (0 < inject_Z (Zpos a)) as Hapos by reflexivity.
  pose proof (pow2_pos ld) as Hpd. pose proof (pow2_pos la) as Hpa.
  pose proof (pow2_pos (la - ld)) as Hpe.
  assert (pow2 la == pow2 (la - ld) * pow2 ld) as E1.
  { rewrite <- pow2_add. replace (la - ld + ld)%Z with la by lia. reflexivity. }
  assert (pow2 (la + 1) == pow2 (la - ld + 1) * pow2 ld) as E2.
  { rewrite <- pow2_add. replace (la - ld + 1 + ld)%Z with (la + 1)%Z by lia.
    reflexivity. }
  assert (pow2 la == pow2 (la - ld - 1) * pow2 (ld + 1)) as E3.
  { rewrite <- pow2_add. replace (la - ld - 1 + (ld + 1))%Z with la by lia.
    reflexivity. }
  destruct (Qle_bool (pow2 (la - ld)) (Zpos a # d)) eqn:E.
  - apply Qle_bool_iff in E. split; [exact E|].
    rewrite Eq. apply Qlt_shift_div_r; [exact Hd|].
    apply Qlt_le_trans with (pow2 (la + 1)); [exact Au|].
    rewrite E2. apply Qmult_le_l; [apply pow2_pos | exact Dl].
  - apply Qle_bool_gt in E. split.
    + rewrite Eq. apply Qle_shift_div_l; [exact Hd|].
      apply Qle_trans with (pow2 la); [|exact Al].
      rewrite E3. apply Qmult_le_l; [apply pow2_pos | apply Qlt_le_weak, Du].
    + replace (la - ld - 1 + 1)%Z with (la - ld)%Z by lia. exact E.
Qed.

Lemma roundHalfEven_spec (q : Q) :
  Qabs (inject_Z (roundHalfEven q) - q) <= 1 # 2.
Proof.
  unfold roundHalfEven.
  pose proof (Qfloor_le q) as Hl. pose proof (Qlt_floor q) as Hu.
  rewrite inject_Z_plus in Hu. change (inject_Z 1) with 1 in Hu.
  apply Qabs_Qle_condition.
  destruct (Qcompare (q - inject_Z (Qfloor q)) (1 # 2)) eqn:E.
  - apply Qeq_alt in E.
    destruct (Z.even (Qfloor q)).
    + split; lra.
    + rewrite inject_Z_plus. change (inject_Z 1) with 1. split; lra.
  - apply Qlt_alt in E. split; lra.
  - apply Qgt_alt in E. rewrite inject_Z_plus. change (inject_Z 1) with 1.
    split; lra.
Qed.

Lemma roundHalfEven_nonneg (q : Q) : 0 <= q -> (0 <= roundHalfEven q)%Z.
Proof.
  intro Hq. unfold roundHalfEven.
  assert (0 <= Qfloor q)%Z as Hf.
  { change 0%Z with (Qfloor 0). apply Qfloor_resp_le. exact Hq. }
  destruct (Qcompare (q - inject_Z (Qfloor q)) (1 # 2)); [|lia|lia].
  destruct (Z.even (Qfloor q)); lia.
Qed.

(** The rounding of a positive rational below the overflow threshold: a
    finite value within half a unit in the last place. *)
Lemma round64_pos (q : Q) :
  0 < q -> q <= pow2 1023 ->
  exists v,
    round64 q = Finite v /\ 0 <= v
    /\ Qabs (v - q) <= pow2 (Z.max (ilog2 q - 52) (-1074) - 1).
Proof.
  intros Hq Hmax. unfold round64.
  assert (Qeq_bool q 0 = false) as -> by (qprop; lra).
  assert (Qabs q = q) as Eabs.
  { destruct q as [a d]. unfold Qlt in Hq. simpl in Hq.
    destruct a; try lia. reflexivity. }
  rewrite Eabs.
  destruct (ilog2_spec q Hq) as [Hlo Hhi].
  set (e := Z.max (ilog2 q - 52) (-1074)).
  pose proof (pow2_pos e) as He.
  pose proof (roundHalfEven_spec (q / pow2 e)) as Hr.
  assert (0 <= q / pow2 e) as Hnn by (apply Qle_shift_div_l; lra).
  pose proof (roundHalfEven_nonneg _ Hnn) as Hm.
  set (m := roundHalfEven (q / pow2 e)) in *.
  assert (0 <= inject_Z m) as Hm' by (change 0 with (inject_Z 0); rewrite <- Zle_Qle; exact Hm).
  assert (Qabs (inject_Z m * pow2 e - q) <= pow2 (e - 1)) as Herr.
  { rewrite pow2_half. apply Qabs_Qle_condition in Hr. destruct Hr as [H1 H2].
    assert (q == q / pow2 e * pow2 e) as Eq by (field; lra).
    apply Qabs_Qle_condition. split.
    - assert ((q / pow2 e - (1 # 2)) * pow2 e <= inject_Z m * pow2 e) as H
        by (apply Qmult_le_compat_r; lra).
      assert ((q / pow2 e - (1 # 2)) * pow2 e == q - (1 # 2) * pow2 e) as E'
        by (field; lra).
      lra.
    - assert (inject_Z m * pow2 e <= (q / pow2 e + (1 # 2)) * pow2 e) as H
        by (apply Qmult_le_compat_r; lra).
      assert ((q / pow2 e + (1 # 2)) * pow2 e == q + (1 # 2) * pow2 e) as E'
        by (field; lra).
      lra. }
  assert (ilog2 q <= 1023)%Z as Hlog.
  { assert (ilog2 q < 1024)%Z; [|lia]. apply pow2_lt_inv.
    apply Qle_lt_trans with q; [exact Hlo|].
    apply Qle_lt_trans with (pow2 1023); [exact Hmax|]. reflexivity. }
  assert (pow2 (e - 1) <= pow2 970) as Hsmall by (apply pow2_le; unfold e; lia).
  assert (Qle_bool (pow2 1024) (inject_Z m * pow2 e) = false) as ->.
  { qprop. apply Qabs_Qle_condition in Herr.
    assert (pow2 1023 + pow2 970 < pow2 1024) as Hc by reflexivity.
    lra. }
  assert (Qltb q 0 = false) as -> by (qprop; lra).
  exists (Qred (inject_Z m * pow2 e)). split; [reflexivity|].
  rewrite Qred_correct. split; [|exact Herr].
  apply Qmult_le_0_compat; lra.
Qed.

Lemma round64_zero (q : Q) : q == 0 -> round64 q = Finite 0.
Proof.
  intro E. unfold round64. apply Qeq_bool_iff in E. rewrite E. reflexivity.
Qed.

(** In the range of the normal numbers the error is relative: at most
    2^-53 of the value. *)
Lemma round64_relative (q : Q) :
  pow2 (-1022) <= q -> q <= pow2 1023 ->
  exists v, round64 q = Finite v /\ Qabs (v - q) <= pow2 (-53) * q.
Proof.
  intros Hmin Hmax.
  pose proof (pow2_pos (-1022)) as Hp.
  assert (0 < q) as Hq by lra.
  destruct (round64_pos q Hq Hmax) as (v & Ev & _ & Herr).
  exists v. split; [exact Ev|].
  destruct (ilog2_spec q Hq) as [Hlo Hhi].
  assert (-1022 < ilog2 q + 1)%Z as Hlog.
  { apply pow2_lt_inv. apply Qle_lt_trans with q; assumption. }
  replace (Z.max (ilog2 q - 52) (-1074) - 1)%Z with (-53 + ilog2 q)%Z in Herr by lia.
  rewrite pow2_add in Herr.
  apply Qle_trans with (pow2 (-53) * pow2 (ilog2 q)); [exact Herr|].
  apply Qmult_le_l; [apply pow2_pos | exact Hlo].
Qed.

(** Below 2^M the error is at most 2^(M-53), subnormal numbers included. *)
Lemma round64_absolute (q : Q) (M : Z) :
  0 <= q -> q <= pow2 M -> (-1022 <= M <= 1023)%Z ->
  exists v, round64 q = Finite v /\ 0 <= v /\ Qabs (v - q) <= pow2 (M - 53).
Proof.
  intros Hq HM HMr.
  destruct (Qlt_le_dec 0 q) as [Hpos|Hz].
  - assert (q <= pow2 1023) as Hmax
      by (apply Qle_trans with (pow2 M); [exact HM | apply pow2_le; lia]).
    destruct (round64_pos q Hpos Hmax) as (v & Ev & Hv & Herr).
    exists v. split; [exact Ev|]. split; [exact Hv|].
    destruct (ilog2_spec q Hpos) as [Hlo Hhi].
    assert (ilog2 q < M + 1)%Z as Hlog.
    { apply pow2_lt_inv. apply Qle_lt_trans with q; [exact Hlo|].
      apply Qle_lt_trans with (pow2 M); [exact HM|].
      rewrite pow2_double. pose proof (pow2_pos M). lra. }
    apply Qle_trans with (pow2 (Z.max (ilog2 q - 52) (-1074) - 1)); [exact Herr|].
    apply pow2_le. lia.
  - exists 0. split; [apply round64_zero; lra|]. split; [lra|].
    assert (0 - q == 0) as -> by lra. pose proof (pow2_pos (M - 53)).
    change (Qabs 0) with 0. lra.
Qed.

(** ** Relative errors *)

Lemma u53_pos : 0 < u53.
Proof. reflexivity. Qed.

Lemma close_refl (a : Q) : close 0 a a.
Proof. unfold close. split; ring_simplify; apply Qle_refl. Qed.

Lemma close_weaken (e e' a b : Q) :
  close e a b -> e <= e' -> 0 <= b -> close e' a b.
Proof.
  intros [Hl Hu] He Hb. unfold close.
  assert (e * b <= e' * b) as H by (apply Qmult_le_compat_r; assumption).
  split; lra.
Qed.

Lemma close_nonneg (e a b : Q) : close e a b -> e <= 1 -> 0 <= b -> 0 <= a.
Proof.
  intros [Hl _] He Hb.
  assert (0 <= (1 - e) * b) by (apply Qmult_le_0_compat; lra). lra.
Qed.

Lemma close_scale (e a b c : Q) : close e a b -> 0 <= c -> close e (c * a) (c * b).
Proof.
  intros [Hl Hu] Hc. unfold close.
  assert (c * ((1 - e) * b) <= c * a) as H1.
  { destruct (Qle_lt_or_eq _ _ Hc) as [Hp|Hz].
    - apply Qmult_le_l; assumption.
    - rewrite <- Hz. lra. }
  assert (c * a <= c * ((1 + e) * b)) as H2.
  { destruct (Qle_lt_or_eq _ _ Hc) as [Hp|Hz].
    - apply Qmult_le_l; assumption.
    - rewrite <- Hz. lra. }
  split; lra.
Qed.

Lemma close_mul (e1 e2 a a' b b' : Q) :
  close e1 a a' -> close e2 b b' ->
  0 <= a' -> 0 <= b' -> 0 <= e1 -> e1 <= 1 -> 0 <= e2 -> e2 <= 1 ->
  close (e1 + e2 + e1 * e2) (a * b) (a' * b').
Proof.
  intros Ca Cb Ha' Hb' H1 H1' H2 H2'.
  pose proof (close_nonneg _ _ _ Ca H1' Ha') as Ha.
  pose proof (close_nonneg _ _ _ Cb H2' Hb') as Hb.
  destruct Ca as [Al Au]. destruct Cb as [Bl Bu].
  assert (0 <= (1 - e1) * a') as P1 by (apply Qmult_le_0_compat; lra).
  assert (0 <= (1 - e2) * b') as P2 by (apply Qmult_le_0_compat; lra).
  assert (0 <= a' * b') as P3 by (apply Qmult_le_0_compat; lra).
  assert (0 <= (e1 * e2) * (a' * b')) as P4.
  { apply Qmult_le_0_compat; [apply Qmult_le_0_compat|]; lra. }
  unfold close. split.
  - apply Qle_trans with ((1 - e1) * a' * ((1 - e2) * b')).
    + assert ((1 - e1) * a' * ((1 - e2) * b')
              == (1 - (e1 + e2 + e1 * e2)) * (a' * b') + 2 * (e1 * e2 * (a' * b')))
        as E by ring.
      ring_simplify in E. ring_simplify. lra.
    + apply Qle_trans with ((1 - e1) * a' * b).
      * rewrite (Qmult_comm ((1 - e1) * a') ((1 - e2) * b')).
        rewrite (Qmult_comm ((1 - e1) * a') b).
        apply Qmult_le_compat_r; assumption.
      * apply Qmult_le_compat_r; assumption.
  - apply Qle_trans with ((1 + e1) * a' * ((1 + e2) * b')).
    + apply Qle_trans with ((1 + e1) * a' * b).
      * apply Qmult_le_compat_r; assumption.
      * rewrite (Qmult_comm ((1 + e1) * a') b).
        rewrite (Qmult_comm ((1 + e1) * a') ((1 + e2) * b')).
        apply Qmult_le_compat_r; [assumption|].
        apply Qmult_le_0_compat; lra.
    + assert ((1 + e1) * a' * ((1 + e2) * b')
              == (1 + (e1 + e2 + e1 * e2)) * (a' * b')) as E by ring.
      rewrite E. apply Qle_refl.
Qed.

Lemma close_div (e1 e2 a a' b b' : Q) :
  close e1 a a' -> close e2 b b' ->
  0 <= a' -> 0 < b' -> 0 <= e1 -> e1 <= 1 -> 0 <= e2 -> e2 < 1 ->
  close ((e1 + e2) / (1 - e2)) (a / b) (a' / b').
Proof.
  intros Ca Cb Ha' Hb' H1 H1' H2 H2'.
  pose proof (close_nonneg _ _ _ Ca H1' Ha') as Ha.
  destruct Ca as [Al Au]. destruct Cb as [Bl Bu].
  assert (0 < (1 - e2) * b') as P2 by (apply Qmult_lt_0_compat; lra).
  assert (0 < b) as Hb by lra.
  assert (0 <= a' / b') as Hq by (apply Qle_shift_div_l; lra).
  assert (0 <= (e1 + e2) / (1 - e2)) as He by (apply Qle_shift_div_l; lra).
  set (E := (e1 + e2) / (1 - e2)) in *.
  assert (E * (1 - e2) == e1 + e2) as EE by (unfold E; field; lra).
  unfold close. split.
  - apply Qle_shift_div_l; [exact Hb|].
    (* (1 - E) (a'/b') b <= a *)
    apply Qle_trans with ((1 - e1) * a'); [|exact Al].
    destruct (Qlt_le_dec (1 - E) 0) as [Hneg|Hnn].
    + assert ((1 - E) * (a' / b') * b <= 0) as Hle.
      { assert (0 <= (E - 1) * (a' / b') * b) as Hx.
        { apply Qmult_le_0_compat; [apply Qmult_le_0_compat|]; lra. }
        assert ((E - 1) * (a' / b') * b == - ((1 - E) * (a' / b') * b)) as Ey by ring.
        lra. }
      assert (0 <= (1 - e1) * a') by (apply Qmult_le_0_compat; lra). lra.
    + apply Qle_trans with ((1 - E) * (a' / b') * ((1 + e2) * b')).
      * rewrite (Qmult_comm ((1 - E) * (a' / b')) b).
        rewrite (Qmult_comm ((1 - E) * (a' / b')) ((1 + e2) * b')).
        apply Qmult_le_compat_r; [exact Bu|].
        apply Qmult_le_0_compat; lra.
      * assert ((1 - E) * (a' / b') * ((1 + e2) * b') == (1 - E) * (1 + e2) * a') as Ez
          by (field; lra).
        rewrite Ez. apply Qmult_le_compat_r; [|exact Ha'].
        assert (0 <= E * e2) as Hp by (apply Qmult_le_0_compat; lra).
        assert ((1 - E) * (1 + e2) == 1 + e2 - E - E * e2) as Ew by ring.
        assert (E * (1 - e2) == E - E * e2) as Ev by ring.
        lra.
  - apply Qle_shift_div_r; [exact Hb|].
    apply Qle_trans with ((1 + e1) * a'); [exact Au|].
    apply Qle_trans with ((1 + E) * (a' / b') * ((1 - e2) * b')).
    + assert ((1 + E) * (a' / b') * ((1 - e2) * b') == (1 + E) * (1 - e2) * a') as Ez
        by (field; lra).
      rewrite Ez. apply Qmult_le_compat_r; [|exact Ha'].
      assert ((1 + E) * (1 - e2) == 1 - e2 + E * (1 - e2)) as Ew by ring.
      lra.
    + rewrite (Qmult_comm ((1 + E) * (a' / b')) ((1 - e2) * b')).
      rewrite (Qmult_comm ((1 + E) * (a' / b')) b).
      apply Qmult_le_compat_r; [exact Bl|].
      apply Qmult_le_0_compat; lra.
Qed.

(** One rounding adds half a unit in the last place to the relative
    error. *)
Lemma close_round64 (e a b : Q) :
  close e a b -> 0 <= e -> e <= 1 # 2 ->
  pow2 (-1000) <= b -> b <= pow2 1000 ->
  exists v, round64 a = Finite v /\ close (e + u53 + e * u53) v b.
Proof.
  intros [Hl Hu] He He' Hmin Hmax.
  pose proof (pow2_pos (-1000)) as Hp.
  assert (e * b <= (1 # 2) * b) as Heb by (apply Qmult_le_compat_r; lra).
  assert (0 <= e * b) as Heb0 by (apply Qmult_le_0_compat; lra).
  assert (pow2 (-1022) <= a) as Ha1.
  { apply Qle_trans with ((1 # 2) * pow2 (-1000)); [discriminate|]. lra. }
  assert (a <= pow2 1023) as Ha2.
  { apply Qle_trans with ((3 # 2) * pow2 1000); [lra | discriminate]. }
  destruct (round64_relative a Ha1 Ha2) as (v & Ev & Herr).
  exists v. split; [exact Ev|].
  fold u53 in Herr. pose proof u53_pos as Hu0.
  assert (u53 <= 1) as Hu1 by discriminate.
  set (u := u53) in *. clearbody u.
  apply Qabs_Qle_condition in Herr. destruct Herr as [E1 E2].
  assert (0 <= a) as Ha by lra.
  assert (u * ((1 - e) * b) <= u * a) as M1 by (apply Qmult_le_l; assumption).
  assert (u * a <= u * ((1 + e) * b)) as M2 by (apply Qmult_le_l; assumption).
  assert (0 <= u * (e * b)) as M3 by (apply Qmult_le_0_compat; lra).
  unfold close. split.
  - ring_simplify. ring_simplify in M2. lra.
  - ring_simplify. ring_simplify in M2. lra.
Qed.

Lemma close_eq (e a a' b b' : Q) :
  a == a' -> b == b' -> close e a b -> close e a' b'.
Proof. intros Ea Eb [Hl Hu]. unfold close. rewrite <- Ea, <- Eb. split; assumption. Qed.

Lemma close_trans (e1 e2 a b c : Q) :
  close e1 a b -> close e2 b c ->
  0 <= c -> 0 <= e1 -> e1 <= 1 -> 0 <= e2 -> e2 <= 1 ->
  close (e1 + e2 + e1 * e2) a c.
Proof.
  intros Cab Cbc Hc H1 H1' H2 H2'.
  pose proof (close_mul e1 e2 a 1 b c) as H.
  assert (close e1 a (1 * b)) as Cab'.
  { apply (close_eq e1 a a b (1 * b)); [reflexivity | ring | exact Cab]. }
  pose proof (close_nonneg _ _ _ Cbc H2' Hc) as Hb.
  destruct Cab as [Al Au]. destruct Cbc as [Bl Bu].
  assert (0 <= (1 - e1) * ((1 - e2) * c)) as P1.
  { apply Qmult_le_0_compat; [lra|]. apply Qmult_le_0_compat; lra. }
  assert (0 <= e1 * e2 * c) as P2.
  { apply Qmult_le_0_compat; [apply Qmult_le_0_compat|]; lra. }
  assert ((1 - e1) * ((1 - e2) * c) <= (1 - e1) * b) as M1.
  { destruct (Qle_lt_or_eq 0 (1 - e1) ltac:(lra)) as [Hp|Hz].
    - apply Qmult_le_l; assumption.
    - rewrite <- Hz. lra. }
  assert ((1 + e1) * b <= (1 + e1) * ((1 + e2) * c)) as M2
    by (apply Qmult_le_l; [lra | assumption]).
  unfold close. split.
  - ring_simplify. ring_simplify in M1. ring_simplify in P2. lra.
  - ring_simplify. ring_simplify in M2. lra.
Qed.

(** ** Powers under a relative error *)

Lemma Qpower_mono_nat (a b : Q) (k : nat) :
  0 < a -> a <= b -> a ^ Z.of_nat k <= b ^ Z.of_nat k.
Proof.
  intros Ha Hab. induction k as [|k IH].
  - apply Qle_refl.
  - rewrite !Qpower_succ by lra.
    assert (0 < a ^ Z.of_nat k) as Hp by (apply Qpower_0_lt; exact Ha).
    apply Qle_trans with (a * b ^ Z.of_nat k).
    + apply Qmult_le_l; assumption.
    + apply Qmult_le_compat_r; [exact Hab | lra].
Qed.

Lemma bernoulli_down (e : Q) (k : nat) :
  0 <= e -> e <= 1 # 2 -> 1 - inject_Z (Z.of_nat k) * e <= (1 - e) ^ Z.of_nat k.
Proof.
  intros He He'. induction k as [|k IH].
  - change (Z.of_nat 0) with 0%Z. change (inject_Z 0) with 0.
    change ((1 - e) ^ 0) with 1. lra.
  - rewrite Qpower_succ by lra. rewrite inject_Z_succ.
    pose proof (inject_Z_nat_nonneg k) as Hk.
    set (n := inject_Z (Z.of_nat k)) in *.
    set (p := (1 - e) ^ Z.of_nat k) in *.
    assert ((1 - e) * (1 - n * e) <= (1 - e) * p) as Hmul
      by (apply Qmult_le_l; [lra | assumption]).
    assert (0 <= n * (e * e)) as Hnn.
    { apply Qmult_le_0_compat; [assumption|]. apply Qmult_le_0_compat; assumption. }
    ring_simplify in Hmul. ring_simplify. ring_simplify in Hnn. lra.
Qed.

Lemma power_up (e : Q) (k : nat) :
  0 <= e -> inject_Z (Z.of_nat k) * e <= 1 # 2 ->
  (1 + e) ^ Z.of_nat k <= 1 + 2 * (inject_Z (Z.of_nat k) * e).
Proof.
  intros He. induction k as [|k IH]; intro Hk.
  - change (Z.of_nat 0) with 0%Z. change (inject_Z 0) with 0.
    change ((1 + e) ^ 0) with 1. lra.
  - rewrite Qpower_succ by lra. rewrite inject_Z_succ in *.
    pose proof (inject_Z_nat_nonneg k) as Hk0.
    set (n := inject_Z (Z.of_nat k)) in *.
    assert (n * e <= 1 # 2) as Hk' by lra.
    specialize (IH Hk').
    set (p := (1 + e) ^ Z.of_nat k) in *.
    assert ((1 + e) * p <= (1 + e) * (1 + 2 * (n * e))) as Hmul
      by (apply Qmult_le_l; [lra | assumption]).
    assert (e * (2 * (n * e)) <= e * 1) as Hsq.
    { destruct (Qle_lt_or_eq _ _ He) as [Hp|Hz].
      - apply Qmult_le_l; [exact Hp | lra].
      - rewrite <- Hz. lra. }
    ring_simplify in Hmul. ring_simplify in Hsq. ring_simplify. lra.
Qed.

Lemma close_pow (e x X : Q) (k : nat) :
  close e x X -> 0 < X -> 0 <= e -> e <= 1 # 2 ->
  inject_Z (Z.of_nat k) * e <= 1 # 2 ->
  close (2 * (inject_Z (Z.of_nat k) * e)) (x ^ Z.of_nat k) (X ^ Z.of_nat k).
Proof.
  intros [Hl Hu] HX He He' Hk.
  assert (0 < (1 - e) * X) as Hlow by (apply Qmult_lt_0_compat; lra).
  assert (0 < x) as Hx by lra.
  pose proof (Qpower_mono_nat _ _ k Hlow Hl) as P1.
  pose proof (Qpower_mono_nat _ _ k Hx Hu) as P2.
  rewrite Qmult_power in P1, P2.
  pose proof (bernoulli_down e k He He') as B1.
  pose proof (power_up e k He Hk) as B2.
  assert (0 < X ^ Z.of_nat k) as HXk by (apply Qpower_0_lt; exact HX).
  pose proof (inject_Z_nat_nonneg k) as Hk0.
  set (n := inject_Z (Z.of_nat k)) in *.
  set (W := X ^ Z.of_nat k) in *.
  assert (0 <= n * e) as Hne by (apply Qmult_le_0_compat; assumption).
  unfold close. split.
  - apply Qle_trans with ((1 - e) ^ Z.of_nat k * W); [|exact P1].
    apply Qmult_le_compat_r; lra.
  - apply Qle_trans with ((1 + e) ^ Z.of_nat k * W); [exact P2|].
    apply Qmult_le_compat_r; lra.
Qed.

(** The subtraction [w - 1] loses relative accuracy by the factor
    W / (W - 1). *)
Lemma close_minus_1 (e E w W : Q) :
  close e w W -> e * W <= E * (W - 1) -> close E (w - 1) (W - 1).
Proof.
  intros [Hl Hu] HE. unfold close. split.
  - ring_simplify. ring_simplify in Hl. ring_simplify in HE. lra.
  - ring_simplify. ring_simplify in Hu. ring_simplify in HE. lra.
Qed.

(** ** The calculator in binary64 *)

Ltac qnum := apply Qle_bool_iff; vm_compute; reflexivity.

Lemma u53_value : u53 == 1 # 9007199254740992.
Proof. reflexivity. Qed.

Lemma close_step (e e' a b : Q) :
  close e a b -> 0 <= e -> e <= 1 # 2 ->
  (1 # 1000000) <= b -> b <= 1000000000000000000 ->
  e + u53 + e * u53 <= e' ->
  exists v, round64 a = Finite v /\ close e' v b.
Proof.
  intros C He He' Hlo Hhi Hw.
  assert (pow2 (-1000) <= b) as H1
    by (apply Qle_trans with (1 # 1000000); [qnum | exact Hlo]).
  assert (b <= pow2 1000) as H2
    by (apply Qle_trans with 1000000000000000000; [exact Hhi | qnum]).
  destruct (close_round64 e a b C He He' H1 H2) as (v & Ev & Cv).
  exists v. split; [exact Ev|].
  apply close_weaken with (e + u53 + e * u53); [exact Cv | exact Hw | lra].
Qed.

Lemma close_1_plus (e m mu : Q) :
  close e m mu -> 0 <= e -> 0 <= mu -> mu <= 1 # 24 ->
  close (e / 25) (1 + m) (1 + mu).
Proof.
  intros [Hl Hu] He Hmu Hmu'.
  assert (e * (24 * mu) <= e * 1) as H.
  { destruct (Qle_lt_or_eq _ _ He) as [Hp|Hz].
    - apply Qmult_le_l; [exact Hp | lra].
    - rewrite <- Hz. lra. }
  assert (e / 25 == e * (1 # 25)) as E by (field).
  unfold close. rewrite E. split.
  - ring_simplify. ring_simplify in Hl. ring_simplify in H. lra.
  - ring_simplify. ring_simplify in Hu. ring_simplify in H. lra.
Qed.

Lemma close_of_abs (e a b : Q) : Qabs (a - b) <= e * b -> close e a b.
Proof.
  intro H. apply Qabs_Qle_condition in H. destruct H as [H1 H2].
  unfold close. split; ring_simplify; lra.
Qed.

Lemma abs_of_close (e a b : Q) : close e a b -> Qabs (a - b) <= e * b.
Proof.
  intros [H1 H2]. apply Qabs_Qle_condition.
  ring_simplify in H1. ring_simplify in H2. split; lra.
Qed.

Lemma fdiv_finite (x y : Q) :
  ~ y == 0 -> fdiv (Finite x) (Finite y) = round64 (x / y).
Proof. intro Hy. unfold fdiv. rewrite ndiv_finite by exact Hy. reflexivity. Qed.

Lemma Math_pow64_approx (b : Q) (n : Z) :
  0 < b -> n <> 0%Z -> Math_pow64 (Finite b) (num n) = approxPow b (inject_Z n).
Proof.
  intros Hb Hn. unfold Math_pow64, num.
  apply inject_Z_nonzero, Qeq_bool_false in Hn. rewrite Hn.
  assert (Qeq_bool b 0 = false) as -> by (qprop; lra).
  assert (Qltb b 0 = false) as -> by (qprop; lra).
  reflexivity.
Qed.

(** The growth factor over the term, between 1 + n m and 2^22. *)
Lemma growth_bounds (mu : Q) (k : nat) :
  0 <= mu -> mu <= 1 # 24 -> (k <= 360)%nat ->
  1 + inject_Z (Z.of_nat k) * mu <= (1 + mu) ^ Z.of_nat k
  /\ (1 + mu) ^ Z.of_nat k <= 4194304.
Proof.
  intros Hmu Hmu' Hk. split; [apply bernoulli; exact Hmu|].
  apply Qle_trans with ((25 # 24) ^ Z.of_nat k).
  - apply Qpower_mono_nat; lra.
  - apply Qle_trans with ((25 # 24) ^ 360).
    + apply Qpower_le_compat_l; [lia | discriminate].
    + qnum.
Qed.

(** The exact payment of a loan in the range of the schema. *)
Lemma annuity_bounds (P mu : Q) (k : nat) :
  0 < P -> (1 # 12000) <= mu -> mu <= 1 # 24 -> (1 <= k)%nat ->
  P * mu <= annuity P mu (Z.of_nat k)
  /\ annuity P mu (Z.of_nat k) <= (25 # 24) * P.
Proof.
  intros HP Hmu Hmu' Hk.
  pose proof (bernoulli mu k ltac:(lra)) as HB.
  assert (1 <= inject_Z (Z.of_nat k)) as HK by (apply inject_Z_ge_1; lia).
  unfold annuity.
  set (K := inject_Z (Z.of_nat k)) in *.
  set (W := (1 + mu) ^ Z.of_nat k) in *.
  assert (mu <= K * mu) as H1.
  { assert (1 * mu <= K * mu) by (apply Qmult_le_compat_r; lra). lra. }
  assert (0 < W - 1) as HD by lra.
  assert (0 < P * mu) as HPm by (apply Qmult_lt_0_compat; lra).
  split.
  - apply Qle_shift_div_l; [exact HD|].
    assert (P * mu * (W - 1) <= P * mu * W) as H
      by (apply Qmult_le_l; [exact HPm | lra]).
    lra.
  - apply Qle_shift_div_r; [exact HD|].
    assert (mu * (W - 1) <= (1 # 24) * (W - 1)) as H2
      by (apply Qmult_le_compat_r; lra).
    assert (P * (mu * W) <= P * ((25 # 24) * (W - 1))) as H3.
    { apply Qmult_le_l; [exact HP|]. ring_simplify in H2. ring_simplify. lra. }
    ring_simplify in H3. ring_simplify. lra.
Qed.

Lemma fdiv_inject (x : Q) (z : Z) :
  z <> 0%Z -> fdiv (Finite x) (Finite (inject_Z z)) = round64 (x / inject_Z z).
Proof. intro Hz. apply fdiv_finite, inject_Z_nonzero, Hz. Qed.

Lemma fmul_finite (x y : Q) : fmul (Finite x) (Finite y) = round64 (x * y).
Proof. reflexivity. Qed.

Lemma fadd_finite (x y : Q) : fadd (Finite x) (Finite y) = round64 (x + y).
Proof. reflexivity. Qed.

Lemma fsub_finite (x y : Q) : fsub (Finite x) (Finite y) = round64 (x + - y).
Proof. reflexivity. Qed.

Lemma Math_pow64_whole (b : Q) (n : Z) :
  0 < b -> n <> 0%Z ->
  Math_pow64 (Finite b) (Finite (inject_Z n)) = approxPow b (inject_Z n).
Proof. intros Hb Hn. apply (Math_pow64_approx b n Hb Hn). Qed.

(** The accuracy lost in [w - 1]: the relative error (a n + b) of the power
    becomes at most 360 a + b + 12000 (a + b). *)
Lemma cancellation (a b K W mu : Q) :
  0 <= a -> 0 <= b -> 1 <= K -> K <= 360 -> (1 # 12000) <= mu ->
  1 + K * mu <= W ->
  (a * K + b) * W <= (360 * a + b + 12000 * (a + b)) * (W - 1).
Proof.
  intros Ha Hb HK HK' Hmu HW.
  assert (K * (1 # 12000) <= K * mu) as H1 by (apply Qmult_le_l; lra).
  assert (0 <= W - 1) as HD by lra.
  assert (a * K <= a * 360) as H2.
  { destruct (Qle_lt_or_eq _ _ Ha) as [Hp|Hz].
    - apply Qmult_le_l; assumption.
    - rewrite <- Hz. lra. }
  assert (b * 1 <= b * K) as H3.
  { destruct (Qle_lt_or_eq _ _ Hb) as [Hp|Hz].
    - apply Qmult_le_l; assumption.
    - rewrite <- Hz. lra. }
  assert ((a * K + b) * (W - 1) <= (360 * a + b) * (W - 1)) as H4
    by (apply Qmult_le_compat_r; lra).
  assert ((a + b) * K <= (a + b) * (12000 * (W - 1))) as H5.
  { destruct (Qle_lt_or_eq 0 (a + b) ltac:(lra)) as [Hp|Hz].
    - apply Qmult_le_l; [exact Hp | lra].
    - rewrite <- Hz. lra. }
  ring_simplify in H4. ring_simplify in H5. ring_simplify. lra.
Qed.

(** With a rate of the schema the value that [Math.round] receives is
    within a sixteenth of the exact payment in cents. *)
Lemma payment64_positive_rate (P r : Q) (k : nat) :
  powAccurate ->
  1000 <= P -> P <= 100000000 -> (1 # 10) <= r -> r <= 50 ->
  (1 <= k <= 360)%nat ->
  exists y,
    calculateMonthlyPayment64 (Finite P) (Finite r) (num (Z.of_nat k))
    = Return (round64 (inject_Z (Qfloor (y + (1 # 2))) / 100))
    /\ Qabs (y - 100 * annuity P (monthlyRateOf r) (Z.of_nat k)) <= 1 # 16.
Proof.
  intros Hpow HP HP' Hr Hr' Hk.
  assert (monthlyRateOf r == r * (1 # 1200)) as Emu by (unfold monthlyRateOf; field).
  assert ((1 # 12000) <= monthlyRateOf r) as Hmu by lra.
  assert (monthlyRateOf r <= 1 # 24) as Hmu' by lra.
  assert (1 <= inject_Z (Z.of_nat k)) as HK by (apply inject_Z_ge_1; lia).
  assert (inject_Z (Z.of_nat k) <= 360) as HK'.
  { change 360 with (inject_Z 360). rewrite <- Zle_Qle. lia. }
  destruct (growth_bounds (monthlyRateOf r) k ltac:(lra) Hmu' ltac:(lia)) as [HWl HWu].
  destruct (annuity_bounds P (monthlyRateOf r) k ltac:(lra) Hmu Hmu' ltac:(lia))
    as [HAl HAu].
  unfold annuity in *.
  pose proof u53_value as Hu.
  set (mu := monthlyRateOf r) in *.
  set (K := inject_Z (Z.of_nat k)) in *.
  set (W := (1 + mu) ^ Z.of_nat k) in *.
  assert (K * (1 # 12000) <= K * mu) as HKmu by (apply Qmult_le_l; lra).
  (* the monthly rate *)
  assert (r / 100 == r * (1 # 100)) as Er by field.
  destruct (close_step 0 u53 (r / inject_Z 100) (r / 100)) as (m1 & E1 & C1);
    [apply close_refl | lra | lra | lra | lra | qnum |].
  assert (mu == r / 100 / 12) as Emu' by reflexivity.
  destruct (close_step ((u53 + 0) / (1 - 0)) (3 * u53) (m1 / inject_Z 12) mu)
    as (m & E2 & C2); [|qnum|qnum|lra|lra|qnum|].
  { apply (close_eq _ (m1 / 12) _ (r / 100 / 12)); [reflexivity | reflexivity|].
    apply close_div; [exact C1 | apply close_refl | lra | lra | | | lra | lra]; qnum. }
  assert (0 < m) as Hm.
  { destruct C2 as [C2l _]. rewrite Hu in C2l. lra. }
  (* the growth factor *)
  destruct (close_step (3 * u53 / 25) ((9 # 8) * u53) (inject_Z 1 + m) (1 + mu))
    as (x & E3 & C3); [|qnum|qnum|lra|lra|qnum|].
  { apply (close_1_plus (3 * u53) m mu C2); [qnum | lra | lra]. }
  assert (1 <= x /\ x <= 2) as [Hx1 Hx2].
  { destruct C3 as [C3l C3u]. rewrite Hu in C3l, C3u. split; lra. }
  destruct (Hpow x (Z.of_nat k) Hx1 Hx2 ltac:(lia)) as (w & E4 & Hw).
  assert (close (pow2 (-52)) w (x ^ Z.of_nat k)) as C4a by (apply close_of_abs; exact Hw).
  assert (close (2 * (K * ((9 # 8) * u53))) (x ^ Z.of_nat k) W) as C4b.
  { apply close_pow; [exact C3 | lra | qnum | qnum |].
    fold K. rewrite Hu. lra. }
  assert (0 < W) as HW0 by lra.
  assert (close ((2251 # 1000) * u53 * K + 2 * u53) w W) as C4.
  { apply close_weaken
      with (pow2 (-52) + 2 * (K * ((9 # 8) * u53))
            + pow2 (-52) * (2 * (K * ((9 # 8) * u53)))); [| |lra].
    - apply close_trans with (x ^ Z.of_nat k); [exact C4a | exact C4b | lra | | | |].
      + qnum.
      + qnum.
      + rewrite Hu. lra.
      + rewrite Hu. lra.
    - assert (pow2 (-52) == 2 # 9007199254740992) as -> by reflexivity.
      rewrite Hu. lra. }
  assert (close (813 * u53) w W) as C4'.
  { apply close_weaken with ((2251 # 1000) * u53 * K + 2 * u53); [exact C4| |lra].
    rewrite Hu. lra. }
  (* the denominator *)
  assert (close (51825 * u53) (w - 1) (W - 1)) as C5a.
  { apply close_minus_1 with ((2251 # 1000) * u53 * K + 2 * u53); [exact C4|].
    apply Qle_trans
      with ((360 * ((2251 # 1000) * u53) + 2 * u53
             + 12000 * ((2251 # 1000) * u53 + 2 * u53)) * (W - 1)).
    - apply cancellation with mu; try assumption; try qnum.
    - apply Qmult_le_compat_r; [qnum | lra]. }
  destruct (close_step (51825 * u53) (51827 * u53) (w + - inject_Z 1) (W - 1))
    as (d & E5 & C5); [exact C5a|qnum|qnum|lra|lra|qnum|].
  (* the numerator *)
  destruct (close_step (3 * u53 + 813 * u53 + 3 * u53 * (813 * u53)) (818 * u53)
              (m * w) (mu * W)) as (t1 & E6 & C6); [|qnum|qnum| | |qnum|].
  { apply close_mul; [exact C2 | exact C4' | lra | lra | | | |]; qnum. }
  { assert ((1 # 12000) * 1 <= mu * W); [|lra].
    apply Qle_trans with (mu * 1); [lra|]. apply Qmult_le_l; lra. }
  { assert (mu * W <= (1 # 24) * 4194304); [|lra].
    apply Qle_trans with (mu * 4194304); [apply Qmult_le_l; lra|].
    apply Qmult_le_compat_r; lra. }
  assert ((1 # 12000) <= mu * W /\ mu * W <= 4194304) as [HmW HmW'].
  { split.
    - apply Qle_trans with (mu * 1); [lra|]. apply Qmult_le_l; lra.
    - apply Qle_trans with (mu * 4194304); [apply Qmult_le_l; lra|].
      assert (mu * 4194304 <= (1 # 24) * 4194304) by (apply Qmult_le_compat_r; lra).
      lra. }
  assert ((1 # 12) <= P * (mu * W) /\ P * (mu * W) <= 100000000 * 4194304)
    as [HPmW HPmW'].
  { split.
    - apply Qle_trans with (1000 * (mu * W)); [lra|].
      apply Qmult_le_compat_r; lra.
    - apply Qle_trans with (P * 4194304); [apply Qmult_le_l; lra|].
      apply Qmult_le_compat_r; lra. }
  destruct (close_step (0 + 818 * u53 + 0 * (818 * u53)) (820 * u53)
              (P * t1) (P * (mu * W))) as (t2 & E7 & C7); [|qnum|qnum|lra|lra|qnum|].
  { apply close_mul; [apply close_refl | exact C6 | lra | lra | | | |]; qnum. }
  (* the payment *)
  assert (P * (mu * W) / (W - 1) == P * mu * W / (W - 1)) as EA by (field; lra).
  assert ((1 # 12) <= P * mu) as HPmu.
  { apply Qle_trans with (1000 * mu); [lra|]. apply Qmult_le_compat_r; lra. }
  destruct (close_step ((820 * u53 + 51827 * u53) / (1 - 51827 * u53)) (52649 * u53)
              (t2 / d) (P * mu * W / (W - 1)))
    as (raw & E8 & C8); [|qnum|qnum|lra|lra|qnum|].
  { apply (close_eq _ (t2 / d) _ (P * (mu * W) / (W - 1))); [reflexivity | exact EA|].
    apply close_div; [exact C7 | exact C5 | lra | lra | | | |]; try qnum.
    apply Qltb_lt. vm_compute. reflexivity. }
  destruct (close_step (52649 * u53 + 0 + 52649 * u53 * 0) (52651 * u53)
              (raw * inject_Z 100) (P * mu * W / (W - 1) * 100))
    as (y & E9 & C9); [|qnum|qnum|lra|lra|qnum|].
  { apply close_mul; [exact C8 | apply close_refl | lra | lra | | | |]; qnum. }
  exists y. split.
  - unfold calculateMonthlyPayment64, num.
    rewrite (fdiv_inject r 100) by lia. rewrite E1.
    rewrite (fdiv_inject m1 12) by lia. rewrite E2.
    assert (nstricteq (Finite m) (Finite (inject_Z 0)) = false) as ->.
    { unfold nstricteq. qprop. change (inject_Z 0) with 0. lra. }
    rewrite fadd_finite, E3.
    rewrite Math_pow64_whole by (try lra; lia). rewrite E4.
    rewrite (fmul_finite m w), E6, (fmul_finite P t1), E7.
    rewrite fsub_finite, E5.
    assert (0 < d) as Hd.
    { destruct C5 as [C5l _]. rewrite Hu in C5l.
      assert (0 < (1 - 51827 * (1 # 9007199254740992)) * (W - 1)); [|lra].
      apply Qmult_lt_0_compat; [reflexivity | lra]. }
    rewrite (fdiv_finite t2 d) by lra. rewrite E8.
    rewrite fmul_finite, E9.
    cbn [Math_round]. rewrite fdiv_inject by lia. reflexivity.
  - apply abs_of_close in C9.
    assert (y - 100 * (P * mu * W / (W - 1)) == y - P * mu * W / (W - 1) * 100) as ->
      by ring.
    apply Qle_trans with (52651 * u53 * (P * mu * W / (W - 1) * 100)); [exact C9|].
    rewrite Hu. lra.
Qed.

Lemma Qfloor_half_near (y : Q) (z : Z) :
  Qabs (y - inject_Z z) < 1 # 2 -> Qfloor (y + (1 # 2)) = z.
Proof.
  intro H.
  assert (- (1 # 2) < y - inject_Z z /\ y - inject_Z z < 1 # 2) as [H1 H2].
  { destruct (Qlt_le_dec (y - inject_Z z) 0) as [Hn|Hp].
    - rewrite Qabs_neg in H by lra. split; lra.
    - rewrite Qabs_pos in H by lra. split; lra. }
  pose proof (Qfloor_half_lower y) as Hl.
  pose proof (Qfloor_half_upper y) as Hu.
  set (k := Qfloor (y + (1 # 2))) in *.
  assert (inject_Z z - 1 < inject_Z k) as H3 by lra.
  assert (inject_Z k < inject_Z z + 1) as H4 by lra.
  change 1 with (inject_Z 1) in H3, H4.
  unfold Qminus in H3. rewrite <- inject_Z_opp, <- inject_Z_plus in H3.
  rewrite <- inject_Z_plus in H4.
  rewrite <- Zlt_Qlt in H3, H4. lia.
Qed.

Lemma Qfloor_half_abs (y : Q) :
  Qabs (inject_Z (Qfloor (y + (1 # 2))) - y) <= 1 # 2.
Proof.
  pose proof (Qfloor_half_lower y) as Hl.
  pose proof (Qfloor_half_upper y) as Hu.
  apply Qabs_Qle_condition. split; lra.
Qed.

Lemma Qabs_triangle_3 (a b c e1 e2 : Q) :
  Qabs (a - b) <= e1 -> Qabs (b - c) <= e2 -> Qabs (a - c) <= e1 + e2.
Proof.
  intros H1 H2. apply Qabs_Qle_condition in H1, H2.
  apply Qabs_Qle_condition. split; lra.
Qed.

(** With a rate of zero: the quotient, within a sixteenth of a cent. *)
Lemma payment64_zero_rate (P r : Q) (n : Z) :
  r == 0 -> 1000 <= P -> P <= 100000000 -> (1 <= n <= 360)%Z ->
  exists y,
    calculateMonthlyPayment64 (Finite P) (Finite r) (num n)
    = Return (round64 (inject_Z (Qfloor (y + (1 # 2))) / 100))
    /\ Qabs (y - 100 * (P / inject_Z n)) <= 1 # 16.
Proof.
  intros Hr HP HP' Hn.
  pose proof (inject_Z_ge_1 n ltac:(lia)) as HN.
  assert (inject_Z n <= 360) as HN'.
  { change 360 with (inject_Z 360). rewrite <- Zle_Qle. lia. }
  pose proof u53_value as Hu.
  assert (1 <= P / inject_Z n) as Hq by (apply Qle_shift_div_l; lra).
  assert (P / inject_Z n <= 100000000) as Hq' by (apply Qle_shift_div_r; lra).
  destruct (close_step 0 u53 (P / inject_Z n) (P / inject_Z n))
    as (q1 & E1 & C1); [apply close_refl | lra | lra | lra | lra | qnum |].
  destruct (close_step (u53 + 0 + u53 * 0) (3 * u53)
              (q1 * inject_Z 100) (P / inject_Z n * 100))
    as (y & E2 & C2); [|qnum|qnum|lra|lra|qnum|].
  { apply close_mul; [exact C1 | apply close_refl | lra | lra | | | |]; qnum. }
  exists y. split.
  - unfold calculateMonthlyPayment64, num.
    rewrite (fdiv_inject r 100) by lia.
    rewrite (round64_zero (r / inject_Z 100)) by (rewrite Hr; reflexivity).
    rewrite (fdiv_inject 0 12) by lia.
    rewrite (round64_zero (0 / inject_Z 12)) by reflexivity.
    change (nstricteq (Finite 0) (Finite (inject_Z 0))) with true. cbv iota.
    rewrite (fdiv_inject P n) by lia. rewrite E1.
    rewrite fmul_finite, E2. cbn [Math_round].
    rewrite fdiv_inject by lia. reflexivity.
  - apply abs_of_close in C2.
    assert (y - 100 * (P / inject_Z n) == y - P / inject_Z n * 100) as -> by ring.
    apply Qle_trans with (3 * u53 * (P / inject_Z n * 100)); [exact C2|].
    rewrite Hu. lra.
Qed.

(** The total amount of a payment of [k] cents is [k n] cents: the product
    is too close to a whole number of cents for [Math.round] to miss it. *)
Lemma total64_cents (k n : Z) :
  (1 <= k <= 17179869184)%Z -> (1 <= n <= 360)%Z ->
  exists c,
    round64 (inject_Z k / 100) = Finite c
    /\ close u53 c (inject_Z k / 100)
    /\ fdiv (Math_round (fmul (fmul (Finite c) (num n)) (num 100))) (num 100)
       = round64 (inject_Z (k * n) / 100).
Proof.
  intros Hk Hn.
  pose proof (inject_Z_ge_1 n ltac:(lia)) as HN.
  assert (inject_Z n <= 360) as HN'.
  { change 360 with (inject_Z 360). rewrite <- Zle_Qle. lia. }
  pose proof (inject_Z_ge_1 k ltac:(lia)) as HK.
  assert (inject_Z k <= 17179869184) as HK'.
  { change 17179869184 with (inject_Z 17179869184). rewrite <- Zle_Qle. lia. }
  pose proof u53_value as Hu.
  assert (inject_Z k / 100 == inject_Z k * (1 # 100)) as Ek by field.
  assert (1 * inject_Z k <= inject_Z n * inject_Z k) as Hnk
    by (apply Qmult_le_compat_r; lra).
  assert (inject_Z n * inject_Z k <= 360 * inject_Z k) as Hnk'
    by (apply Qmult_le_compat_r; lra).
  destruct (close_step 0 u53 (inject_Z k / 100) (inject_Z k / 100))
    as (c & E1 & C1); [apply close_refl | lra | lra | lra | lra | qnum |].
  destruct (close_step (u53 + 0 + u53 * 0) (3 * u53)
              (c * inject_Z n) (inject_Z k / 100 * inject_Z n))
    as (t & E2 & C2); [|qnum|qnum| | |qnum|].
  { apply close_mul; [exact C1 | apply close_refl | lra | lra | | | |];
      try qnum; lra. }
  { rewrite Ek. ring_simplify. ring_simplify in Hnk. lra. }
  { rewrite Ek. ring_simplify. ring_simplify in Hnk'. lra. }
  destruct (close_step (3 * u53 + 0 + 3 * u53 * 0) (5 * u53)
              (t * inject_Z 100) (inject_Z k / 100 * inject_Z n * 100))
    as (y & E3 & C3); [|qnum|qnum| | |qnum|].
  { apply close_mul; [exact C2 | apply close_refl | | lra | | | |]; try qnum.
    rewrite Ek. ring_simplify. ring_simplify in Hnk. lra. }
  { rewrite Ek. ring_simplify. ring_simplify in Hnk. lra. }
  { rewrite Ek. ring_simplify. ring_simplify in Hnk'. lra. }
  exists c. split; [exact E1|]. split; [exact C1|].
  unfold num. rewrite fmul_finite, E2, fmul_finite, E3. cbn [Math_round].
  rewrite fdiv_inject by lia.
  assert (Qfloor (y + (1 # 2)) = (k * n)%Z) as ->; [|reflexivity].
  apply Qfloor_half_near. apply abs_of_close in C3.
  assert (inject_Z k / 100 * inject_Z n * 100 == inject_Z (k * n)) as E
    by (rewrite inject_Z_mult; field).
  rewrite E in C3.
  apply Qle_lt_trans with (5 * u53 * inject_Z (k * n)); [exact C3|].
  rewrite inject_Z_mult, Hu. ring_simplify. ring_simplify in Hnk'. lra.
Qed.

(** The exact payment the calculator approximates. *)
Lemma exact_payment_bounds (P r : Q) (n : Z) :
  1000 <= P -> P <= 100000000 ->
  r == 0 \/ ((1 # 10) <= r /\ r <= 50) ->
  (1 <= n <= 360)%Z ->
  let exact :=
    if Qeq_bool r 0 then P / inject_Z n else annuity P (monthlyRateOf r) n in
  (1 # 12) <= exact /\ exact <= (25 # 24) * P.
Proof.
  intros HP HP' Hr Hn. cbv zeta.
  pose proof (inject_Z_ge_1 n ltac:(lia)) as HN.
  assert (inject_Z n <= 360) as HN'.
  { change 360 with (inject_Z 360). rewrite <- Zle_Qle. lia. }
  destruct (Qeq_bool r 0) eqn:E; qprop.
  - split.
    + apply Qle_shift_div_l; lra.
    + apply Qle_trans with P; [|lra]. apply Qle_shift_div_r; [lra|].
      assert (P * 1 <= P * inject_Z n) by (apply Qmult_le_l; lra). lra.
  - destruct Hr as [Hr|[Hr Hr']]; [contradiction|].
    assert (monthlyRateOf r == r * (1 # 1200)) as Emu by (unfold monthlyRateOf; field).
    assert (exists k, n = Z.of_nat k) as [k ->] by (exists (Z.to_nat n); lia).
    destruct (annuity_bounds P (monthlyRateOf r) k) as [Hl Hu]; try lra; try lia.
    split; [|exact Hu].
    apply Qle_trans with (P * monthlyRateOf r); [|exact Hl].
    apply Qle_trans with (1000 * monthlyRateOf r); [lra|].
    apply Qmult_le_compat_r; lra.
Qed.

(** The loan details in binary64: a whole number [k] of cents within 9/16
    of the exact payment, and [k n] cents in total. *)
Lemma loanDetails64_cents (P r : Q) (n : Z) :
  powAccurate ->
  1000 <= P -> P <= 100000000 ->
  r == 0 \/ ((1 # 10) <= r /\ r <= 50) ->
  (1 <= n <= 360)%Z ->
  let exact :=
    if Qeq_bool r 0 then P / inject_Z n else annuity P (monthlyRateOf r) n in
  exists (k : Z) (mp total : Q),
    calculateMonthlyPayment64 (Finite P) (Finite r) (num n) = Return (Finite mp)
    /\ loanDetails64 (Finite P) (Finite r) (num n) = Return (Finite mp, Finite total)
    /\ round64 (inject_Z k / 100) = Finite mp
    /\ round64 (inject_Z (k * n) / 100) = Finite total
    /\ Qabs (inject_Z k - 100 * exact) <= 9 # 16
    /\ close u53 mp (inject_Z k / 100)
    /\ close u53 total (inject_Z (k * n) / 100).
Proof.
  intros Hpow HP HP' Hr Hn.
  destruct (exact_payment_bounds P r n HP HP' Hr Hn) as [Hel Heu].
  cbv zeta in *.
  assert (exists y,
            calculateMonthlyPayment64 (Finite P) (Finite r) (num n)
            = Return (round64 (inject_Z (Qfloor (y + (1 # 2))) / 100))
            /\ Qabs (y - 100 * (if Qeq_bool r 0 then P / inject_Z n
                                else annuity P (monthlyRateOf r) n)) <= 1 # 16)
    as (y & Ec & Hy).
  { destruct (Qeq_bool r 0) eqn:E; qprop.
    - apply payment64_zero_rate; assumption.
    - destruct Hr as [Hr|[Hr Hr']]; [contradiction|].
      assert (exists k, n = Z.of_nat k) as [k ->] by (exists (Z.to_nat n); lia).
      apply payment64_positive_rate; try assumption. lia. }
  set (exact := if Qeq_bool r 0 then P / inject_Z n
                else annuity P (monthlyRateOf r) n) in *.
  set (k := Qfloor (y + (1 # 2))) in *.
  assert (Qabs (inject_Z k - 100 * exact) <= 9 # 16) as Hk.
  { assert ((9 # 16) == (1 # 2) + (1 # 16)) as -> by reflexivity.
    apply Qabs_triangle_3 with y; [apply Qfloor_half_abs | exact Hy]. }
  assert (1 <= k <= 17179869184)%Z as Hkr.
  { apply Qabs_Qle_condition in Hk. destruct Hk as [Hk1 Hk2].
    assert (inject_Z 0 < inject_Z k) as H1 by (change (inject_Z 0) with 0; lra).
    assert (inject_Z k < inject_Z 17179869184) as H2
      by (change (inject_Z 17179869184) with 17179869184; lra).
    rewrite <- Zlt_Qlt in H1, H2. lia. }
  destruct (total64_cents k n Hkr Hn) as (c & E1 & C1 & E2).
  pose proof u53_value as Hu.
  assert (inject_Z k / 100 == inject_Z k * (1 # 100)) as Ek by field.
  assert (1 <= inject_Z (k * n) /\ inject_Z (k * n) <= 17179869184 * 360) as [Hkn Hkn'].
  { change 1 with (inject_Z 1).
    change (17179869184 * 360) with (inject_Z (17179869184 * 360)).
    rewrite <- !Zle_Qle. split; nia. }
  assert (inject_Z (k * n) / 100 == inject_Z (k * n) * (1 # 100)) as Ekn by field.
  destruct (close_step 0 u53 (inject_Z (k * n) / 100) (inject_Z (k * n) / 100))
    as (t & E3 & C3); [apply close_refl | lra | lra | | | qnum |].
  { rewrite Ekn. lra. }
  { rewrite Ekn. assert (17179869184 * 360 == 6184752906240) by reflexivity. lra. }
  exists k, c, t.
  split; [rewrite Ec, E1; reflexivity|].
  split.
  { unfold loanDetails64. rewrite Ec, E1. cbn [bind]. rewrite E2, E3. reflexivity. }
  repeat split; try assumption; apply C1 || apply C3.
Qed.

(** The rounded power is as accurate as asked. *)
Lemma roundedPow_accurate : @powAccurate roundedPow.
Proof.
  intros b n Hb Hb' Hn. cbn [approxPow roundedPow].
  rewrite isWhole_inject_Z, Qfloor_Z.
  assert (exists k, n = Z.of_nat k) as [k ->] by (exists (Z.to_nat n); lia).
  assert (1 <= b ^ Z.of_nat k) as Hl by (apply Qpower_1_le; [exact Hb | lia]).
  assert (b ^ Z.of_nat k <= pow2 360) as Hh.
  { apply Qle_trans with (2 ^ Z.of_nat k).
    - apply Qpower_mono_nat; lra.
    - apply pow2_le. lia. }
  destruct (round64_relative (b ^ Z.of_nat k)) as (w & Ew & Herr).
  - apply Qle_trans with 1; [discriminate | exact Hl].
  - apply Qle_trans with (pow2 360); [exact Hh | apply pow2_le; lia].
  - exists w. split; [exact Ew|].
    apply Qle_trans with (pow2 (-53) * b ^ Z.of_nat k); [exact Herr|].
    apply Qmult_le_compat_r; [discriminate | lra].
Qed.

(** ** The balance in binary64 *)

Lemma Loan_validate_balance_update (l : Loan.t) (st : LoanStatus) (c : Q) :
  Loan_validate l = true -> 0 <= c ->
  Loan_validate
    (Loan.mk (Loan.loanId l) (Loan.customerId l) (Loan.amount l)
       (Loan.interestRate l) (Loan.term l) st
       (Loan.monthlyPayment l) (Loan.totalAmount l) (Finite c)) = true.
Proof.
  intros Hv Hc. unfold Loan_validate, nge in *. cbn [Loan.loanId Loan.customerId
    Loan.amount Loan.interestRate Loan.term Loan.monthlyPayment Loan.totalAmount
    Loan.remainingBalance].
  split_andb. repeat (apply andb_true_iff; split); try assumption.
  apply nle_finite. change (inject_Z 0) with 0. exact Hc.
Qed.

(** The new balance is a whole number [k] of cents within 9/16 of a cent of
    the exact difference, and the loan is paid off exactly when [k] is 0. *)
Lemma applyPayment64_cents (loan : Loan.t) (b x : Q) :
  Loan.remainingBalance loan = Finite b ->
  0 <= x -> x <= b -> b <= 1000000000000 ->
  exists (k : Z) (c : Q),
    (0 <= k)%Z
    /\ Qabs (inject_Z k - 100 * (b - x)) <= 9 # 16
    /\ round64 (inject_Z k / 100) = Finite c /\ 0 <= c
    /\ applyPayment64 loan (Finite x)
       = Loan.mk (Loan.loanId loan) (Loan.customerId loan) (Loan.amount loan)
           (Loan.interestRate loan) (Loan.term loan)
           (if (k =? 0)%Z then PAID_OFF else Loan.status loan)
           (Loan.monthlyPayment loan) (Loan.totalAmount loan) (Finite c).
Proof.
  intros Hb Hx Hxb Hmax.
  assert (0 <= b + - x) as Hd0 by lra.
  assert (b + - x <= pow2 40) as Hd1.
  { apply Qle_trans with 1000000000000; [lra | qnum]. }
  destruct (round64_absolute (b + - x) 40 Hd0 Hd1 ltac:(lia)) as (d & Ed & Hd & Herr1).
  assert (pow2 (40 - 53) == 1 # 8192) as E13 by reflexivity. rewrite E13 in Herr1.
  apply Qabs_Qle_condition in Herr1. destruct Herr1 as [Hd2 Hd3].
  assert (0 <= d * inject_Z 100) as Hy0.
  { apply Qmult_le_0_compat; [exact Hd | discriminate]. }
  assert (d * inject_Z 100 <= pow2 47) as Hy1.
  { assert (pow2 47 == 140737488355328) as -> by reflexivity.
    change (inject_Z 100) with 100. lra. }
  destruct (round64_absolute (d * inject_Z 100) 47 Hy0 Hy1 ltac:(lia))
    as (y & Ey & Hy & Herr2).
  assert (pow2 (47 - 53) == 1 # 64) as E6 by reflexivity. rewrite E6 in Herr2.
  apply Qabs_Qle_condition in Herr2. destruct Herr2 as [Hy2 Hy3].
  change (inject_Z 100) with 100 in Hy2, Hy3.
  pose proof (Qfloor_half_lower y) as Hkl.
  pose proof (Qfloor_half_upper y) as Hku.
  set (k := Qfloor (y + (1 # 2))) in *.
  assert (0 <= k)%Z as Hk0.
  { assert (inject_Z (-1) < inject_Z k) as H
      by (change (inject_Z (-1)) with (-1 # 1); lra).
    rewrite <- Zlt_Qlt in H. lia. }
  assert (0 <= inject_Z k) as Hk0'
    by (change 0 with (inject_Z 0); rewrite <- Zle_Qle; exact Hk0).
  assert (inject_Z k / 100 == inject_Z k * (1 # 100)) as Ek by field.
  assert (applyPayment64 loan (Finite x)
          = if nle (round64 (inject_Z k / inject_Z 100)) (num 0)
            then Loan.mk (Loan.loanId loan) (Loan.customerId loan) (Loan.amount loan)
                   (Loan.interestRate loan) (Loan.term loan) PAID_OFF
                   (Loan.monthlyPayment loan) (Loan.totalAmount loan) (num 0)
            else Loan.mk (Loan.loanId loan) (Loan.customerId loan) (Loan.amount loan)
                   (Loan.interestRate loan) (Loan.term loan) (Loan.status loan)
                   (Loan.monthlyPayment loan) (Loan.totalAmount loan)
                   (round64 (inject_Z k / inject_Z 100))) as Eapply.
  { unfold applyPayment64. rewrite Hb. unfold num.
    rewrite fsub_finite, Ed, fmul_finite, Ey. cbn [Math_round]. fold k.
    rewrite fdiv_inject by lia. reflexivity. }
  exists k.
  destruct (Z.eqb_spec k 0) as [Ez|Enz].
  - exists 0. split; [exact Hk0|]. split.
    { apply Qabs_Qle_condition. split; lra. }
    rewrite Ez. split; [reflexivity|]. split; [lra|].
    rewrite Eapply, Ez. reflexivity.
  - assert (1 <= inject_Z k) as Hk1 by (apply inject_Z_ge_1; lia).
    destruct (round64_relative (inject_Z k / 100)) as (c & Ec & Hc).
    { apply Qle_trans with (1 # 100); [discriminate|]. rewrite Ek. lra. }
    { apply Qle_trans with 1000000000000000; [rewrite Ek; lra | qnum]. }
    assert (0 < c) as Hcpos.
    { apply Qabs_Qle_condition in Hc. destruct Hc as [Hc1 _].
      assert (pow2 (-53) == 1 # 9007199254740992) as E53 by reflexivity.
      rewrite E53 in Hc1. rewrite Ek in Hc1. lra. }
    exists c. split; [exact Hk0|]. split.
    { apply Qabs_Qle_condition. split; lra. }
    split; [exact Ec|]. split; [lra|].
    rewrite Eapply.
    change (round64 (inject_Z k / inject_Z 100)) with (round64 (inject_Z k / 100)).
    rewrite Ec.
    assert (nle (Finite c) (num 0) = false) as ->.
    { simpl. qprop. change (inject_Z 0) with 0. exact Hcpos. }
    reflexivity.
Qed.

(** A whole number within 9/16 of a rational that is not within 1/16 of a
    tie is the rational rounded half up. *)
Lemma cents_away_from_tie (k : Z) (E : Q) :
  Qabs (inject_Z k - E) <= 9 # 16 ->
  (1 # 16) < Qabs (E - inject_Z (Qfloor E) - (1 # 2)) ->
  k = Qfloor (E + (1 # 2)).
Proof.
  intros Hk Htie.
  apply Qabs_Qle_condition in Hk. destruct Hk as [Hk1 Hk2].
  pose proof (Qfloor_le E) as Hl. pose proof (Qlt_floor E) as Hu.
  rewrite inject_Z_plus in Hu. change (inject_Z 1) with 1 in Hu.
  symmetry. apply Qfloor_half_near.
  set (F := inject_Z (Qfloor E)) in *.
  destruct (Qlt_le_dec (E - F - (1 # 2)) 0) as [Hneg|Hpos].
  - rewrite Qabs_neg in Htie by lra.
    assert (inject_Z k = F) as Ek.
    { unfold F. f_equal.
      assert (inject_Z (Qfloor E) - 1 < inject_Z k) as H3 by (fold F; lra).
      assert (inject_Z k < inject_Z (Qfloor E) + 1) as H4 by (fold F; lra).
      change 1 with (inject_Z 1) in H3, H4.
      unfold Qminus in H3. rewrite <- inject_Z_opp, <- inject_Z_plus in H3.
      rewrite <- inject_Z_plus in H4.
      rewrite <- Zlt_Qlt in H3, H4. lia. }
    rewrite Ek. rewrite Qabs_pos by lra. lra.
  - rewrite Qabs_pos in Htie by lra.
    assert (inject_Z k = inject_Z (Qfloor E + 1)) as Ek.
    { f_equal.
      assert (inject_Z (Qfloor E) < inject_Z k) as H3 by (fold F; lra).
      assert (inject_Z k < inject_Z (Qfloor E) + 2) as H4 by (fold F; lra).
      change 2 with (inject_Z 2) in H4.
      rewrite <- inject_Z_plus in H4.
      rewrite <- Zlt_Qlt in H3, H4. lia. }
    rewrite Ek, inject_Z_plus. fold F. change (inject_Z 1) with 1.
    rewrite Qabs_neg by lra. lra.
Qed.

Lemma cents_to_round2 (k : Z) (q : Q) :
  k = Qfloor (100 * q + (1 # 2)) -> inject_Z k / 100 == round2 q.
Proof.
  intros ->. unfold round2.
  assert (Qfloor (100 * q + (1 # 2)) = Qfloor (q * 100 + (1 # 2))) as ->
    by (apply Qfloor_comp; ring).
  reflexivity.
Qed.

Lemma cents_error (k : Z) (E : Q) :
  Qabs (inject_Z k - 100 * E) <= 9 # 16 ->
  Qabs (inject_Z k / 100 - E) <= 9 # 1600.
Proof.
  intro H. apply Qabs_Qle_condition in H. destruct H as [H1 H2].
  assert (inject_Z k / 100 == inject_Z k * (1 # 100)) as -> by field.
  apply Qabs_Qle_condition. split; lra.
Qed.

(** C4.  In binary64, with a [Math.pow] accurate to one unit in the last
    place, for a principal, a rate and a whole term in the ranges of the
    Loan schema (1000 <= P <= 10^8, 0.1 <= r <= 50, 1 <= n <= 360) and for
    the rate 0: the calculator returns the binary64 value closest to k/100
    for a whole number k of cents that lies within 9/16 of a cent of the
    exact payment, which is P m (1+m)^n / ((1+m)^n - 1) with m = r/100/12,
    and P/n at the rate 0; k/100 is the exact payment rounded to two
    decimals unless that payment is within 1/16 of a cent of a tie; and the
    total amount is the binary64 value closest to k n / 100, the monthly
    payment times n to the cent. *)
Theorem amortization_formula_in_binary64 (P r : Q) (n : Z) :
  powAccurate ->
  1000 <= P -> P <= 100000000 ->
  r == 0 \/ ((1 # 10) <= r /\ r <= 50) ->
  (1 <= n <= 360)%Z ->
  let exact :=
    if Qeq_bool r 0 then P / inject_Z n else annuity P (monthlyRateOf r) n in
  exists k : Z,
    calculateMonthlyPayment64 (Finite P) (Finite r) (num n)
    = Return (round64 (inject_Z k / 100))
    /\ loanDetails64 (Finite P) (Finite r) (num n)
       = Return (round64 (inject_Z k / 100), round64 (inject_Z (k * n) / 100))
    /\ Qabs (inject_Z k / 100 - exact) <= 9 # 1600
    /\ ((1 # 16) < Qabs (100 * exact - inject_Z (Qfloor (100 * exact)) - (1 # 2)) ->
        inject_Z k / 100 == round2 exact).
Proof.
  intros Hpow HP HP' Hr Hn exact.
  destruct (loanDetails64_cents P r n Hpow HP HP' Hr Hn)
    as (k & mp & total & Ec & Ed & Emp & Etot & Hk & _).
  fold exact in Hk.
  exists k. rewrite Emp, Etot. split; [exact Ec|]. split; [exact Ed|].
  split; [apply cents_error; exact Hk|].
  intro Htie. apply cents_to_round2. apply cents_away_from_tie; assumption.
Qed.

(** X16.  The interest of a loan, against simple interest, in binary64.
    For a principal, a positive rate and a whole term in the ranges of the
    Loan schema, with the monthly rate m, the total amount the server
    computes exceeds P by more than half the simple interest on n + 1 months
    and by less than the simple interest on n months, up to one cent for
    each month; and the monthly payment covers the first month of interest
    up to one cent. *)
Theorem total_amount_between_simple_interest_bounds (P r : Q) (n : Z) :
  powAccurate ->
  1000 <= P -> P <= 100000000 -> (1 # 10) <= r -> r <= 50 ->
  (1 <= n <= 360)%Z ->
  exists mp total,
    loanDetails64 (Finite P) (Finite r) (num n) = Return (Finite mp, Finite total)
    /\ P + (1 # 2) * (P * monthlyRateOf r * (inject_Z n + 1))
         - inject_Z n * (1 # 100) < total
    /\ total < P + P * monthlyRateOf r * inject_Z n + inject_Z n * (1 # 100)
    /\ P * monthlyRateOf r - (1 # 100) < mp.
Proof.
  intros Hpow HP HP' Hr Hr' Hn.
  destruct (loanDetails64_cents P r n Hpow HP HP' (or_intror (conj Hr Hr')) Hn)
    as (k & mp & total & _ & Ed & _ & _ & Hk & Cmp & Ctot).
  assert (Qeq_bool r 0 = false) as E0 by (qprop; lra).
  cbv zeta in Hk. rewrite E0 in Hk.
  assert (monthlyRateOf r == r * (1 # 1200)) as Emu by (unfold monthlyRateOf; field).
  assert (0 < monthlyRateOf r) as Hm by lra.
  assert (monthlyRateOf r <= 1 # 24) as Hm' by lra.
  pose proof (annuity_total_lower P (monthlyRateOf r) n ltac:(lra) Hm ltac:(lia)) as Hlo.
  pose proof (annuity_total_upper P (monthlyRateOf r) n ltac:(lra) Hm ltac:(lia)) as Hup.
  assert (exists j, n = Z.of_nat j) as [j Ej] by (exists (Z.to_nat n); lia).
  pose proof (annuity_bounds P (monthlyRateOf r) j ltac:(lra)) as Hab.
  rewrite <- Ej in Hab.
  destruct Hab as [Hal Hau]; [lra | lra | lia |].
  pose proof (inject_Z_ge_1 n ltac:(lia)) as HN.
  assert (inject_Z n <= 360) as HN'.
  { change 360 with (inject_Z 360). rewrite <- Zle_Qle. lia. }
  pose proof u53_value as Hu.
  set (m := monthlyRateOf r) in *.
  set (a := annuity P m n) in *.
  set (N := inject_Z n) in *.
  apply Qabs_Qle_condition in Hk. destruct Hk as [Hk1 Hk2].
  assert ((1 # 12) <= P * m) as Hpm0.
  { apply Qle_trans with (1000 * m); [lra|]. apply Qmult_le_compat_r; lra. }
  assert (inject_Z k / 100 == inject_Z k * (1 # 100)) as Ek by field.
  assert (inject_Z (k * n) / 100 == inject_Z k * (1 # 100) * N) as Ekn
    by (rewrite inject_Z_mult; unfold N; field).
  destruct Cmp as [Cm1 Cm2]. destruct Ctot as [Ct1 Ct2].
  rewrite Ek, Hu in Cm1, Cm2. rewrite Ekn, Hu in Ct1, Ct2.
  set (c := inject_Z k * (1 # 100)) in *.
  assert (a - (9 # 1600) <= c /\ c <= a + (9 # 1600)) as [Hc1 Hc2]
    by (unfold c; split; lra).
  assert ((a - (9 # 1600)) * N <= c * N) as H1 by (apply Qmult_le_compat_r; lra).
  assert (c * N <= (a + (9 # 1600)) * N) as H2 by (apply Qmult_le_compat_r; lra).
  assert (c * N <= ((25 # 24) * 100000000 + (9 # 1600)) * 360) as H3.
  { apply Qle_trans with ((a + (9 # 1600)) * N); [exact H2|].
    apply Qle_trans with (((25 # 24) * 100000000 + (9 # 1600)) * N).
    - apply Qmult_le_compat_r; lra.
    - apply Qmult_le_l; [reflexivity | lra]. }
  assert (0 <= c * N) as H4.
  { apply Qle_trans with ((a - (9 # 1600)) * N); [|exact H1].
    apply Qmult_le_0_compat; lra. }
  assert (P * (1 + m * (N + 1) / 2) == P + (1 # 2) * (P * m * (N + 1))) as E3
    by field.
  assert (P * (1 + N * m) == P + P * m * N) as E4 by ring.
  rewrite E3 in Hlo. rewrite E4 in Hup.
  assert (P * m <= 100000000 * (1 # 24)) as Hpm.
  { apply Qle_trans with (P * (1 # 24)); [apply Qmult_le_l; lra | lra]. }
  exists mp, total. split; [exact Ed|].
  ring_simplify in H1. ring_simplify in H2. ring_simplify in H3.
  ring_simplify in Ct1. ring_simplify in Ct2.
  ring_simplify in Cm1. ring_simplify in Cm2.
  repeat split; lra.
Qed.

(** X7.  Every payment between 1 and the balance is accepted, in binary64:
    on a valid ACTIVE loan with a balance b of at most 10^12, a request with
    its required fields, an amount x with 1 <= x <= b and a record that
    passes the Payment schema under a fresh identifier gets 201; exactly one
    Payment, completed and of amount x, is appended; and the loan is written
    back with the balance that is the binary64 value closest to k/100, for
    a whole number k >= 0 of cents within 9/16 of a cent of b - x, which is
    b - x rounded to two decimals unless b - x is within 1/16 of a cent of a
    tie; the loan is PAID_OFF exactly when k is 0, and nothing else
    changes. *)
Theorem payment_within_balance_is_accepted (newPaymentId : string) (s : Store)
    (req : PaymentRequest.t) (loan : Loan.t) (b x : Q) :
  nonEmpty (PaymentRequest.loanId req) = true ->
  nonEmpty (PaymentRequest.paymentType req) = true ->
  nonEmpty (PaymentRequest.paymentMethod req) = true ->
  PaymentRequest.amount req = JNum (Finite x) ->
  Loan_findOne s (PaymentRequest.loanId req) = Some loan ->
  Loan_validate loan = true ->
  Loan.status loan = ACTIVE ->
  Loan.remainingBalance loan = Finite b ->
  1 <= x -> x <= b -> b <= 1000000000000 ->
  Payment_validate (paymentOf newPaymentId req) = true ->
  existsb (fun p => String.eqb (Payment.paymentId p) newPaymentId) (payments s)
  = false ->
  exists k : Z,
    postPayment64 newPaymentId s req
    = (Resp 201 "Payment recorded successfully",
       mkStore (customers s)
         (replaceFirst (PaymentRequest.loanId req)
            (Loan.mk (Loan.loanId loan) (Loan.customerId loan) (Loan.amount loan)
               (Loan.interestRate loan) (Loan.term loan)
               (if (k =? 0)%Z then PAID_OFF else ACTIVE)
               (Loan.monthlyPayment loan) (Loan.totalAmount loan)
               (round64 (inject_Z k / 100)))
            (loans s))
         (payments s ++ [paymentOf newPaymentId req]))
    /\ Payment.amount (paymentOf newPaymentId req) = Finite x
    /\ Payment.status (paymentOf newPaymentId req) = completed
    /\ (0 <= k)%Z
    /\ Qabs (inject_Z k / 100 - (b - x)) <= 9 # 1600
    /\ ((1 # 16)
        < Qabs (100 * (b - x) - inject_Z (Qfloor (100 * (b - x))) - (1 # 2)) ->
        inject_Z k / 100 == round2 (b - x)).
Proof.
  intros Hid Hty Hme Ha Hf Hv Hact Hb H1 Hxb Hmax Hpv Hfresh.
  assert (truthy (JNum (Finite x)) = true) as Htr
    by (simpl; apply negb_true_iff; qprop; lra).
  assert (nle (Finite x) (num 0) = false) as Hpos
    by (simpl; qprop; change (inject_Z 0) with 0; lra).
  assert (ngt (Finite x) (Finite b) = false) as Hgt
    by (unfold ngt; simpl; qprop; lra).
  destruct (applyPayment64_cents loan b x Hb ltac:(lra) Hxb Hmax)
    as (k & c & Hk0 & Hk & Ec & Hc & Eapply).
  exists k. rewrite Ec. rewrite Hact in Eapply.
  split; [|split; [|split; [reflexivity|split; [exact Hk0|split]]]].
  - unfold postPayment64, Payment_save, Loan_save, global_isNaN.
    rewrite Hid, Hty, Hme, Ha, Htr, Hf, Hact, Hb. cbn [ToNumber].
    rewrite Hpos, Hgt, Hpv.
    change (Payment.paymentId (paymentOf newPaymentId req)) with newPaymentId.
    rewrite Hfresh. cbn [negb orb isNaN LoanStatus_eqb].
    rewrite Eapply.
    rewrite (Loan_validate_balance_update loan _ c Hv Hc). reflexivity.
  - change (Payment.amount (paymentOf newPaymentId req))
      with (ToNumber (PaymentRequest.amount req)).
    rewrite Ha. reflexivity.
  - apply cents_error. exact Hk.
  - intro Htie. apply cents_to_round2. apply cents_away_from_tie; assumption.
Qed.

(** * Properties of the browser side *)

Context {browser : Browser}.

Lemma calculateMonthlyPayment_whole_annuity (P r t : Q) :
  0 < r -> isWhole t = true -> 1 <= t ->
  calculateMonthlyPayment (Finite P) (Finite r) (Finite t)
  = Return (Finite (round2 (annuity P (monthlyRateOf r) (Qfloor t)))).
Proof.
  intros Hr Hw Ht.
  pose proof (whole_ge_1 t Hw Ht) as Hn.
  rewrite <- (calculateMonthlyPayment_annuity P r (Qfloor t) Hr Hn).
  unfold calculateMonthlyPayment. rewrite monthlyRate_finite.
  pose proof (monthlyRateOf_pos r Hr) as Hm.
  assert (nstricteq (Finite (monthlyRateOf r)) (num 0) = false) as ->.
  { unfold nstricteq, num. qprop. change (inject_Z 0) with 0. lra. }
  change (nadd (num 1) (Finite (monthlyRateOf r)))
    with (Finite (1 + monthlyRateOf r)).
  rewrite Math_pow_whole_term by (try assumption; lra).
  rewrite Math_pow_whole by (try lra; lia).
  reflexivity.
Qed.

(** X17.  The preview of the loan form against the server.  For a form whose
    fields parse to finite numbers, with a positive rate and a whole term of
    at least one month, the monthly payment previewed is the one the server
    stores; the total previewed rounds the exact total once, while the
    server multiplies the rounded payment, so the two totals can differ, by
    at most (n + 1) / 200. *)
Theorem preview_against_server (form : LoanFormData.t) (P r t : Q) :
  nonEmpty (LoanFormData.amount form) = true ->
  nonEmpty (LoanFormData.interestRate form) = true ->
  nonEmpty (LoanFormData.term form) = true ->
  parseFloat (LoanFormData.amount form) = Finite P ->
  parseFloat (LoanFormData.interestRate form) = Finite r ->
  parseInt (LoanFormData.term form) = Finite t ->
  0 < r -> isWhole t = true -> 1 <= t ->
  exists mp total pv ptotal,
    loanDetails (Finite P) (Finite r) (Finite t) = Return (Finite mp, Finite total)
    /\ preview form = Some pv
    /\ Preview.monthlyPayment pv = Finite mp
    /\ Preview.totalAmount pv = Finite ptotal
    /\ Qabs (ptotal - total) <= (t + 1) * (1 # 200).
Proof.
  intros Ha Hi Hte EP Er Et Hr Hw Ht.
  pose proof (whole_ge_1 t Hw Ht) as Hn.
  pose proof (whole_term_value t Hw) as Etv.
  pose proof (monthlyRateOf_pos r Hr) as Hm.
  pose proof (growth_gt_1 _ _ Hm Hn) as Hu.
  set (m := monthlyRateOf r) in *.
  set (u := (1 + m) ^ Qfloor t) in *.
  set (a := annuity P m (Qfloor t)).
  set (pay := P * (m * u) / (u + - 1)).
  assert (pay == a) as Epay by (unfold pay, a, annuity; fold u; field; lra).
  exists (round2 a), (round2 (round2 a * t)), 
    (Preview.mk (Finite (round2 pay)) (Finite (round2 (pay * t)))
       (Finite (round2 (pay * t - P)))), (round2 (pay * t)).
  split; [|split; [|split; [|split]]].
  - unfold loanDetails.
    rewrite (calculateMonthlyPayment_whole_annuity P r t Hr Hw Ht). reflexivity.
  - unfold preview, calculatePayment. rewrite Ha, Hi, Hte, EP, Er, Et.
    cbn [andb isNaN orb]. rewrite monthlyRate_finite. fold m.
    assert (nstricteq (Finite m) (num 0) = false) as ->.
    { unfold nstricteq, num. qprop. change (inject_Z 0) with 0. lra. }
    change (nadd (num 1) (Finite m)) with (Finite (1 + m)).
    rewrite Math_pow_whole_term by (try assumption; lra). fold u.
    change (nsub (Finite u) (num 1)) with (Finite (u + - 1)).
    change (nmul (Finite P) (nmul (Finite m) (Finite u))) with (Finite (P * (m * u))).
    rewrite ndiv_finite by lra. fold pay. reflexivity.
  - cbn [Preview.monthlyPayment]. f_equal. apply round2_comp. exact Epay.
  - reflexivity.
  - pose proof (round2_lower a) as L1. pose proof (round2_upper a) as U1.
    pose proof (round2_lower (pay * t)) as L2.
    pose proof (round2_upper (pay * t)) as U2.
    pose proof (round2_lower (round2 a * t)) as L3.
    pose proof (round2_upper (round2 a * t)) as U3.
    assert (round2 (round2 a * t) == round2 a * t) as Es.
    { assert (round2 (round2 a * t) = round2 (round2 a * inject_Z (Qfloor t))) as ->
        by (apply round2_comp; apply Qmult_comp; [reflexivity | exact Etv]).
      rewrite (round2_times_whole a (Qfloor t)).
      apply Qmult_comp; [reflexivity | symmetry; exact Etv]. }
    assert ((a - (1 # 200)) * t <= round2 a * t) as H1
      by (apply Qmult_le_compat_r; lra).
    assert (round2 a * t <= (a + (1 # 200)) * t) as H2
      by (apply Qmult_le_compat_r; lra).
    assert ((a - (1 # 200)) * t == a * t - t * (1 # 200)) as E1 by ring.
    assert ((a + (1 # 200)) * t == a * t + t * (1 # 200)) as E2 by ring.
    assert (pay * t == a * t) as E3 by (rewrite Epay; reflexivity).
    assert ((t + 1) * (1 # 200) == t * (1 # 200) + (1 # 200)) as E4 by ring.
    apply Qabs_Qle_condition. split; lra.
Qed.

(** X18.  The progress shown for a loan is a percentage.  For a loan with a
    positive total T and a balance b with 0 <= b <= T, [calculateProgress]
    returns a whole number between 0 and 100: 0 when nothing is repaid and
    100 when the balance is zero. *)
Theorem progress_is_a_percentage (l : Loan.t) (T b : Q) :
  Loan.totalAmount l = Finite T ->
  Loan.remainingBalance l = Finite b ->
  0 < T -> 0 <= b -> b <= T ->
  exists k : Z,
    calculateProgress (Some l) = num k
    /\ (0 <= k <= 100)%Z
    /\ (b == T -> k = 0%Z)
    /\ (b == 0 -> k = 100%Z).
Proof.
  intros HT Hb HT0 Hb0 HbT.
  set (x := (T + - b) / T * inject_Z 100).
  exists (Qfloor (x + (1 # 2))).
  assert (0 <= (T + - b) / T) as Hlo by (apply Qle_shift_div_l; lra).
  assert ((T + - b) / T <= 1) as Hhi by (apply Qle_shift_div_r; lra).
  change (inject_Z 100) with 100 in x.
  split; [|split; [|split]].
  - unfold calculateProgress. rewrite HT, Hb.
    assert (truthy (JNum (Finite T)) = true) as ->
      by (simpl; apply negb_true_iff; qprop; lra).
    assert (nstricteq (Finite T) (num 0) = false) as ->
      by (simpl; qprop; change (inject_Z 0) with 0; lra).
    cbn [negb orb]. change (nsub (Finite T) (Finite b)) with (Finite (T + - b)).
    rewrite ndiv_finite by lra. reflexivity.
  - split.
    + rewrite <- (Qfloor_Z 0). apply Qfloor_resp_le. change (inject_Z 0) with 0.
      unfold x. lra.
    + change 100%Z with (Qfloor (100 + (1 # 2))). apply Qfloor_resp_le.
      unfold x. lra.
  - intro E. rewrite <- (Qfloor_half_whole 0). apply Qfloor_comp.
    unfold x. rewrite E. change (inject_Z 0) with 0. field. lra.
  - intro E. rewrite <- (Qfloor_half_whole 100). apply Qfloor_comp.
    unfold x. rewrite E. change (inject_Z 100) with 100. field. lra.
Qed.

(** A Number that passed the three checks of a field of the form. *)
Lemma field_in_range (a : Number) (lo hi : Q) :
  (isNaN a || nle a (num 0)) = false ->
  nlt a (Finite lo) = false ->
  ngt a (Finite hi) = false ->
  exists q, a = Finite q /\ 0 < q /\ lo <= q /\ q <= hi.
Proof.
  intros H0 Hlo Hhi. apply orb_false_iff in H0. destruct H0 as [Hnan H0].
  unfold ngt in Hhi.
  destruct a as [q| | |]; simpl in *; try discriminate.
  qprop. change (inject_Z 0) with 0 in H0. exists q. auto.
Qed.

(** X19.  A form that passes the validation of the browser is accepted by
    the server.  If [validateForm] records no error and the term parses to a
    whole number, then [handleSubmit] sends a body which, for a customer who
    exists and under a fresh loan identifier, [POST /api/v1/loans] answers
    with 201, storing a loan with the parsed principal, rate and term. *)
Theorem validated_form_is_accepted (form : LoanFormData.t) (newLoanId : string)
    (s : Store) (c : Customer.t) :
  validateForm form = true ->
  wholeMonths (parseInt (LoanFormData.term form)) = true ->
  nonEmpty newLoanId = true ->
  Customer_findOne s (LoanFormData.customerId form) = Some c ->
  existsb (fun x => String.eqb (Loan.loanId x) newLoanId) (loans s) = false ->
  exists body l,
    handleSubmit form = Some body
    /\ createLoan newLoanId s body
       = (Resp 201 "Loan created successfully",
          mkStore (customers s) (loans s ++ [l]) (payments s))
    /\ Loan.loanId l = newLoanId
    /\ Loan.customerId l = LoanFormData.customerId form
    /\ Loan.amount l = parseFloat (LoanFormData.amount form)
    /\ Loan.interestRate l = parseFloat (LoanFormData.interestRate form)
    /\ Loan.term l = parseInt (LoanFormData.term form)
    /\ Loan.status l = ACTIVE
    /\ Loan.remainingBalance l = Loan.totalAmount l.
Proof.
  intros Hval Hw Hid Hc Hfresh.
  assert (Hval' := Hval). unfold validateForm in Hval'.
  apply andb_true_iff in Hval'. destruct Hval' as [Hval' Hterm].
  apply andb_true_iff in Hval'. destruct Hval' as [Hval' Hrate].
  apply andb_true_iff in Hval'. destruct Hval' as [Hcust Hamt].
  unfold customerError in Hcust.
  destruct (nonEmpty (LoanFormData.customerId form)) eqn:Ecust;
    cbn [negb] in Hcust; [|discriminate].
  unfold amountError in Hamt.
  destruct (nonEmpty (LoanFormData.amount form)); cbn [negb] in Hamt; [|discriminate].
  destruct (_ || _) eqn:A0 in Hamt; [discriminate|].
  destruct (nlt _ _) eqn:A1 in Hamt; [discriminate|].
  destruct (ngt _ _) eqn:A2 in Hamt; [discriminate|].
  destruct (field_in_range _ _ _ A0 A1 A2) as (p & Ep & _ & Hp1 & Hp2).
  unfold rateError in Hrate.
  destruct (nonEmpty (LoanFormData.interestRate form)); cbn [negb] in Hrate;
    [|discriminate].
  destruct (_ || _) eqn:R0 in Hrate; [discriminate|].
  destruct (nlt _ _) eqn:R1 in Hrate; [discriminate|].
  destruct (ngt _ _) eqn:R2 in Hrate; [discriminate|].
  destruct (field_in_range _ _ _ R0 R1 R2) as (r & Er & _ & Hr1 & Hr2).
  unfold termError in Hterm.
  destruct (nonEmpty (LoanFormData.term form)); cbn [negb] in Hterm; [|discriminate].
  destruct (_ || _) eqn:T0 in Hterm; [discriminate|].
  destruct (nlt _ _) eqn:T1 in Hterm; [discriminate|].
  destruct (ngt _ _) eqn:T2 in Hterm; [discriminate|].
  destruct (field_in_range _ _ _ T0 T1 T2) as (t & Et & _ & Ht1 & Ht2).
  rewrite Et in Hw. cbn [wholeMonths] in Hw.
  change (inject_Z 1000) with 1000 in Hp1.
  change (inject_Z 100000000) with 100000000 in Hp2.
  change (inject_Z 50) with 50 in Hr2.
  change (inject_Z 1) with 1 in Ht1. change (inject_Z 360) with 360 in Ht2.
  set (body := LoanBody.mk (LoanFormData.customerId form) (JNum (Finite p))
                 (JNum (Finite r)) (JNum (Finite t))).
  destruct (createLoan_in_range newLoanId s body c p r t Hid Ecust Hc Hfresh
              eq_refl eq_refl eq_refl Hp1 Hp2 Hr1 Hr2 Hw Ht1 Ht2)
    as (mp & total & Hcreate & _).
  exists body. eexists. split; [|split; [exact Hcreate|]].
  - unfold handleSubmit. rewrite Hval, Ep, Er, Et. reflexivity.
  - cbn. rewrite Ep, Er, Et. repeat split; reflexivity.
Qed.

End Properties.

(** * The properties on a concrete ledger *)

#[local] Existing Instance asciiHost.

Ltac by_computation := vm_compute; reflexivity.
Ltac rational := unfold Qle, Qlt; simpl; lia.

Lemma store1_created :
  createLoan "LOAN-0001" store0 demoLoanBody
  = (Resp 201 "Loan created successfully", store1).
Proof. by_computation. Qed.

Lemma store2_paid :
  postPayment "PAY-0001" store1 demoLumpSum
  = (Resp 201 "Payment recorded successfully", store2).
Proof. by_computation. Qed.

(** C1 on the demo loan: the lump sum is the first request of the run. *)
Lemma ledger_balance_invariant_witness :
  exists l1 l2,
    Loan_findOne store1 "LOAN-0001" = Some l1
    /\ Loan_findOne store2 "LOAN-0001" = Some l2
    /\ nle (num 0) (Loan.remainingBalance l2) = true
    /\ nle (Loan.remainingBalance l2) (Loan.totalAmount demoLoan) = true
    /\ Loan.totalAmount l2 = Loan.totalAmount demoLoan
    /\ nle (Loan.remainingBalance l2) (Loan.remainingBalance l1) = true
    /\ (Loan.status l2 = PAID_OFF <-> Loan.remainingBalance l2 =n= num 0).
Proof.
  apply (ledger_balance_invariant store1 "LOAN-0001" demoLoan)
    with (newPaymentId := "PAY-0001") (req := demoLumpSum)
         (resp := Resp 201 "Payment recorded successfully").
  - reflexivity.
  - vm_compute. reflexivity.
  - reflexivity.
  - reflexivity.
  - apply run_done.
  - vm_compute. reflexivity.
Defined.

(** C2 as stated fails.  The demo loan is created through the API and a
    lump sum of 615496 is accepted; the loan is then ACTIVE with 0.20 left,
    and the payment of exactly 0.20 is refused and leaves it as it is. *)
Lemma payoff_below_one_rupee_refused :
  createLoan "LOAN-0001" store0 demoLoanBody
  = (Resp 201 "Loan created successfully", store1)
  /\ postPayment "PAY-0001" store1 demoLumpSum
     = (Resp 201 "Payment recorded successfully", store2)
  /\ exists l,
       Loan_findOne store2 "LOAN-0001" = Some l
       /\ Loan.status l = ACTIVE
       /\ Loan.remainingBalance l = Finite (20 # 100)
       /\ PaymentRequest.amount demoRemainder = JNum (Loan.remainingBalance l)
       /\ postPayment "PAY-0002" store2 demoRemainder
          = (Resp 400 "Failed to record payment", store2)
       /\ ~ (exists s' l', postPayment "PAY-0002" store2 demoRemainder
                           = (Resp 201 "Payment recorded successfully", s')
                           /\ Loan_findOne s' "LOAN-0001" = Some l'
                           /\ Loan.status l' = PAID_OFF).
Proof.
  split; [by_computation|]. split; [by_computation|].
  eexists. split; [reflexivity|].
  split; [reflexivity|]. split; [reflexivity|]. split; [reflexivity|].
  split; [by_computation|].
  intros (s' & l' & H & _).
  assert (postPayment "PAY-0002" store2 demoRemainder
          = (Resp 400 "Failed to record payment", store2)) as E by by_computation.
  rewrite E in H. discriminate.
Qed.

(** C2, amended, on the demo loan paid in one payment. *)
Lemma payoff_closes_loan_witness :
  exists s' loan',
    postPayment "PAY-0001" store1 demoPayoff
    = (Resp 201 "Payment recorded successfully", s')
    /\ Loan_findOne s' (PaymentRequest.loanId demoPayoff) = Some loan'
    /\ Loan.remainingBalance loan' = num 0
    /\ Loan.status loan' = PAID_OFF
    /\ payments s' = (payments store1 ++ [paymentOf "PAY-0001" demoPayoff])%list
    /\ forall (nextId : string) (next : PaymentRequest.t),
         PaymentRequest.loanId next = PaymentRequest.loanId demoPayoff ->
         exists resp,
           postPayment nextId s' next = (resp, s')
           /\ code resp = 400%nat
           /\ (nonEmpty (PaymentRequest.loanId next) = true ->
               truthy (PaymentRequest.amount next) = true ->
               nonEmpty (PaymentRequest.paymentType next) = true ->
               nonEmpty (PaymentRequest.paymentMethod next) = true ->
               global_isNaN (PaymentRequest.amount next) = false ->
               nle (ToNumber (PaymentRequest.amount next)) (num 0) = false ->
               message resp
               = "Cannot add payment to a loan that is already paid off").
Proof.
  apply (payoff_closes_loan "PAY-0001" store1 demoPayoff demoLoan (61549620 # 100)).
  - reflexivity.
  - reflexivity.
  - reflexivity.
  - reflexivity.
  - by_computation.
  - by_computation.
  - reflexivity.
  - reflexivity.
  - rational.
  - by_computation.
  - by_computation.
Defined.

(** C3 on an overpayment of the demo loan. *)
Lemma rejected_payment_leaves_store_witness :
  exists resp,
    postPayment "PAY-0001" store1 demoOverpayment = (resp, store1)
    /\ (code resp = 400%nat \/ code resp = 404%nat).
Proof.
  apply (rejected_payment_leaves_store "PAY-0001" store1 demoOverpayment).
  right. right. right. right. right.
  exists demoLoan. split; [by_computation|]. split; by_computation.
Defined.

(** C5 as stated fails: for a principal of -1000 the calculator signals
    nothing and returns the number -88.85. *)
Lemma calculator_accepts_negative_principal :
  nle (num (-1000)) (num 0) = true
  /\ calculateMonthlyPayment (num (-1000)) (num 12) (num 12)
     = Return (Finite (-8885 # 100)).
Proof. split; by_computation. Qed.

(** C5, amended, on the request for that loan. *)
Lemma invalid_inputs_rejected_at_creation_witness :
  (exists v, calculateMonthlyPayment (num (-1000)) (num 12) (num 12) = Return v)
  /\ exists resp,
       createLoan "LOAN-0002" store1 negativeLoanBody = (resp, store1)
       /\ (code resp = 400%nat \/ code resp = 404%nat).
Proof.
  apply (invalid_inputs_rejected_at_creation "LOAN-0002" store1 negativeLoanBody).
  right. left. by_computation.
Defined.

(** C6 at the corner of the valid range where the interest is smallest. *)
Lemma valid_loan_repays_more_than_principal_witness :
  exists mp total,
    loanDetails (Finite 1000) (Finite (1 # 10)) (num 360)
    = Return (Finite mp, Finite total)
    /\ 0 < mp /\ 1000 <= total /\ ~ total == 1000.
Proof.
  apply (valid_loan_repays_more_than_principal 1000 (1 # 10) 360).
  - rational.
  - rational.
  - rational.
  - lia.
Defined.

Lemma store2_valid : validStore store2.
Proof.
  split; repeat constructor; by_computation.
Qed.

(** C8 on the demo ledger after the lump sum. *)
Lemma dashboard_aggregates_witness :
  totalLoanAmount (dashboard store2) = sumOf (map Loan.amount (loans store2))
  /\ totalCollected (dashboard store2)
     = sumOf (map Payment.amount
                (filter (fun p => PaymentStatus_eqb (Payment.status p) completed)
                   (payments store2)))
  /\ activeLoans (dashboard store2)
     = List.length (filter (fun l => LoanStatus_eqb (Loan.status l) ACTIVE)
                      (loans store2))
  /\ paidOffLoans (dashboard store2)
     = List.length (filter (fun l => LoanStatus_eqb (Loan.status l) PAID_OFF)
                      (loans store2)).
Proof.
  apply (dashboard_aggregates store2).
  split; repeat constructor; vm_compute; reflexivity.
Defined.

(** C9 on the demo ledger: one creation, one payment. *)
Lemma monetary_fields_on_cent_grid_witness : Forall loanOnGrid (loans store2).
Proof.
  apply (monetary_fields_on_cent_grid store2).
  apply (history_pay store1 store2 "PAY-0001" demoLumpSum
           (Resp 201 "Payment recorded successfully")).
  - apply (history_create store0 store1 "LOAN-0001" demoLoanBody
             (Resp 201 "Loan created successfully")).
    + apply history_start. reflexivity.
    + vm_compute. reflexivity.
    + vm_compute. reflexivity.
  - vm_compute. reflexivity.
Defined.

(** C10 on half a rupee against the demo loan. *)
Lemma sub_unit_payment_fails_at_save_witness :
  (global_isNaN (PaymentRequest.amount demoHalf)
   || nle (ToNumber (PaymentRequest.amount demoHalf)) (num 0)) = false
  /\ ngt (ToNumber (PaymentRequest.amount demoHalf))
         (Loan.remainingBalance demoLoan) = false
  /\ Payment_validate (paymentOf "PAY-0001" demoHalf) = false
  /\ Payment_save store1 (paymentOf "PAY-0001" demoHalf)
     = Throw "Payment validation failed"
  /\ postPayment "PAY-0001" store1 demoHalf
     = (Resp 400 "Failed to record payment", store1).
Proof.
  apply (sub_unit_payment_fails_at_save "PAY-0001" store1 demoHalf demoLoan (1 # 2)).
  - reflexivity.
  - reflexivity.
  - reflexivity.
  - reflexivity.
  - rational.
  - rational.
  - vm_compute. reflexivity.
  - reflexivity.
  - vm_compute. reflexivity.
Defined.

(** * The further properties on the concrete ledger *)

#[local] Existing Instance asciiBrowser.

Lemma storePaid_paid :
  postPayment "PAY-0001" store1 demoPayoff
  = (Resp 201 "Payment recorded successfully", storePaid).
Proof. by_computation. Qed.

(** X1 on the demo request. *)
Lemma createLoan_accepts_request_in_range_witness :
  exists mp total,
    let loan := Loan.mk "LOAN-0001" (LoanBody.customerId demoLoanBody)
                  (Finite 500000) (Finite (85 # 10)) (Finite 60) ACTIVE
                  (Finite mp) (Finite total) (Finite total) in
    let s' := mkStore (customers store0) (loans store0 ++ [loan]) (payments store0) in
    createLoan "LOAN-0001" store0 demoLoanBody
    = (Resp 201 "Loan created successfully", s')
    /\ 1 <= mp /\ 500000 < total /\ total == mp * 60
    /\ getLoan s' "LOAN-0001" = (Resp 200 "", Some (loan, Some demoCustomer)).
Proof.
  apply (createLoan_accepts_request_in_range "LOAN-0001" store0 demoLoanBody
           demoCustomer 500000 (85 # 10) 60).
  - reflexivity.
  - reflexivity.
  - reflexivity.
  - reflexivity.
  - reflexivity.
  - reflexivity.
  - reflexivity.
  - rational.
  - rational.
  - rational.
  - rational.
  - vm_compute. reflexivity.
  - rational.
  - rational.
Defined.

(** X2 on the demo ledger. *)
Lemma handlers_keep_ids_unique_witness :
  (forall newLoanId body resp s',
      createLoan newLoanId store2 body = (resp, s') -> uniqueIds s')
  /\ (forall newPaymentId req resp s',
        postPayment newPaymentId store2 req = (resp, s') -> uniqueIds s').
Proof.
  apply (handlers_keep_ids_unique store2).
  split; cbn; (constructor; [intros [] | constructor]).
Defined.

(** X3 on the demo ledger. *)
Lemma handlers_keep_documents_valid_witness :
  (forall newLoanId body resp s',
      createLoan newLoanId store2 body = (resp, s') -> validStore s')
  /\ (forall newPaymentId req resp s',
        postPayment newPaymentId store2 req = (resp, s') -> validStore s').
Proof.
  apply (handlers_keep_documents_valid store2).
  split; repeat constructor; vm_compute; reflexivity.
Defined.

(** X4 on the demo loan once paid off: a further request changes nothing. *)
Lemma paid_off_loan_never_changes_witness :
  Loan_findOne storePaid "LOAN-0001" = Some paidLoan.
Proof.
  apply (paid_off_loan_never_changes storePaid storePaid "LOAN-0001" paidLoan).
  - reflexivity.
  - reflexivity.
  - apply (run_step storePaid storePaid storePaid "PAY-0002" demoHalf
             (Resp 400 "Cannot add payment to a loan that is already paid off")).
    + apply run_done.
    + vm_compute. reflexivity.
Defined.

(** X5 on the demo loan and the lump sum. *)
Lemma payments_change_only_balance_and_status_witness :
  customers store2 = customers store1
  /\ List.length (loans store2) = List.length (loans store1)
  /\ exists l',
       Loan_findOne store2 "LOAN-0001" = Some l'
       /\ Loan.loanId l' = Loan.loanId demoLoan
       /\ Loan.customerId l' = Loan.customerId demoLoan
       /\ Loan.amount l' = Loan.amount demoLoan
       /\ Loan.interestRate l' = Loan.interestRate demoLoan
       /\ Loan.term l' = Loan.term demoLoan
       /\ Loan.monthlyPayment l' = Loan.monthlyPayment demoLoan
       /\ Loan.totalAmount l' = Loan.totalAmount demoLoan.
Proof.
  apply (payments_change_only_balance_and_status store1 store2 "LOAN-0001" demoLoan).
  - reflexivity.
  - apply (run_step store1 store1 store2 "PAY-0001" demoLumpSum
             (Resp 201 "Payment recorded successfully")).
    + apply run_done.
    + vm_compute. reflexivity.
Defined.

(** X6 on the refused payment of the 0.20 that remain. *)
Lemma refused_payment_is_atomic_witness : store2 = store2.
Proof.
  apply (refused_payment_is_atomic "PAY-0002" store2 store2 demoRemainder
           (Resp 400 "Failed to record payment")).
  - intros loan H. vm_compute in H. inversion H. split; vm_compute; reflexivity.
  - vm_compute. reflexivity.
  - simpl. lia.
Defined.

(** X8 on the lump sum. *)
Lemma payment_in_cents_lowers_balance_exactly_witness :
  Loan.remainingBalance (applyPayment demoLoan (Finite 615496))
  =n= Finite ((61549620 # 100) - 615496)
  /\ (Loan.status (applyPayment demoLoan (Finite 615496)) = PAID_OFF
      <-> 615496 == 61549620 # 100).
Proof.
  apply (payment_in_cents_lowers_balance_exactly demoLoan (61549620 # 100) 615496
           61549620 61549600).
  - reflexivity.
  - reflexivity.
  - reflexivity.
  - reflexivity.
  - rational.
  - rational.
Defined.

(** X9 on the demo ledger: one creation, one payment. *)
Lemma books_balance_witness :
  (forall id l, Loan_findOne store2 id = Some l -> booksBalance store2 l)
  /\ (forall p, In p (payments store2) ->
                Loan_findOne store2 (Payment.loanId p) <> None).
Proof.
  apply (books_balance store2).
  apply (cents_pay store1 store2 "PAY-0001" demoLumpSum
           (Resp 201 "Payment recorded successfully")).
  - apply (cents_create store0 store1 "LOAN-0001" demoLoanBody
             (Resp 201 "Loan created successfully")).
    + apply cents_start; reflexivity.
    + vm_compute. reflexivity.
    + vm_compute. reflexivity.
  - intros x H. exists 61549600%Z. vm_compute in H. inversion H. reflexivity.
  - vm_compute. reflexivity.
Defined.



(** X12 on the lump sum. *)
Lemma accepted_payment_on_dashboard_witness :
  totalCollected (dashboard store2)
  = nadd (totalCollected (dashboard store1))
      (ToNumber (PaymentRequest.amount demoLumpSum))
  /\ totalLoanAmount (dashboard store2) = totalLoanAmount (dashboard store1)
  /\ totalLoans (dashboard store2) = totalLoans (dashboard store1)
  /\ totalCustomers (dashboard store2) = totalCustomers (dashboard store1).
Proof.
  apply (accepted_payment_on_dashboard "PAY-0001" store1 store2 demoLumpSum
           (Resp 201 "Payment recorded successfully")).
  - split; repeat constructor; vm_compute; reflexivity.
  - vm_compute. reflexivity.
  - reflexivity.
Defined.

(** X14 on the demo ledger with its loans cleared. *)
Lemma clearing_loans_orphans_payments_witness :
  exists r s',
    clearDatabase (AnArray clearLoansOnly) store2
    = (Resp 200 "Collections cleared successfully", r, s')
    /\ payments s' = payments store2
    /\ (forall id, exists resp,
           getLoanPayments s' id = (resp, [], 0%nat)
           /\ (code resp = 400%nat \/ code resp = 404%nat))
    /\ (forall pid req, exists resp,
           postPayment pid s' req = (resp, s')
           /\ (code resp = 400%nat \/ code resp = 404%nat)).
Proof.
  apply (clearing_loans_orphans_payments clearLoansOnly store2).
  - reflexivity.
  - reflexivity.
Defined.

(** X15 on a principal of 1000 without interest. *)
Lemma calculator_at_term_zero_witness :
  calculateMonthlyPayment (Finite 1000) (Finite 0) (num 0) = Return PosInf.
Proof.
  apply (calculator_at_term_zero 1000 0).
  - rational.
  - rational.
Defined.

(** X17 on the demo form. *)
Lemma preview_against_server_witness :
  exists mp total pv ptotal,
    loanDetails (Finite 500000) (Finite 9) (Finite 60)
    = Return (Finite mp, Finite total)
    /\ preview demoForm = Some pv
    /\ Preview.monthlyPayment pv = Finite mp
    /\ Preview.totalAmount pv = Finite ptotal
    /\ Qabs (ptotal - total) <= (60 + 1) * (1 # 200).
Proof.
  apply (preview_against_server demoForm 500000 9 60).
  - reflexivity.
  - reflexivity.
  - reflexivity.
  - reflexivity.
  - reflexivity.
  - reflexivity.
  - rational.
  - vm_compute. reflexivity.
  - rational.
Defined.

(** X18 on the demo loan with 0.20 left. *)
Lemma progress_is_a_percentage_witness :
  exists k : Z,
    calculateProgress (Loan_findOne store2 "LOAN-0001") = num k
    /\ (0 <= k <= 100)%Z
    /\ ((20 # 100) == (61549620 # 100) -> k = 0%Z)
    /\ ((20 # 100) == 0 -> k = 100%Z).
Proof.
  apply (progress_is_a_percentage
           (Loan.mk "LOAN-0001" "CUST-0001" (num 500000) (Finite (85 # 10)) (num 60)
              ACTIVE (Finite (1025827 # 100)) (Finite (61549620 # 100))
              (Finite (20 # 100)))
           (61549620 # 100) (20 # 100)).
  - reflexivity.
  - reflexivity.
  - rational.
  - rational.
  - rational.
Defined.

(** X19 on the demo form. *)
Lemma validated_form_is_accepted_witness :
  exists body l,
    handleSubmit demoForm = Some body
    /\ createLoan "LOAN-0001" store0 body
       = (Resp 201 "Loan created successfully",
          mkStore (customers store0) (loans store0 ++ [l]) (payments store0))
    /\ Loan.loanId l = "LOAN-0001"
    /\ Loan.customerId l = LoanFormData.customerId demoForm
    /\ Loan.amount l = parseFloat (LoanFormData.amount demoForm)
    /\ Loan.interestRate l = parseFloat (LoanFormData.interestRate demoForm)
    /\ Loan.term l = parseInt (LoanFormData.term demoForm)
    /\ Loan.status l = ACTIVE
    /\ Loan.remainingBalance l = Loan.totalAmount l.
Proof.
  apply (validated_form_is_accepted demoForm "LOAN-0001" store0 demoCustomer).
  - vm_compute. reflexivity.
  - vm_compute. reflexivity.
  - reflexivity.
  - reflexivity.
  - reflexivity.
Defined.

(** * The binary64 reading on examples *)

#[local] Existing Instance roundedPow.

(** C4 as stated fails in binary64.  For P = 1002, r = 9 and n = 1 the
    exact payment is 1009.515, which rounds to 1009.52, and the calculator
    returns 1009.51: the quotient it rounds is just below the tie.  For a
    rate of 10^-14 percent the growth factor rounds to 1, the denominator
    is 0 and the calculator returns +Infinity. *)
Lemma amortization_tie_in_binary64 :
  annuity 1002 (monthlyRateOf 9) 1 == 1009515 # 1000
  /\ round2 (annuity 1002 (monthlyRateOf 9) 1) == 100952 # 100
  /\ calculateMonthlyPayment64 (num 1002) (num 9) (num 1)
     = Return (round64 (100951 # 100))
  /\ round64 (100951 # 100) <> round64 (100952 # 100)
  /\ calculateMonthlyPayment64 (num 1000) (Finite (1 # 100000000000000)) (num 12)
     = Return PosInf.
Proof.
  split; [reflexivity|]. split; [reflexivity|].
  split; [by_computation|]. split; [|by_computation].
  vm_compute. discriminate.
Qed.

(** C4, amended, on the first sample loan. *)
Lemma amortization_formula_in_binary64_witness :
  let exact := annuity 500000 (monthlyRateOf (85 # 10)) 60 in
  exists k : Z,
    calculateMonthlyPayment64 (Finite 500000) (Finite (85 # 10)) (num 60)
    = Return (round64 (inject_Z k / 100))
    /\ loanDetails64 (Finite 500000) (Finite (85 # 10)) (num 60)
       = Return (round64 (inject_Z k / 100), round64 (inject_Z (k * 60) / 100))
    /\ Qabs (inject_Z k / 100 - exact) <= 9 # 1600
    /\ ((1 # 16) < Qabs (100 * exact - inject_Z (Qfloor (100 * exact)) - (1 # 2)) ->
        inject_Z k / 100 == round2 exact).
Proof.
  apply (amortization_formula_in_binary64 500000 (85 # 10) 60 roundedPow_accurate).
  - rational.
  - rational.
  - right. split; rational.
  - lia.
Defined.

(** X7 on a payment of 1.005 against the balance 615496.2, which leaves
    615495.19. *)
Lemma payment_within_balance_is_accepted_witness :
  postPayment64 "PAY-0001" store64 demoOddPayment
  = (Resp 201 "Payment recorded successfully", store64Paid)
  /\ exists k : Z,
       postPayment64 "PAY-0001" store64 demoOddPayment
       = (Resp 201 "Payment recorded successfully",
          mkStore (customers store64)
            (replaceFirst "LOAN-0001"
               (Loan.mk "LOAN-0001" "CUST-0001" (num 500000) (Finite (85 # 10)) (num 60)
                  (if (k =? 0)%Z then PAID_OFF else ACTIVE)
                  (Finite (literal (1025827 # 100)))
                  (Finite (literal (61549620 # 100)))
                  (round64 (inject_Z k / 100)))
               (loans store64))
            (payments store64 ++ [paymentOf "PAY-0001" demoOddPayment]))
       /\ Payment.amount (paymentOf "PAY-0001" demoOddPayment)
          = Finite (literal (1005 # 1000))
       /\ Payment.status (paymentOf "PAY-0001" demoOddPayment) = completed
       /\ (0 <= k)%Z
       /\ Qabs (inject_Z k / 100
                - (literal (61549620 # 100) - literal (1005 # 1000))) <= 9 # 1600
       /\ ((1 # 16)
           < Qabs (100 * (literal (61549620 # 100) - literal (1005 # 1000))
                   - inject_Z (Qfloor (100 * (literal (61549620 # 100)
                                              - literal (1005 # 1000))))
                   - (1 # 2)) ->
           inject_Z k / 100
           == round2 (literal (61549620 # 100) - literal (1005 # 1000))).
Proof.
  split; [by_computation|].
  apply (payment_within_balance_is_accepted "PAY-0001" store64 demoOddPayment
           demoLoan64 (literal (61549620 # 100)) (literal (1005 # 1000))).
  - reflexivity.
  - reflexivity.
  - reflexivity.
  - reflexivity.
  - reflexivity.
  - vm_compute. reflexivity.
  - reflexivity.
  - reflexivity.
  - apply Qle_bool_iff. vm_compute. reflexivity.
  - apply Qle_bool_iff. vm_compute. reflexivity.
  - apply Qle_bool_iff. vm_compute. reflexivity.
  - vm_compute. reflexivity.
  - reflexivity.
Defined.

(** X16 on the first sample loan. *)
Lemma total_amount_between_simple_interest_bounds_witness :
  exists mp total,
    loanDetails64 (Finite 500000) (Finite (85 # 10)) (num 60)
    = Return (Finite mp, Finite total)
    /\ 500000 + (1 # 2) * (500000 * monthlyRateOf (85 # 10) * (inject_Z 60 + 1))
         - inject_Z 60 * (1 # 100) < total
    /\ total < 500000 + 500000 * monthlyRateOf (85 # 10) * inject_Z 60
               + inject_Z 60 * (1 # 100)
    /\ 500000 * monthlyRateOf (85 # 10) - (1 # 100) < mp.
Proof.
  apply (total_amount_between_simple_interest_bounds 500000 (85 # 10) 60
           roundedPow_accurate).
  - rational.
  - rational.
  - rational.
  - rational.
  - lia.
Defined.
